(** * fast-web-search: a shallow embedding of the orchestration core

    The development follows the Python package [fastwebsearch]:
    - [models.py]  : the dataclasses [SearchResult], [Proxy], [ScrapeResult];
    - [scraper.py] : [fetch] (retry with exponential backoff), [scrape_urls]
                     (the fetches of a batch on the event loop) and
                     [WebScraper.get_page_content] (TTL cache, semaphore);
    - [core.py]    : [FastWebSearch] (semaphore, rate limiting, [multi_search]);
    - [proxies.py] : [ProxyManager] (statistics, ranking, eviction);
    - [scraper.py] : [allowed_by_robots] (the robots.txt verdicts and their cache,
                     called alone and from overlapping threads);
    - [search_engines.py] : [BraveSearchEngine] (the request, the results, the errors).

    Conventions.  A Python call that may raise is a computation in the
    state-and-exception monad [M]: a raise keeps the state reached so far,
    as a Python exception keeps the mutations made before it.  Instants
    ([datetime]) are integers counting microseconds; durations measured by
    [total_seconds()] and the ratios computed with [/] are exact rationals.
    The network, the clock and the robots.txt check are the environment:
    functions indexed by the number of requests (resp. clock reads) made
    so far. *)

From Stdlib Require Import ZArith QArith Qround List String Lia Bool Lqa Sorted.
From stdpp Require Import gmap strings list pretty.
Import ListNotations.
Open Scope string_scope.

(** ** Exceptions and the monad *)

Inductive exn : Type :=
| TypeError (msg : string)
| KeyError
| ValueError
| RuntimeError (msg : string)
| ClientError (msg : string)
| NetworkError (msg : string)
| ZeroDivisionError
| OverflowError.

Inductive Res (A : Type) : Type :=
| Ok (a : A)
| Raise (e : exn).
Arguments Ok {A} a.
Arguments Raise {A} e.

Definition M (S A : Type) : Type := S -> Res A * S.

Definition ret {S A} (a : A) : M S A := fun s => (Ok a, s).

Definition raise {S A} (e : exn) : M S A := fun s => (Raise e, s).

Definition bind {S A B} (c : M S A) (k : A -> M S B) : M S B :=
  fun s => match c s with
           | (Ok a, s') => k a s'
           | (Raise e, s') => (Raise e, s')
           end.

Notation "'let*' x ':=' c 'in' k" := (bind c (fun x => k))
  (at level 10, x name, c at level 100, k at level 200, only parsing).

(** [try: c except Exception as e: h e] *)
Definition try_except {S A} (c : M S A) (h : exn -> M S A) : M S A :=
  fun s => match c s with
           | (Ok a, s') => (Ok a, s')
           | (Raise e, s') => h e s'
           end.

(** The outcome of [c] as a value: what [gather(..., return_exceptions=True)]
    makes of a task. *)
Definition catch {S A} (c : M S A) : M S (Res A) :=
  fun s => let (r, s') := c s in (Ok r, s').

Definition gets {S A} (f : S -> A) : M S A := fun s => (Ok (f s), s).

Definition modify {S} (f : S -> S) : M S unit := fun s => (Ok tt, f s).

Definition lift {S A} (r : Res A) : M S A := fun s => (r, s).

(** [timedelta.total_seconds()] of a difference of two instants. *)
Definition total_seconds (d : Z) : Q := (d # 1000000)%Q.

(** [a < b] on rationals, as a boolean. *)
Definition Qlt_bool (a b : Q) : bool := negb (Qle_bool b a).

(** Python truthiness of an [Optional[str]]: [None] and the empty string are false. *)
Definition truthy (o : option string) : bool :=
  match o with
  | Some s => negb (String.eqb s "")
  | None => false
  end.

Definition str (e : exn) : string :=
  match e with
  | TypeError msg | RuntimeError msg | ClientError msg | NetworkError msg => msg
  | KeyError => "KeyError"
  | ValueError => "ValueError"
  | ZeroDivisionError => "float division by zero"
  | OverflowError => "OverflowError"
  end.

(** ** models.py *)

Module SearchResult.
Record t : Type := mk {
  title : string;
  url : string;
  snippet : string;
  timestamp : Z;
  source : string;
  metadata : option (list (string * string))
}.
End SearchResult.

Module Proxy.
Record t : Type := mk {
  host : string;
  port : Z;
  protocol : string;
  username : option string;
  password : option string;
  last_used : option Z;
  success_rate : Q
}.

Definition opt_eqb {A} (eqb : A -> A -> bool) (a b : option A) : bool :=
  match a, b with
  | Some x, Some y => eqb x y
  | None, None => true
  | _, _ => false
  end.

(** [@dataclass] with its defaults ([eq=True]) generates [__eq__], which
    compares the tuples of ALL the fields. *)
Definition __eq__ (a b : t) : bool :=
  String.eqb (host a) (host b)
  && Z.eqb (port a) (port b)
  && String.eqb (protocol a) (protocol b)
  && opt_eqb String.eqb (username a) (username b)
  && opt_eqb String.eqb (password a) (password b)
  && opt_eqb Z.eqb (last_used a) (last_used b)
  && Qeq_bool (success_rate a) (success_rate b).

(** [@dataclass] with [eq=True] and [frozen=False] (the defaults) sets
    [__hash__] to [None]: the class slot holds no function. *)
Definition __hash__ : option (t -> Z) := None.

(** The identity the specification speaks of. *)
Definition identity (p : t) : string * Z * string := (host p, port p, protocol p).

Definition set_last_used (p : t) (now : Z) : t :=
  mk (host p) (port p) (protocol p) (username p) (password p) (Some now) (success_rate p).

(** The proxy URL the three modules build with the same f-strings. *)
Definition proxy_url (p : t) : string :=
  if truthy (username p) && truthy (password p) then
    protocol p ++ "://" ++ default "" (username p) ++ ":" ++ default "" (password p)
      ++ "@" ++ host p ++ ":" ++ pretty (port p)
  else
    protocol p ++ "://" ++ host p ++ ":" ++ pretty (port p).
End Proxy.

Module ScrapeResult.
Record t : Type := mk {
  url : string;
  content : string;
  error : option string;
  timestamp : Z
}.

(** What the generated [__init__] raises when [content] is left out (the
    text is that of CPython 3.9; from 3.10 on it names the class too). *)
Definition missing_content : exn :=
  TypeError "__init__() missing 1 required positional argument: 'content'".

(** The generated [__init__(self, url, content, error=None, timestamp=<import time>)]:
    [url] and [content] have no default, so a call that leaves one out
    raises [TypeError].  An argument left out is [None] here. *)
Definition __init__ (import_time : Z) (url content error : option string)
    (timestamp : option Z) : Res t :=
  match url, content with
  | Some u, Some c =>
      Ok (mk u c error (match timestamp with Some ts => ts | None => import_time end))
  | Some _, None => Raise missing_content
  | None, Some _ =>
      Raise (TypeError "__init__() missing 1 required positional argument: 'url'")
  | None, None =>
      Raise (TypeError "__init__() missing 2 required positional arguments: 'url' and 'content'")
  end.
End ScrapeResult.

(** ** scraper.py : fetch

    [fetch] as it runs when it is awaited on its own: no other task
    draws from the proxy cycle or uses the session between two of its
    steps.  The fetches that [scrape_urls] runs together are followed in
    [ScrapeUrls] below. *)

Module Scraper.

Inductive Response : Type :=
| Responded (status : Z) (text : string)
| TransportRaised (msg : string).

(** The world [fetch] runs in: the shared [itertools.cycle] over the proxy
    URLs (its items and its position), the requests sent so far (newest
    first) and the delays slept so far (newest first). *)
Record World : Type := mkWorld {
  cycle_items : list string;
  cycle_pos : nat;
  sent : list (string * string);
  slept : list Z
}.

Section Fetch.
(** What [await asyncio.to_thread(allowed_by_robots, url, user_agent)] gives
    back: the verdict, or the exception that [allowed_by_robots] raised
    ([urlparse] raises [ValueError] on a malformed URL). *)
Variable allowed_by_robots : string -> string -> Res bool.
Variable transport : nat -> Response.
Variable import_time : Z.

(** [next(proxy_cycle)]; on an exhausted (empty) cycle the [StopIteration]
    leaves the coroutine as a [RuntimeError]. *)
Definition next_proxy : M World string :=
  fun w =>
    match cycle_items w with
    | [] => (Raise (RuntimeError "coroutine raised StopIteration"), w)
    | d :: _ =>
        (Ok (nth (cycle_pos w mod length (cycle_items w)) (cycle_items w) d),
         mkWorld (cycle_items w) (S (cycle_pos w)) (sent w) (slept w))
    end.

(** [session.get(url, proxy=proxy, timeout=5)] then [response.text()] *)
Definition session_get (url proxy : string) : M World string :=
  fun w =>
    let w' := mkWorld (cycle_items w) (cycle_pos w) ((url, proxy) :: sent w) (slept w) in
    match transport (length (sent w)) with
    | Responded _ text => (Ok text, w')
    | TransportRaised msg => (Raise (NetworkError msg), w')
    end.

Definition sleep (d : Z) : M World unit :=
  modify (fun w => mkWorld (cycle_items w) (cycle_pos w) (sent w) (d :: slept w)).

(** The [for attempt in range(max_retries)] loop, [n] iterations left.
    [None]: the loop ran to its end without returning. *)
Fixpoint attempts (n : nat) (url : string) (backoff : Z)
    : M World (option ScrapeResult.t) :=
  match n with
  | O => ret None
  | S n' =>
      let* proxy := next_proxy in
      let* r := try_except
             (let* text := session_get url proxy in
              let* res := lift (ScrapeResult.__init__ import_time (Some url) (Some text) None None) in
              ret (Some res))
             (fun _ => let* _ := sleep backoff in ret None) in
      match r with
      | Some res => ret (Some res)
      | None => attempts n' url (backoff * 2)
      end
  end.

Definition fetch (url user_agent : string) (max_retries : Z) : M World ScrapeResult.t :=
  let* allowed := lift (allowed_by_robots url user_agent) in
  if negb allowed then
    lift (ScrapeResult.__init__ import_time (Some url) None (Some "Disallowed by robots.txt") None)
  else
    let* r := attempts (Z.to_nat max_retries) url 1 in
    match r with
    | Some res => ret res
    | None =>
        lift (ScrapeResult.__init__ import_time (Some url) None (Some "Failed after retries") None)
    end.

End Fetch.
End Scraper.

(** ** scraper.py : scrape_urls

    [asyncio.gather] turns the fetches of a batch into tasks that run
    interleaved on the event loop, over one session and one proxy cycle.
    A fetch gives way at three places: the robots check, which runs in a
    thread, the request, and the sleep after a request that raised; the
    loop resumes it when the check has returned, the request has been
    answered or has raised, or the sleep is over.  Between two such
    places a fetch runs alone.

    The batch is followed up to the first exception that leaves a fetch:
    [gather] hands that exception to [scrape_urls], which closes the
    session and raises it; what the fetches left running do afterwards
    is not followed. *)

Module ScrapeUrls.
Import Scraper.

Inductive Task : Type :=
| AtRobots
| Requesting (rest : nat) (backoff : Z) (n : nat)
| Sleeping (rest : nat) (backoff : Z)
| Returned (res : ScrapeResult.t)
| Failed (e : exn).

(** The URLs in the order of the call, their tasks in the same order, the
    world the fetches share, and the first exception that left a fetch. *)
Record Batch : Type := mkBatch {
  urls : list string;
  tasks : list Task;
  world : World;
  raised : option exn
}.

Inductive Event : Type :=
| Checked (i : nat)
| Answered (i : nat)
| Woke (i : nat).

(** How a fetch ends. *)
Definition ended (r : Res ScrapeResult.t) : Task :=
  match r with
  | Ok res => Returned res
  | Raise e => Failed e
  end.

(** Task [i] moves to [tk]; the first exception is kept for [gather]. *)
Definition settle (i : nat) (tk : Task) (w : World) (b : Batch) : Batch :=
  mkBatch (urls b) (<[i := tk]> (tasks b)) w
          (match raised b, tk with
           | None, Failed e => Some e
           | r, _ => r
           end).

Section ScrapeUrls.
(** What the robots check of the [i]-th fetch gives back. *)
Variable checked : nat -> Res bool.
(** The answer to the [n]-th request, in the order of sending. *)
Variable transport : nat -> Response.
Variable import_time : Z.
Variable max_retries : Z.

(** The top of the [for] loop with [rest] iterations to go: the return
    after the loop, or the next proxy and the request sent through it. *)
Definition iterate (url : string) (rest : nat) (backoff : Z) (w : World) : Task * World :=
  match rest with
  | O =>
      (ended (ScrapeResult.__init__ import_time (Some url) None
                (Some "Failed after retries") None), w)
  | S rest' =>
      match next_proxy w with
      | (Ok proxy, w') =>
          (Requesting rest' backoff (length (sent w')),
           mkWorld (cycle_items w') (cycle_pos w') ((url, proxy) :: sent w') (slept w'))
      | (Raise e, w') => (Failed e, w')
      end
  end.

(** The loop resumes a task.  [None]: the event is not enabled, or an
    exception has left a fetch already. *)
Definition step (ev : Event) (b : Batch) : option Batch :=
  match raised b with
  | Some _ => None
  | None =>
      match ev with
      | Checked i =>
          match tasks b !! i, urls b !! i with
          | Some AtRobots, Some url =>
              match checked i with
              | Raise e => Some (settle i (Failed e) (world b) b)
              | Ok false =>
                  Some (settle i
                          (ended (ScrapeResult.__init__ import_time (Some url) None
                                    (Some "Disallowed by robots.txt") None))
                          (world b) b)
              | Ok true =>
                  let (tk, w) := iterate url (Z.to_nat max_retries) 1 (world b) in
                  Some (settle i tk w b)
              end
          | _, _ => None
          end
      | Answered i =>
          match tasks b !! i, urls b !! i with
          | Some (Requesting rest backoff n), Some url =>
              match transport n with
              | Responded _ text =>
                  Some (settle i
                          (ended (ScrapeResult.__init__ import_time (Some url) (Some text)
                                    None None))
                          (world b) b)
              | TransportRaised _ =>
                  Some (settle i (Sleeping rest backoff)
                          (mkWorld (cycle_items (world b)) (cycle_pos (world b))
                                   (sent (world b)) (backoff :: slept (world b)))
                          b)
              end
          | _, _ => None
          end
      | Woke i =>
          match tasks b !! i, urls b !! i with
          | Some (Sleeping rest backoff), Some url =>
              let (tk, w) := iterate url rest (backoff * 2) (world b) in
              Some (settle i tk w b)
          | _, _ => None
          end
      end
  end.

Fixpoint run (es : list Event) (b : Batch) : option Batch :=
  match es with
  | [] => Some b
  | ev :: es' =>
      match step ev b with
      | Some b' => run es' b'
      | None => None
      end
  end.

End ScrapeUrls.

(** The batch when [scrape_urls] awaits [gather]: every fetch has handed
    its robots check to a thread. *)
Definition create_tasks (urls : list string) (w : World) : Batch :=
  mkBatch urls (map (fun _ => AtRobots) urls) w None.

(** The results of the tasks, when all have returned. *)
Fixpoint gather (ts : list Task) : option (list ScrapeResult.t) :=
  match ts with
  | [] => Some []
  | Returned res :: ts' => option_map (cons res) (gather ts')
  | _ :: _ => None
  end.

(** What [scrape_urls] gives back: the first exception that left a
    fetch, or the results in the order of the URLs once every fetch has
    returned.  [None]: the batch is still running. *)
Definition scrape_urls (b : Batch) : option (Res (list ScrapeResult.t)) :=
  match raised b with
  | Some e => Some (Raise e)
  | None => option_map Ok (gather (tasks b))
  end.

End ScrapeUrls.

(** ** scraper.py : WebScraper *)

Module WebScraper.
Import Scraper.

(** [self.session] is only tested against [None]; [self.cache] maps a URL
    to [(content, timestamp)]; [semaphore] is the number of free permits of
    [self.semaphore]. *)
Record t : Type := mk {
  session : bool;
  cache : gmap string (string * Z);
  cache_ttl : Z;
  max_connections : nat;
  semaphore : nat
}.

(** The object together with its world: the requests sent through the
    session (newest first) and the number of clock reads made. *)
Record State : Type := mkState {
  self : t;
  requests : list (string * option string);
  clock_reads : nat
}.

Definition __init__ (cache_ttl : Z) (max_connections : nat) : t :=
  mk false ∅ cache_ttl max_connections max_connections.

Definition with_session (s : State) (b : bool) : State :=
  mkState (mk b (cache (self s)) (cache_ttl (self s)) (max_connections (self s))
              (semaphore (self s)))
          (requests s) (clock_reads s).

Definition with_cache (s : State) (c : gmap string (string * Z)) : State :=
  mkState (mk (session (self s)) c (cache_ttl (self s)) (max_connections (self s))
              (semaphore (self s)))
          (requests s) (clock_reads s).

Definition with_permits (s : State) (n : nat) : State :=
  mkState (mk (session (self s)) (cache (self s)) (cache_ttl (self s))
              (max_connections (self s)) n)
          (requests s) (clock_reads s).

(** [timedelta(seconds=s)], in microseconds.  A [timedelta] holds at most
    999999999 days in either direction; the constructor raises
    [OverflowError] beyond. *)
Definition timedelta_seconds (s : Z) : Res Z :=
  if (Z.abs (s / 86400) <=? 999999999)%Z then Ok (s * 1000000)%Z
  else Raise OverflowError.

Section GetPageContent.
Variable clock : nat -> Z.
Variable transport : nat -> Response.
Variable get_text : string -> string.

(** [datetime.now()] *)
Definition now : M State Z :=
  fun s => (Ok (clock (clock_reads s)), mkState (self s) (requests s) (S (clock_reads s))).

(** The cache probe at the head of [get_page_content]:
    [Some content] when the entry is there and younger than the TTL.
    The clock is read before the [timedelta] is built. *)
Definition cache_probe (url : string) (use_cache : bool) : M State (option string) :=
  if use_cache then
    let* entry := gets (fun s => cache (self s) !! url) in
    match entry with
    | Some (content, timestamp) =>
        let* t := now in
        let* ttl := gets (fun s => cache_ttl (self s)) in
        let* limit := lift (timedelta_seconds ttl) in
        if (t - timestamp <? limit)%Z
        then ret (Some content) else ret None
    | None => ret None
    end
  else ret None.

(** [if not self.session: self.session = aiohttp.ClientSession()] *)
Definition ensure_session : M State unit :=
  modify (fun s => with_session s true).

(** [self.session.get(url, proxy=proxy_url)]: the status and the body, or a raise. *)
Definition session_get (url : string) (proxy_url : option string) : M State (Z * string) :=
  fun s =>
    let s' := mkState (self s) ((url, proxy_url) :: requests s) (clock_reads s) in
    match transport (length (requests s)) with
    | Responded status html => (Ok (status, html), s')
    | TransportRaised msg => (Raise (NetworkError msg), s')
    end.

(** [self.cache[url] = (content, datetime.now())] *)
Definition cache_store (url content : string) : M State unit :=
  let* t := now in
  modify (fun s => with_cache s (<[url := (content, t)]> (cache (self s)))).

(** [async with self.semaphore: body].  The body runs holding one permit,
    which is given back however the body ends.  With no free permit the
    call waits; [None] is the call that is still waiting, in the state
    it waits in. *)
Definition with_semaphore {A} (body : M State A) : State -> option (Res A) * State :=
  fun s =>
    match semaphore (self s) with
    | O => (None, s)
    | S free =>
        let (r, s') := body (with_permits s free) in
        (Some r, with_permits s' (S (semaphore (self s'))))
    end.

(** The [try] statement under the semaphore: the request, the store on
    a 200 answer, and the [except Exception] that wraps whatever was
    raised, the [ClientError] of the [else] branch included. *)
Definition request (url : string) (proxy_url : option string) : M State string :=
  try_except
    (let* r := session_get url proxy_url in
     if (fst r =? 200)%Z then
       let content := get_text (snd r) in
       let* _ := cache_store url content in
       ret content
     else raise (ClientError ("HTTP " ++ pretty (fst r))))
    (fun e => raise (ClientError ("Failed to fetch " ++ url ++ ": " ++ str e))).

(** [get_page_content(url, proxy, use_cache)].  The cache test comes
    first and returns without the session or the semaphore; its
    [timedelta] is built outside the [try], so its [OverflowError] leaves
    the call as it is.  A [Proxy] instance is always true in [if proxy:]. *)
Definition get_page_content (url : string) (proxy : option Proxy.t) (use_cache : bool)
    : State -> option (Res string) * State :=
  fun s =>
    match cache_probe url use_cache s with
    | (Raise e, s0) => (Some (Raise e), s0)
    | (Ok (Some content), s0) => (Some (Ok content), s0)
    | (Ok None, s0) =>
        let s1 := snd (ensure_session s0) in
        let proxy_url := option_map Proxy.proxy_url proxy in
        with_semaphore (request url proxy_url) s1
    end.

(** [clear_cache] *)
Definition clear_cache : M State unit :=
  modify (fun s => with_cache s ∅).

End GetPageContent.
End WebScraper.

(** ** Python dictionaries with string keys

    Insertion-ordered: a key keeps the place of its first insertion, a
    later insertion under the same key replaces the value only. *)

Module Dict.
Section Dict.
Context {V : Type}.

Definition t : Type := list (string * V).

Fixpoint setitem (k : string) (v : V) (d : t) : t :=
  match d with
  | [] => [(k, v)]
  | (k', v') :: d' =>
      if String.eqb k' k then (k', v) :: d' else (k', v') :: setitem k v d'
  end.

Fixpoint get (k : string) (d : t) : option V :=
  match d with
  | [] => None
  | (k', v') :: d' => if String.eqb k' k then Some v' else get k d'
  end.

Definition keys (d : t) : list string := map fst d.

(** [dict(pairs)] *)
Definition of_pairs (kvs : list (string * V)) : t :=
  fold_left (fun d kv => setitem (fst kv) (snd kv) d) kvs [].

End Dict.
Arguments t V : clear implicits.
End Dict.

(** ** core.py : FastWebSearch

    [search] and [_rate_limit] are coroutines: between two [await]s a
    coroutine runs without interruption, at an [await] the event loop may
    run any other task.  A batch is the list of its tasks, each at one of
    its suspension points, and the event loop is a step function over the
    events that resume a task or let time pass. *)

Module FastWebSearch.

Inductive ProviderOutcome : Type :=
| Returned (results : list SearchResult.t)
| ProviderRaised (e : exn).

(** [semaphore] is the number of free permits of [asyncio.Semaphore]. *)
Record t : Type := mk {
  max_concurrent_searches : nat;
  rate_limit : Z;
  semaphore : nat;
  last_request_time : Z
}.

Definition __init__ (now : Z) (max_concurrent_searches : nat) (rate_limit : Z) : t :=
  mk max_concurrent_searches rate_limit max_concurrent_searches now.

(** Where a [search] task stands. *)
Inductive Task : Type :=
| Pending
| Sleeping (since : Z) (duration : Q)
| Searching
| Done (results : list SearchResult.t)
| Failed (e : exn).

(** [Pending]: created, not yet past [async with self.semaphore].
    [Sleeping since d]: inside the semaphore, in the [asyncio.sleep(d)] of
    [_rate_limit], entered at instant [since].
    [Searching]: past [_rate_limit], awaiting [search_engine.search].
    [Done], [Failed]: returned, resp. raised; the permit is given back. *)

Record Loop : Type := mkLoop {
  self : t;
  clock : Z;
  tasks : list Task;
  admissions : list Z;
  finished : list nat
}.
(** [admissions]: the instants [_rate_limit] stored in [last_request_time],
    newest first.  [finished]: the tasks in the order they finished, newest
    first. *)

Inductive Event : Type :=
| Tick (microseconds : N)
| Enter (i : nat)
| Wake (i : nat)
| Finish (i : nat).

Definition res_try {A} (r : Res A) (h : exn -> Res A) : Res A :=
  match r with
  | Ok a => Ok a
  | Raise e => h e
  end.

(** The [try: ... except Exception: return []] of [search]. *)
Definition search_try (o : ProviderOutcome) : Res (list SearchResult.t) :=
  res_try (match o with
           | Returned results => Ok results
           | ProviderRaised e => Raise e
           end)
          (fun _ => Ok []).

Definition set_task (i : nat) (tk : Task) (l : Loop) : Loop :=
  mkLoop (self l) (clock l) (<[i := tk]> (tasks l)) (admissions l) (finished l).

Definition set_semaphore (n : nat) (l : Loop) : Loop :=
  mkLoop (mk (max_concurrent_searches (self l)) (rate_limit (self l)) n
             (last_request_time (self l)))
         (clock l) (tasks l) (admissions l) (finished l).

(** The last line of [_rate_limit], [self.last_request_time = datetime.now()],
    after which task [i] calls the provider. *)
Definition record_admission (i : nat) (l : Loop) : Loop :=
  mkLoop (mk (max_concurrent_searches (self l)) (rate_limit (self l)) (semaphore (self l))
             (clock l))
         (clock l) (<[i := Searching]> (tasks l)) (clock l :: admissions l) (finished l).

Section EventLoop.
(** The outcome of the provider call made by the [i]-th task. *)
Variable provider : nat -> ProviderOutcome.

Definition step (e : Event) (l : Loop) : option Loop :=
  match e with
  | Tick d =>
      Some (mkLoop (self l) (clock l + Z.of_N d)%Z (tasks l) (admissions l) (finished l))
  | Enter i =>
      match tasks l !! i, semaphore (self l) with
      | Some Pending, S free =>
          if (rate_limit (self l) =? 0)%Z then
            Some (set_task i (Failed ZeroDivisionError) l)
          else
            let time_since_last := total_seconds (clock l - last_request_time (self l))%Z in
            let interval := (1 / inject_Z (rate_limit (self l)))%Q in
            if Qlt_bool time_since_last interval then
              Some (set_task i (Sleeping (clock l) (interval - time_since_last)%Q)
                             (set_semaphore free l))
            else Some (record_admission i (set_semaphore free l))
      | _, _ => None
      end
  | Wake i =>
      match tasks l !! i with
      | Some (Sleeping since duration) =>
          if Qle_bool duration (total_seconds (clock l - since)%Z)
          then Some (record_admission i l) else None
      | _ => None
      end
  | Finish i =>
      match tasks l !! i with
      | Some Searching =>
          let tk := match search_try (provider i) with
                    | Ok results => Done results
                    | Raise e => Failed e
                    end in
          let l' := set_semaphore (S (semaphore (self l))) (set_task i tk l) in
          Some (mkLoop (self l') (clock l') (tasks l') (admissions l') (i :: finished l'))
      | _ => None
      end
  end.

Fixpoint run (es : list Event) (l : Loop) : option Loop :=
  match es with
  | [] => Some l
  | e :: es' =>
      match step e l with
      | Some l' => run es' l'
      | None => None
      end
  end.

End EventLoop.

(** [multi_search]: one task per query, all pending. *)
Definition create_tasks (fws : t) (now : Z) (queries : list string) : Loop :=
  mkLoop fws now (map (fun _ => Pending) queries) [] [].

(** [await asyncio.gather] over the tasks: [None] while the batch is running,
    the results in task order when every task has returned, the exception
    of a task that raised. *)
Fixpoint gather (ts : list Task) : option (Res (list (list SearchResult.t))) :=
  match ts with
  | [] => Some (Ok [])
  | Failed e :: _ => Some (Raise e)
  | Done results :: ts' =>
      match gather ts' with
      | Some (Ok rest) => Some (Ok (results :: rest))
      | other => other
      end
  | _ :: ts' =>
      match gather ts' with
      | Some (Raise e) => Some (Raise e)
      | _ => None
      end
  end.

(** What [multi_search(queries)] returns once the loop has reached [l]. *)
Definition multi_search (queries : list string) (l : Loop)
    : option (Res (Dict.t (list SearchResult.t))) :=
  match gather (tasks l) with
  | Some (Ok results) => Some (Ok (Dict.of_pairs (zip queries results)))
  | Some (Raise e) => Some (Raise e)
  | None => None
  end.

(** The tasks that hold a permit of the semaphore. *)
Definition inside (tk : Task) : bool :=
  match tk with
  | Sleeping _ _ | Searching => true
  | _ => false
  end.

Definition running (l : Loop) : nat := length (filter (fun tk => inside tk = true) (tasks l)).

(** Every two consecutive admissions are at least [1 / rate_limit] seconds apart. *)
Fixpoint spaced (rate_limit : Z) (adm : list Z) : bool :=
  match adm with
  | later :: (earlier :: _) as rest =>
      Qle_bool (1 / inject_Z rate_limit)%Q (total_seconds (later - earlier)%Z)
      && spaced rate_limit rest
  | _ => true
  end.

End FastWebSearch.

(** ** proxies.py : ProxyManager

    [Proxy] instances are mutable objects shared by [self.proxies],
    [self.working_proxies] and the keys of [self.proxy_stats]: they live in
    a heap and the lists hold their addresses.  [self.proxy_stats] is a
    dictionary keyed by such objects: an entry records the hash its key had
    when it was inserted, and a lookup first hashes the key through the
    [__hash__] slot of its class, then tests the entries of that hash with
    [is] and [==].

    Python reads the slot from the class of the object it is handed, so the
    slot is the parameter [tp_hash] of the section.  For the class that
    models.py declares it is [Proxy.__hash__], that is [None], and every
    lookup raises [TypeError]; the statements about registered proxies
    speak of instances of a subclass that defines [__hash__].

    A call is followed from its first line to its return with no other
    task of the event loop running in between; [asyncio.gather] over the
    verifications is followed in task order. *)

Module ProxyManager.
Import Scraper.

(** The address of a [Proxy] object. *)
Definition ref : Type := nat.

(** The per-proxy statistics dictionary, by its five keys. *)
Record Stats : Type := mkStats {
  success_count : nat;
  fail_count : nat;
  avg_response_time : Q;
  last_used : option Z;
  last_verified : option Z
}.

Definition fresh_stats : Stats := mkStats 0 0 0 None None.

Record Entry : Type := mkEntry {
  entry_hash : Z;
  entry_key : ref;
  entry_value : Stats
}.

Record t : Type := mk {
  proxies : list ref;
  working_proxies : list ref;
  verify_timeout : Q;
  proxy_stats : list Entry
}.

(** The manager in its world: the heap of [Proxy] objects, the proxies
    probed so far (newest first) and the number of clock reads made. *)
Record State : Type := mkState {
  heap : ref -> Proxy.t;
  self : t;
  probes : list ref;
  clock_reads : nat
}.

Definition with_self (s : State) (m : t) : State :=
  mkState (heap s) m (probes s) (clock_reads s).

Definition with_working (s : State) (ws : list ref) : State :=
  with_self s (mk (proxies (self s)) ws (verify_timeout (self s)) (proxy_stats (self s))).

Definition with_stats (s : State) (d : list Entry) : State :=
  with_self s (mk (proxies (self s)) (working_proxies (self s)) (verify_timeout (self s)) d).

(** [a == b] as the containers test it: identity first, then [__eq__]. *)
Definition same (h : ref -> Proxy.t) (a b : ref) : bool :=
  Nat.eqb a b || Proxy.__eq__ (h a) (h b).

(** [x in l] *)
Definition contains (h : ref -> Proxy.t) (l : list ref) (x : ref) : bool :=
  existsb (fun y => same h y x) l.

(** [l.remove(x)]: the list without its first item equal to [x];
    [None] when there is none ([ValueError]). *)
Fixpoint remove_first (h : ref -> Proxy.t) (x : ref) (l : list ref) : option (list ref) :=
  match l with
  | [] => None
  | y :: l' =>
      if same h y x then Some l'
      else option_map (cons y) (remove_first h x l')
  end.

(** The index of the entry a lookup of key [k], hashed to [hk], finds. *)
Fixpoint find_entry (h : ref -> Proxy.t) (hk : Z) (k : ref) (d : list Entry) : option nat :=
  match d with
  | [] => None
  | e :: d' =>
      if (entry_hash e =? hk)%Z && same h (entry_key e) k then Some O
      else option_map S (find_entry h hk k d')
  end.

Definition set_value (v : Stats) (e : Entry) : Entry :=
  mkEntry (entry_hash e) (entry_key e) v.

(** Python's [/] on two counters. *)
Definition truediv (a b : nat) : Res Q :=
  match b with
  | O => Raise ZeroDivisionError
  | S _ => Ok (inject_Z (Z.of_nat a) / inject_Z (Z.of_nat b))%Q
  end.

(** [a < b] on the pairs the ranking compares. *)
Definition key_lt (a b : Q * Q) : bool :=
  if Qeq_bool (fst a) (fst b) then Qlt_bool (snd a) (snd b)
  else Qlt_bool (fst a) (fst b).

(** [sorted(..., reverse=True)] on items already paired with their keys:
    descending, items of equal key in their original order. *)
Fixpoint insert_desc {A} (x : (Q * Q) * A) (l : list ((Q * Q) * A)) : list ((Q * Q) * A) :=
  match l with
  | [] => [x]
  | y :: l' =>
      if key_lt (fst x) (fst y) then y :: insert_desc x l'
      else x :: y :: l'
  end.

Definition sorted_desc {A} (l : list ((Q * Q) * A)) : list ((Q * Q) * A) :=
  foldr insert_desc [] l.

Section Manager.
Variable tp_hash : option (Proxy.t -> Z).
Variable clock : nat -> Z.
Variable probe : nat -> Response.

(** [hash(proxy)] *)
Definition hash (p : ref) : M State Z :=
  fun s =>
    match tp_hash with
    | Some f => (Ok (f (heap s p)), s)
    | None => (Raise (TypeError "unhashable type: 'Proxy'"), s)
    end.

(** [self.proxy_stats[proxy]]: the entry's index and its dictionary. *)
Definition getitem (proxy : ref) : M State (nat * Stats) :=
  let* hk := hash proxy in
  fun s =>
    match find_entry (heap s) hk proxy (proxy_stats (self s)) with
    | Some i =>
        match proxy_stats (self s) !! i with
        | Some e => (Ok (i, entry_value e), s)
        | None => (Raise KeyError, s)
        end
    | None => (Raise KeyError, s)
    end.

(** A store into the statistics dictionary of the entry at index [i]. *)
Definition put_stats (i : nat) (v : Stats) : M State unit :=
  modify (fun s => with_stats s (alter (set_value v) i (proxy_stats (self s)))).

(** [self.proxy_stats[proxy] = v] *)
Definition setitem (proxy : ref) (v : Stats) : M State unit :=
  let* hk := hash proxy in
  fun s =>
    match find_entry (heap s) hk proxy (proxy_stats (self s)) with
    | Some i => put_stats i v s
    | None => (Ok tt, with_stats s (proxy_stats (self s) ++ [mkEntry hk proxy v]))
    end.

Fixpoint init_stats (ps : list ref) : M State unit :=
  match ps with
  | [] => ret tt
  | proxy :: ps' =>
      let* _ := setitem proxy fresh_stats in
      init_stats ps'
  end.

(** [ProxyManager(proxies, verify_timeout)] in a world with heap [h]. *)
Definition __init__ (h : ref -> Proxy.t) (proxies : list ref) (verify_timeout : Q)
    : Res unit * State :=
  init_stats proxies (mkState h (mk proxies proxies verify_timeout []) [] 0).

Definition now : M State Z :=
  fun s => (Ok (clock (clock_reads s)),
            mkState (heap s) (self s) (probes s) (S (clock_reads s))).

(** [session.get("https://www.google.com", proxy=proxy_url, timeout=...)]:
    the status of the response, or a raise (a timeout among them). *)
Definition session_get (proxy : ref) (proxy_url : string) : M State Z :=
  fun s =>
    let s' := mkState (heap s) (self s) (proxy :: probes s) (clock_reads s) in
    match probe (length (probes s)) with
    | Responded status _ => (Ok status, s')
    | TransportRaised msg => (Raise (NetworkError msg), s')
    end.

(** [proxy.last_used = t] *)
Definition set_last_used (proxy : ref) (t : Z) : M State unit :=
  modify (fun s =>
    mkState (fun r => if Nat.eqb r proxy then Proxy.set_last_used (heap s r) t else heap s r)
            (self s) (probes s) (clock_reads s)).

Definition verify_proxy (proxy : ref) : M State bool :=
  let* p := gets (fun s => heap s proxy) in
  let proxy_url := Proxy.proxy_url p in
  let* r :=
    try_except
      (let* start_time := now in
       let* status := session_get proxy proxy_url in
       if (status =? 200)%Z then
         let* end_time := now in
         let response_time := total_seconds (end_time - start_time) in
         let* e := getitem proxy in
         let i := fst e in
         let stats := snd e in
         let n := S (success_count stats) in
         let avg := ((avg_response_time stats * inject_Z (Z.of_nat (n - 1)) + response_time)
                     / inject_Z (Z.of_nat n))%Q in
         let* t := now in
         let* _ := put_stats i (mkStats n (fail_count stats) avg (last_used stats) (Some t)) in
         ret (Some true)
       else ret None)
      (fun _ =>
         let* e := getitem proxy in
         let stats := snd e in
         let* _ := put_stats (fst e)
                     (mkStats (success_count stats) (S (fail_count stats))
                              (avg_response_time stats) (last_used stats)
                              (last_verified stats)) in
         ret (Some false)) in
  match r with
  | Some b => ret b
  | None => ret false
  end.

(** The key of the ranking. *)
Definition sort_key (p : ref) : M State (Q * Q) :=
  let* e := getitem p in
  let stats := snd e in
  let* ratio := lift (truediv (success_count stats)
                              (success_count stats + fail_count stats + 1)) in
  ret (ratio, (- avg_response_time stats)%Q).

Fixpoint keyed (ps : list ref) : M State (list ((Q * Q) * ref)) :=
  match ps with
  | [] => ret []
  | p :: ps' =>
      let* k := sort_key p in
      let* rest := keyed ps' in
      ret ((k, p) :: rest)
  end.

(** [for proxy in sorted_proxies[:3]: if await self.verify_proxy(proxy): ...] *)
Fixpoint try_best (candidates : list ref) : M State (option ref) :=
  match candidates with
  | [] => ret None
  | proxy :: rest =>
      let* ok := verify_proxy proxy in
      if ok then
        let* t := now in
        let* _ := set_last_used proxy t in
        ret (Some proxy)
      else try_best rest
  end.

(** [asyncio.gather] with [return_exceptions=True] over the verifications,
    in task order: a raise becomes a result. *)
Fixpoint gather_verify (ps : list ref) : M State (list (Res bool)) :=
  match ps with
  | [] => ret []
  | p :: ps' =>
      let* r := catch (verify_proxy p) in
      let* rest := gather_verify ps' in
      ret (r :: rest)
  end.

(** [isinstance(is_working, bool) and is_working] *)
Definition is_working (r : Res bool) : bool :=
  match r with
  | Ok b => b
  | Raise _ => false
  end.

Definition verified (ws : list ref) (results : list (Res bool)) : list ref :=
  map fst (filter (fun pr => is_working (snd pr) = true) (zip ws results)).

Definition get_proxy : M State (option ref) :=
  let* ws := gets (fun s => working_proxies (self s)) in
  match ws with
  | [] => ret None
  | _ =>
      let* ks := keyed ws in
      let sorted_proxies := map snd (sorted_desc ks) in
      let* best := try_best (firstn 3 sorted_proxies) in
      match best with
      | Some proxy => ret (Some proxy)
      | None =>
          let* ws1 := gets (fun s => working_proxies (self s)) in
          let* results := gather_verify ws1 in
          let* ws2 := gets (fun s => working_proxies (self s)) in
          let* _ := modify (fun s => with_working s (verified ws2 results)) in
          let* ws3 := gets (fun s => working_proxies (self s)) in
          match ws3 with
          | proxy :: _ =>
              let* t := now in
              let* _ := set_last_used proxy t in
              ret (Some proxy)
          | [] => ret None
          end
      end
  end.

Definition mark_proxy_failed (proxy : ref) : M State unit :=
  let* e := getitem proxy in
  let stats := snd e in
  let stats := mkStats (success_count stats) (S (fail_count stats))
                       (avg_response_time stats) (last_used stats) (last_verified stats) in
  let* _ := put_stats (fst e) stats in
  let* success_rate := lift (truediv (success_count stats)
                                     (success_count stats + fail_count stats)) in
  if Qlt_bool success_rate (1 # 2) then
    fun s =>
      match remove_first (heap s) proxy (working_proxies (self s)) with
      | Some ws => (Ok tt, with_working s ws)
      | None => (Raise ValueError, s)
      end
  else ret tt.

Definition mark_proxy_success (proxy : ref) : M State unit :=
  let* e := getitem proxy in
  let stats := snd e in
  put_stats (fst e)
    (mkStats (S (success_count stats)) (fail_count stats)
             (avg_response_time stats) (last_used stats) (last_verified stats)).

End Manager.
End ProxyManager.

(** ** scraper.py : allowed_by_robots

    The verdicts come from the module-level dictionary [_robot_parsers],
    which maps the base URL of a site to the parser of its robots.txt, or
    to [None] when reading it raised.  [urlparse], the reading of
    robots.txt and the parser's [can_fetch] are the environment;
    [rp.set_url] only stores the URL that [rp.read()] then requests. *)

Module Robots.
Section Robots.
(** A [RobotFileParser] after its [read()] has returned. *)
Variable Parser : Type.
(** [urlparse(url)]: the scheme and the netloc, or a raise. *)
Variable urlparse : string -> Res (string * string).
(** [rp.read()] for the [n]-th robots.txt requested, at the given URL:
    the parser it leaves, or [None] when it raises. *)
Variable read : nat -> string -> option Parser.
(** [rp.can_fetch(user_agent, url)] *)
Variable can_fetch : Parser -> string -> string -> bool.

(** [_robot_parsers], and the robots.txt URLs requested so far (newest first). *)
Record State : Type := mkState {
  _robot_parsers : gmap string (option Parser);
  reads : list string
}.

(** The body of [if base_url not in _robot_parsers:]. *)
Definition load (base_url : string) : M State unit :=
  fun s =>
    let robots_url := base_url ++ "/robots.txt" in
    let rp := read (length (reads s)) robots_url in
    (Ok tt, mkState (<[base_url := rp]> (_robot_parsers s)) (robots_url :: reads s)).

(** [allowed_by_robots(url, user_agent)].  A [RobotFileParser] is always
    true in [if rp:]. *)
Definition allowed_by_robots (url user_agent : string) : M State bool :=
  let* parsed := lift (urlparse url) in
  let base_url := fst parsed ++ "://" ++ snd parsed in
  let* seen := gets (fun s => _robot_parsers s !! base_url) in
  let* _ := match seen with
            | None => load base_url
            | Some _ => ret tt
            end in
  let* rp := gets (fun s => _robot_parsers s !! base_url) in
  match rp with
  | Some (Some rp) => ret (can_fetch rp user_agent url)
  | _ => ret true
  end.

(** *** allowed_by_robots in worker threads

    [fetch] runs every call in a thread of its own ([asyncio.to_thread]),
    so the calls of a batch overlap, and nothing locks [_robot_parsers].
    A call meets the dictionary at three places: the membership test, the
    store that ends a load, and the [.get] before the verdict.  A thread
    is followed from one of these places to the next; the read of
    robots.txt lies between the first two, and is numbered when it is
    requested. *)
Inductive Call : Type :=
| Started (url user_agent : string)
| Reading (url user_agent base_url : string) (n : nat)
| Loaded (url user_agent base_url : string)
| Returned (r : Res bool).

(** The calls in flight and the state they share. *)
Record Pool : Type := mkPool {
  shared : State;
  calls : list Call
}.

(** Thread [i] runs up to the next place where it meets the dictionary.
    [None]: there is no such thread, or it has returned. *)
Definition step (i : nat) (p : Pool) : option Pool :=
  match calls p !! i with
  | Some (Started url user_agent) =>
      match urlparse url with
      | Raise e => Some (mkPool (shared p) (<[i := Returned (Raise e)]> (calls p)))
      | Ok parsed =>
          let base_url := fst parsed ++ "://" ++ snd parsed in
          match _robot_parsers (shared p) !! base_url with
          | None =>
              Some (mkPool
                      (mkState (_robot_parsers (shared p))
                               ((base_url ++ "/robots.txt") :: reads (shared p)))
                      (<[i := Reading url user_agent base_url (length (reads (shared p)))]>
                         (calls p)))
          | Some _ =>
              Some (mkPool (shared p) (<[i := Loaded url user_agent base_url]> (calls p)))
          end
      end
  | Some (Reading url user_agent base_url n) =>
      let rp := read n (base_url ++ "/robots.txt") in
      Some (mkPool
              (mkState (<[base_url := rp]> (_robot_parsers (shared p))) (reads (shared p)))
              (<[i := Loaded url user_agent base_url]> (calls p)))
  | Some (Loaded url user_agent base_url) =>
      let verdict :=
        match _robot_parsers (shared p) !! base_url with
        | Some (Some rp) => can_fetch rp user_agent url
        | _ => true
        end in
      Some (mkPool (shared p) (<[i := Returned (Ok verdict)]> (calls p)))
  | Some (Returned _) | None => None
  end.

(** A schedule: the threads in the order in which they run a stretch. *)
Fixpoint run (es : list nat) (p : Pool) : option Pool :=
  match es with
  | [] => Some p
  | i :: es' =>
      match step i p with
      | Some p' => run es' p'
      | None => None
      end
  end.

End Robots.
Arguments State Parser : clear implicits.
Arguments mkState {Parser} _ _.
Arguments _robot_parsers {Parser} _.
Arguments reads {Parser} _.
Arguments Pool Parser : clear implicits.
Arguments mkPool {Parser} _ _.
Arguments shared {Parser} _.
Arguments calls {Parser} _.
End Robots.

(** ** search_engines.py : BraveSearchEngine

    The API is the environment: the [n]-th request is answered by a raise
    of the transport or by a response, which has a status, a body that
    [response.json()] decodes or fails to decode, and a text.  A decoded
    body is a Python value built of [None], booleans, numbers (floats as
    rationals), strings, lists and dictionaries; [search] applies [.get],
    [not] and [for] to it without checking what it holds, and the
    dataclass [SearchResult] does not check its annotations, so a result
    holds whatever values the body gave. *)

Module BraveSearchEngine.

#[warnings="-register-all"] Inductive JSON : Type :=
| JNull
| JBool (b : bool)
| JInt (n : Z)
| JFloat (x : Q)
| JString (s : string)
| JArray (items : list JSON)
| JObject (members : list (string * JSON)).

(** What the handling of a decoded body raises: [AttributeError] for
    [.get] on a value that is no dictionary, [TypeError] for a [for] over a
    value that does not iterate; each with its message. *)
Inductive Thrown : Type :=
| AttributeError (msg : string)
| NotIterable (msg : string).

(** [str(e)] *)
Definition message (t : Thrown) : string :=
  match t with
  | AttributeError msg | NotIterable msg => msg
  end.

(** [type(v).__name__] *)
Definition type_name (v : JSON) : string :=
  match v with
  | JNull => "NoneType"
  | JBool _ => "bool"
  | JInt _ => "int"
  | JFloat _ => "float"
  | JString _ => "str"
  | JArray _ => "list"
  | JObject _ => "dict"
  end.

(** [bool(v)], as [if not web_results:] tests it. *)
Definition truth (v : JSON) : bool :=
  match v with
  | JNull => false
  | JBool b => b
  | JInt n => negb (n =? 0)%Z
  | JFloat x => negb (Qeq_bool x 0)
  | JString s => negb (String.eqb s "")
  | JArray items => negb (Nat.eqb (length items) 0)
  | JObject members => negb (Nat.eqb (length members) 0)
  end.

(** [v.get(key, default)]: only a dictionary has the method. *)
Definition get (v : JSON) (key : string) (default : JSON) : Thrown + JSON :=
  match v with
  | JObject members =>
      inr (match Dict.get key members with
           | Some x => x
           | None => default
           end)
  | _ => inl (AttributeError ("'" ++ type_name v ++ "' object has no attribute 'get'"))
  end.

(** The items [for web_result in v] runs over: those of a list, the keys
    of a dictionary, the characters of a string; nothing else iterates. *)
Definition iterate (v : JSON) : Thrown + list JSON :=
  match v with
  | JArray items => inr items
  | JObject members => inr (map (fun kv => JString (fst kv)) members)
  | JString s => inr (map (fun c => JString (String c "")) (list_ascii_of_string s))
  | _ => inl (NotIterable ("'" ++ type_name v ++ "' object is not iterable"))
  end.

(** A [SearchResult] instance as [search] builds it. *)
Record Built : Type := mkBuilt {
  title : JSON;
  url : JSON;
  snippet : JSON;
  timestamp : Z;
  source : string;
  age : JSON;
  language : JSON;
  family_friendly : JSON
}.
(** [age], [language] and [family_friendly] are the three keys of [metadata]. *)

(** What one request was answered with: a raise of the transport, or a
    response, with its status, what [response.json()] gives and what
    [response.text()] gives. *)
Inductive Reply : Type :=
| TransportRaised (msg : string)
| Responded (status : Z) (json : Res JSON) (text : Res string).

(** [_session]: no session yet, or a session that is open or closed. *)
Inductive Session : Type :=
| NoSession
| Open
| Closed.

Record t : Type := mk {
  api_key : string;
  base_url : string;
  _session : Session
}.

Definition __init__ (api_key : string) : t :=
  mk api_key "https://api.search.brave.com/res/v1/web/search" NoSession.

(** A request as [search] sends it: the URL, the [X-Subscription-Token]
    header, the parameters [q] and [count], and the proxy. *)
Record Request : Type := mkRequest {
  request_url : string;
  token : string;
  q : string;
  count : Z;
  proxy_url : option string
}.

(** The engine in its world: the requests sent (newest first) and the
    number of clock reads made. *)
Record State : Type := mkState {
  self : t;
  requests : list Request;
  clock_reads : nat
}.

Definition with_session (s : State) (x : Session) : State :=
  mkState (mk (api_key (self s)) (base_url (self s)) x) (requests s) (clock_reads s).

(** The property [session]: a new session replaces a missing or closed one. *)
Definition session : M State unit :=
  modify (fun s => with_session s Open).

(** [close()] *)
Definition close : M State unit :=
  modify (fun s =>
    with_session s (match _session (self s) with
                    | Open => Closed
                    | other => other
                    end)).

Section Search.
Variable clock : nat -> Z.
Variable api : nat -> Reply.

(** The body of the [for] loop over [items], the clock having been read
    [n] times: an item that is no dictionary raises at its first [.get],
    inside the [try], and is skipped. *)
Fixpoint build (n : nat) (items : list JSON) : list Built * nat :=
  match items with
  | [] => ([], n)
  | JObject members :: rest =>
      let field key default :=
        match Dict.get key members with
        | Some x => x
        | None => default
        end in
      let result :=
        mkBuilt (field "title" (JString "")) (field "url" (JString ""))
                (field "description" (JString "")) (clock n) "brave"
                (field "age" (JString "")) (field "language" (JString ""))
                (field "family_friendly" (JBool false)) in
      let (results, n') := build (S n) rest in
      (result :: results, n')
  | _ :: rest => build n rest
  end.

(** The 200 branch, from [data] on. *)
Definition results_of (data : JSON) (n : nat) : Thrown + (list Built * nat) :=
  match get data "web" (JObject []) with
  | inl t => inl t
  | inr web =>
      match get web "results" (JArray []) with
      | inl t => inl t
      | inr web_results =>
          if negb (truth web_results) then inr ([], n)
          else
            match iterate web_results with
            | inl t => inl t
            | inr items => inr (build n items)
            end
      end
  end.

(** [search(query, max_results, proxy)].  Everything raised inside the
    [try], the [ClientError] of the [else] branch included, is raised
    again as [ClientError]. *)
Definition search (query : string) (max_results : Z) (proxy : option Proxy.t)
    : M State (list Built) :=
  let* _ := session in
  fun s =>
    let request := mkRequest (base_url (self s)) (api_key (self s)) query max_results
                     (option_map Proxy.proxy_url proxy) in
    let s' := mkState (self s) (request :: requests s) (clock_reads s) in
    let failed reason := (Raise (ClientError ("Failed to search with Brave: " ++ reason)), s') in
    match api (length (requests s)) with
    | TransportRaised msg => failed msg
    | Responded status json text =>
        if (status =? 200)%Z then
          match json with
          | Raise e => failed (str e)
          | Ok data =>
              match results_of data (clock_reads s) with
              | inl t => failed (message t)
              | inr (results, n) => (Ok results, mkState (self s') (requests s') n)
              end
          end
        else
          match text with
          | Raise e => failed (str e)
          | Ok error_text =>
              failed ("Brave API error: " ++ pretty status ++ " - " ++ error_text)
          end
    end.

End Search.
End BraveSearchEngine.

(** * Properties *)

(** ** scraper.py : the retry loop *)

Section FetchSpec.
Import Scraper.
Variable allowed_by_robots : string -> string -> Res bool.
Variable transport : nat -> Response.
Variable import_time : Z.

(** The delays of [n] failed attempts, oldest first: [b], [2b], [4b], ... *)
Definition backoffs (n : nat) (b : Z) : list Z :=
  map (fun k => (b * 2 ^ Z.of_nat k)%Z) (seq 0 n).

Lemma backoffs_S n b : backoffs (S n) b = b :: backoffs n (b * 2).
Proof.
  unfold backoffs. cbn [seq map]. f_equal.
  - rewrite Z.pow_0_r. lia.
  - rewrite <- seq_shift, map_map. apply map_ext. intros k.
    rewrite Nat2Z.inj_succ, Z.pow_succ_r by lia. lia.
Qed.

Definition always_fails : Prop :=
  forall k, exists msg, transport k = TransportRaised msg.

Lemma attempts_all_fail (Hfail : always_fails) n :
  forall url b w,
    cycle_items w <> [] ->
    exists w',
      attempts transport import_time n url b w = (Ok None, w')
      /\ cycle_items w' = cycle_items w
      /\ cycle_pos w' = (cycle_pos w + n)%nat
      /\ length (sent w') = (length (sent w) + n)%nat
      /\ slept w' = (rev (backoffs n b) ++ slept w)%list.
Proof.
  induction n as [|n IH]; intros url b w Hne.
  - exists w. cbn. repeat split; auto.
  - destruct (Hfail (length (sent w))) as [msg Hmsg].
    cbn [attempts]. unfold bind at 1. unfold next_proxy.
    destruct (cycle_items w) as [|d items] eqn:Hitems; [congruence|].
    unfold bind at 1. unfold try_except, bind at 1, session_get.
    cbn [sent]. rewrite Hmsg.
    unfold bind at 1, sleep, modify. cbn [ret].
    set (w1 := mkWorld _ _ _ _).
    destruct (IH url (b * 2)%Z w1) as (w' & Hrun & Hi & Hp & Hs & Hsl).
    { subst w1; cbn. congruence. }
    exists w'. rewrite Hrun. subst w1.
    cbn [cycle_items cycle_pos sent slept length] in *.
    repeat split; auto; try lia.
    rewrite Hsl, backoffs_S. cbn [rev]. rewrite <- app_assoc. reflexivity.
Qed.

(** C2.  When robots.txt allows the URL and the transport fails on every
    attempt, [fetch] makes exactly [max_retries] attempts (none when
    [max_retries] is below 1) and sleeps the doubling delays 1, 2, 4, ...
    -- and then raises [TypeError] instead of returning a result:
    [ScrapeResult(url=url, error="Failed after retries")] leaves out the
    required [content]. *)
Theorem fetch_exhausted_raises (url user_agent : string) (max_retries : Z) (w : World) :
  allowed_by_robots url user_agent = Ok true ->
  always_fails ->
  cycle_items w <> [] ->
  exists w',
    fetch allowed_by_robots transport import_time url user_agent max_retries w
      = (Raise ScrapeResult.missing_content, w')
    /\ length (sent w') = (length (sent w) + Z.to_nat max_retries)%nat
    /\ slept w' = (rev (backoffs (Z.to_nat max_retries) 1) ++ slept w)%list.
Proof.
  intros Hallowed Hfail Hne.
  destruct (attempts_all_fail Hfail (Z.to_nat max_retries) url 1%Z w Hne)
    as (w' & Hrun & _ & _ & Hsent & Hslept).
  exists w'. unfold fetch. rewrite Hallowed. unfold bind at 1, lift at 1.
  cbn [negb].
  unfold bind. rewrite Hrun. unfold lift. cbn [ScrapeResult.__init__].
  auto.
Qed.

End FetchSpec.

(** C2 on three retries through one proxy: three requests, the delays
    1, 2, 4 (newest first in the log), then the [TypeError]. *)
Lemma fetch_exhausted_raises_witness :
  exists w',
    Scraper.fetch (fun _ _ => Ok true) (fun _ => Scraper.TransportRaised "timed out") 0
        "https://example.org/" "fast-web-search" 3
        (Scraper.mkWorld ["http://10.0.0.1:8080"] 0 [] [])
      = (Raise ScrapeResult.missing_content, w')
    /\ length (Scraper.sent w') = 3%nat
    /\ Scraper.slept w' = [4; 2; 1]%Z.
Proof.
  apply (fetch_exhausted_raises (fun _ _ => Ok true)
           (fun _ => Scraper.TransportRaised "timed out") 0
           "https://example.org/" "fast-web-search" 3
           (Scraper.mkWorld ["http://10.0.0.1:8080"] 0 [] [])).
  - reflexivity.
  - intros k. exists "timed out". reflexivity.
  - discriminate.
Defined.

(** ** scraper.py : the content cache *)

Section CacheSpec.
Import Scraper WebScraper.
Variable clock : nat -> Z.
Variable transport : nat -> Response.
Variable get_text : string -> string.

(** A fetch that did not end in a 200 response. *)
Definition fetch_failed (r : Response) : Prop :=
  match r with
  | Responded status _ => status <> 200%Z
  | TransportRaised _ => True
  end.

(** One more clock read, nothing else changed. *)
Definition tick (s : State) : State :=
  mkState (self s) (requests s) (S (clock_reads s)).

(** The seconds a [timedelta] can hold: from -999999999 days up to, and
    not including, 1000000000 days. *)
Definition representable (seconds : Z) : Prop :=
  (-999999999 * 86400 <= seconds < 1000000000 * 86400)%Z.

Lemma timedelta_seconds_ok (seconds : Z) :
  representable seconds -> timedelta_seconds seconds = Ok (seconds * 1000000)%Z.
Proof.
  unfold representable, timedelta_seconds. intros [Hlo Hhi].
  assert (Hdays : (-999999999 <= seconds / 86400 <= 999999999)%Z).
  { split.
    - apply Z.div_le_lower_bound; lia.
    - apply Z.lt_succ_r. apply Z.div_lt_upper_bound; lia. }
  destruct (Z.leb_spec (Z.abs (seconds / 86400)) 999999999); [reflexivity|lia].
Qed.

Lemma timedelta_seconds_overflow (seconds : Z) :
  ~ representable seconds -> timedelta_seconds seconds = Raise OverflowError.
Proof.
  unfold representable, timedelta_seconds. intros Hout.
  destruct (Z.leb_spec (Z.abs (seconds / 86400)) 999999999) as [Hin|]; [|reflexivity].
  exfalso. apply Hout.
  assert (Hdays : (-999999999 <= seconds / 86400 <= 999999999)%Z) by lia.
  destruct Hdays as [Hlo Hhi]. split.
  - pose proof (Z.mul_div_le seconds 86400 ltac:(lia)). lia.
  - pose proof (Z.mul_succ_div_gt seconds 86400 ltac:(lia)). lia.
Qed.

Lemma representable_dec (seconds : Z) : {representable seconds} + {~ representable seconds}.
Proof.
  unfold representable.
  destruct (Z_le_dec (-999999999 * 86400) seconds);
    destruct (Z_lt_dec seconds (1000000000 * 86400)); (left; lia) || (right; lia).
Qed.

(** The probe reads the clock at most once and touches nothing else. *)
Lemma cache_probe_frame url use_cache s r s' :
  cache_probe clock url use_cache s = (r, s') ->
  self s' = self s /\ requests s' = requests s.
Proof.
  unfold cache_probe. destruct use_cache; [|intros [= <- <-]; auto].
  unfold bind at 1, gets. destruct (cache (self s) !! url) as [[content ts]|].
  - unfold bind at 1, now. unfold bind at 1, gets. unfold bind, lift.
    cbn [self requests clock_reads].
    destruct (timedelta_seconds _) as [limit|e]; [|intros [= <- <-]; auto].
    destruct (_ <? _)%Z; intros [= <- <-]; auto.
  - intros [= <- <-]; auto.
Qed.

Lemma cache_probe_fresh url content stored_at s :
  cache (self s) !! url = Some (content, stored_at) ->
  representable (cache_ttl (self s)) ->
  (clock (clock_reads s) - stored_at < cache_ttl (self s) * 1000000)%Z ->
  cache_probe clock url true s = (Ok (Some content), tick s).
Proof.
  intros Hentry Hrange Hfresh. unfold cache_probe, bind at 1, gets. rewrite Hentry.
  unfold bind at 1, now. unfold bind at 1, gets. unfold bind, lift.
  cbn [self requests clock_reads].
  rewrite (timedelta_seconds_ok _ Hrange).
  apply Z.ltb_lt in Hfresh. rewrite Hfresh. reflexivity.
Qed.

Lemma cache_probe_expired url content stored_at s :
  cache (self s) !! url = Some (content, stored_at) ->
  representable (cache_ttl (self s)) ->
  (cache_ttl (self s) * 1000000 <= clock (clock_reads s) - stored_at)%Z ->
  cache_probe clock url true s = (Ok None, tick s).
Proof.
  intros Hentry Hrange Hold. unfold cache_probe, bind at 1, gets. rewrite Hentry.
  unfold bind at 1, now. unfold bind at 1, gets. unfold bind, lift.
  cbn [self requests clock_reads].
  rewrite (timedelta_seconds_ok _ Hrange).
  apply Z.ltb_ge in Hold. rewrite Hold. reflexivity.
Qed.

Lemma cache_probe_overflow url content stored_at s :
  cache (self s) !! url = Some (content, stored_at) ->
  ~ representable (cache_ttl (self s)) ->
  cache_probe clock url true s = (Raise OverflowError, tick s).
Proof.
  intros Hentry Hrange. unfold cache_probe, bind at 1, gets. rewrite Hentry.
  unfold bind at 1, now. unfold bind at 1, gets. unfold bind, lift.
  cbn [self requests clock_reads].
  rewrite (timedelta_seconds_overflow _ Hrange). reflexivity.
Qed.

Lemma cache_probe_absent url use_cache s :
  use_cache = false \/ cache (self s) !! url = None ->
  cache_probe clock url use_cache s = (Ok None, s).
Proof.
  intros H. unfold cache_probe. destruct use_cache; [|reflexivity].
  destruct H as [|Hnone]; [discriminate|].
  unfold bind, gets. rewrite Hnone. reflexivity.
Qed.

(** The request made under the semaphore, as one equation. *)
Lemma request_eq url proxy_url s :
  request clock transport get_text url proxy_url s
    = let sent := (url, proxy_url) :: requests s in
      match transport (length (requests s)) with
      | Responded status html =>
          if (status =? 200)%Z then
            (Ok (get_text html),
             mkState (mk (session (self s))
                        (<[url := (get_text html, clock (clock_reads s))]> (cache (self s)))
                        (cache_ttl (self s)) (max_connections (self s)) (semaphore (self s)))
                     sent (S (clock_reads s)))
          else
            (Raise (ClientError ("Failed to fetch " ++ url ++ ": HTTP " ++ pretty status)),
             mkState (self s) sent (clock_reads s))
      | TransportRaised msg =>
          (Raise (ClientError ("Failed to fetch " ++ url ++ ": " ++ msg)),
           mkState (self s) sent (clock_reads s))
      end.
Proof.
  unfold request, try_except, bind at 1. unfold session_get.
  destruct (transport (length (requests s))) as [status html|msg]; cbn [fst snd].
  - destruct (status =? 200)%Z; reflexivity.
  - reflexivity.
Qed.

(** What a call does once the probe has missed and a permit is free: the
    session is there, one request is sent, the permit is given back. *)
Lemma miss_eq url proxy s :
  0 < semaphore (self s) ->
  with_semaphore (request clock transport get_text url (option_map Proxy.proxy_url proxy))
                 (snd (ensure_session s))
    = let sent := (url, option_map Proxy.proxy_url proxy) :: requests s in
      let opened c :=
        mk true c (cache_ttl (self s)) (max_connections (self s)) (semaphore (self s)) in
      match transport (length (requests s)) with
      | Responded status html =>
          if (status =? 200)%Z then
            (Some (Ok (get_text html)),
             mkState (opened (<[url := (get_text html, clock (clock_reads s))]> (cache (self s))))
                     sent (S (clock_reads s)))
          else
            (Some (Raise (ClientError ("Failed to fetch " ++ url ++ ": HTTP " ++ pretty status))),
             mkState (opened (cache (self s))) sent (clock_reads s))
      | TransportRaised msg =>
          (Some (Raise (ClientError ("Failed to fetch " ++ url ++ ": " ++ msg))),
           mkState (opened (cache (self s))) sent (clock_reads s))
      end.
Proof.
  intros Hfree. unfold with_semaphore, ensure_session, modify.
  cbn [snd with_session self semaphore].
  destruct (semaphore (self s)) as [|free] eqn:Hsem; [lia|].
  rewrite request_eq. cbv zeta. unfold with_permits, with_session.
  cbn [self requests clock_reads session cache cache_ttl max_connections semaphore].
  destruct (transport (length (requests s))) as [status html|msg].
  - destruct (status =? 200)%Z; reflexivity.
  - reflexivity.
Qed.

(** With no permit free the call waits, its request not sent. *)
Lemma miss_waits url proxy s :
  semaphore (self s) = 0 ->
  with_semaphore (request clock transport get_text url (option_map Proxy.proxy_url proxy))
                 (snd (ensure_session s))
    = (None, with_session s true).
Proof.
  intros Hsem. unfold with_semaphore, ensure_session, modify.
  cbn [snd with_session self semaphore]. rewrite Hsem. reflexivity.
Qed.

(** A call whose probe has missed. *)
Lemma get_page_content_miss url proxy use_cache s s0 :
  cache_probe clock url use_cache s = (Ok None, s0) ->
  get_page_content clock transport get_text url proxy use_cache s
    = with_semaphore
        (request clock transport get_text url (option_map Proxy.proxy_url proxy))
        (snd (ensure_session s0)).
Proof. intros Hprobe. unfold get_page_content. rewrite Hprobe. reflexivity. Qed.

(** A call is a hit, an [OverflowError] from the TTL, or a miss. *)
Lemma get_page_content_cases url proxy use_cache s :
  (exists content stored_at,
     use_cache = true
     /\ cache (self s) !! url = Some (content, stored_at)
     /\ representable (cache_ttl (self s))
     /\ (clock (clock_reads s) - stored_at < cache_ttl (self s) * 1000000)%Z
     /\ get_page_content clock transport get_text url proxy use_cache s
        = (Some (Ok content), tick s))
  \/ (exists content stored_at,
        use_cache = true
        /\ cache (self s) !! url = Some (content, stored_at)
        /\ ~ representable (cache_ttl (self s))
        /\ get_page_content clock transport get_text url proxy use_cache s
           = (Some (Raise OverflowError), tick s))
  \/ (exists s0,
        (s0 = s \/ s0 = tick s)
        /\ get_page_content clock transport get_text url proxy use_cache s
           = with_semaphore
               (request clock transport get_text url (option_map Proxy.proxy_url proxy))
               (snd (ensure_session s0))).
Proof.
  pose proof (get_page_content_miss url proxy use_cache s) as Hmiss.
  destruct use_cache.
  2:{ right; right. exists s. split; [auto|]. apply Hmiss, cache_probe_absent. auto. }
  destruct (cache (self s) !! url) as [[content stored_at]|] eqn:Hentry.
  2:{ right; right. exists s. split; [auto|]. apply Hmiss, cache_probe_absent. auto. }
  destruct (representable_dec (cache_ttl (self s))) as [Hrange|Hout].
  - destruct (Z.ltb_spec (clock (clock_reads s) - stored_at)
                         (cache_ttl (self s) * 1000000)) as [Hfresh|Hold].
    + left. exists content, stored_at. repeat (split; [assumption || reflexivity|]).
      unfold get_page_content.
      rewrite (cache_probe_fresh url content stored_at s Hentry Hrange Hfresh). reflexivity.
    + right; right. exists (tick s). split; [auto|].
      apply Hmiss, (cache_probe_expired url content stored_at s Hentry Hrange Hold).
  - right; left. exists content, stored_at. repeat (split; [assumption || reflexivity|]).
    unfold get_page_content.
    rewrite (cache_probe_overflow url content stored_at s Hentry Hout). reflexivity.
Qed.

(** C10.  A call that sends a request and gets no 200 response raises
    [ClientError] and leaves the cache as it was: nothing added, removed
    or overwritten. *)
Theorem failed_fetch_keeps_cache (url : string) (proxy : option Proxy.t)
    (use_cache : bool) (s s' : State) (r : option (Res string)) :
  get_page_content clock transport get_text url proxy use_cache s = (r, s') ->
  length (requests s') = S (length (requests s)) ->
  fetch_failed (transport (length (requests s))) ->
  (exists msg, r = Some (Raise (ClientError msg))) /\ cache (self s') = cache (self s).
Proof.
  intros Hcall Hsent Hfailed.
  destruct (get_page_content_cases url proxy use_cache s)
    as [(c & st & _ & _ & _ & _ & Heq)|[(c & st & _ & _ & _ & Heq)|(s0 & Hs0 & Heq)]];
    rewrite Heq in Hcall.
  - injection Hcall as <- <-. cbn in Hsent. lia.
  - injection Hcall as <- <-. cbn in Hsent. lia.
  - assert (Hself : self s0 = self s) by (destruct Hs0 as [->| ->]; reflexivity).
    assert (Hreq : requests s0 = requests s) by (destruct Hs0 as [->| ->]; reflexivity).
    destruct (semaphore (self s0)) as [|free] eqn:Hsem.
    + rewrite (miss_waits _ _ _ Hsem) in Hcall. injection Hcall as <- <-.
      cbn in Hsent. rewrite Hreq in Hsent. lia.
    + rewrite miss_eq in Hcall by lia. cbv zeta in Hcall. rewrite Hreq, Hself in Hcall.
      destruct (transport (length (requests s))) as [status html|msg].
      * cbn in Hfailed. destruct (Z.eqb_spec status 200); [contradiction|].
        injection Hcall as <- <-. cbn. eauto.
      * injection Hcall as <- <-. cbn. eauto.
Qed.


End CacheSpec.

(** A scraper with an empty cache, a clock that advances one second per
    read, and a page extractor that keeps the text as it is. *)
Definition fresh_scraper : WebScraper.State :=
  WebScraper.mkState (WebScraper.__init__ 3600 10) [] 0.

Definition second_clock (n : nat) : Z := (Z.of_nat n * 1000000)%Z.

(** C10 on a fresh scraper whose request is answered 503. *)
Lemma failed_fetch_keeps_cache_witness :
  (exists msg,
     fst (WebScraper.get_page_content second_clock (fun _ => Scraper.Responded 503 "busy")
            id "https://example.org/" None true fresh_scraper)
       = Some (Raise (ClientError msg)))
  /\ WebScraper.cache (WebScraper.self (snd
       (WebScraper.get_page_content second_clock (fun _ => Scraper.Responded 503 "busy")
          id "https://example.org/" None true fresh_scraper)))
     = WebScraper.cache (WebScraper.self fresh_scraper).
Proof.
  apply (failed_fetch_keeps_cache second_clock (fun _ => Scraper.Responded 503 "busy")
           id "https://example.org/" None true fresh_scraper).
  - apply surjective_pairing.
  - vm_compute. reflexivity.
  - cbn. discriminate.
Defined.

Definition after_first_fetch : WebScraper.State :=
  snd (WebScraper.get_page_content second_clock (fun _ => Scraper.Responded 200 "hello")
         id "https://example.org/" None true fresh_scraper).


(** ** Dictionaries *)

Section DictSpec.
Context {V : Type}.
Implicit Types (d : Dict.t V) (k q : string) (v : V).

Lemma get_setitem_eq k v d : Dict.get k (Dict.setitem k v d) = Some v.
Proof.
  induction d as [|[k' v'] d IH]; cbn.
  - rewrite String.eqb_refl. reflexivity.
  - destruct (String.eqb k' k) eqn:E; cbn; rewrite E; auto.
Qed.

Lemma get_setitem_ne k q v d : k <> q -> Dict.get q (Dict.setitem k v d) = Dict.get q d.
Proof.
  intros Hne. induction d as [|[k' v'] d IH]; cbn.
  - destruct (String.eqb_spec k q); congruence.
  - destruct (String.eqb_spec k' k) as [->|Hk]; cbn.
    + destruct (String.eqb_spec k q); congruence.
    + rewrite IH. reflexivity.
Qed.

Lemma keys_setitem k v d :
  Dict.keys (Dict.setitem k v d)
    = if bool_decide (k ∈ Dict.keys d) then Dict.keys d else (Dict.keys d ++ [k])%list.
Proof.
  unfold Dict.keys. induction d as [|[k' v'] d IH]; cbn.
  - reflexivity.
  - destruct (String.eqb_spec k' k) as [->|Hk]; cbn.
    + rewrite bool_decide_eq_true_2 by constructor. reflexivity.
    + rewrite IH. destruct (bool_decide (k ∈ map fst d)) eqn:E.
      * apply bool_decide_eq_true_1 in E.
        rewrite bool_decide_eq_true_2 by (constructor; exact E). reflexivity.
      * apply bool_decide_eq_false_1 in E.
        rewrite bool_decide_eq_false_2; [reflexivity|].
        intros Hin. apply elem_of_cons in Hin as [->|Hin]; contradiction.
Qed.

Lemma of_pairs_snoc (kvs : list (string * V)) k v :
  Dict.of_pairs (kvs ++ [(k, v)]) = Dict.setitem k v (Dict.of_pairs kvs).
Proof. unfold Dict.of_pairs. rewrite fold_left_app. reflexivity. Qed.

(** Every key is there once. *)
Lemma keys_of_pairs_NoDup (kvs : list (string * V)) : NoDup (Dict.keys (Dict.of_pairs kvs)).
Proof.
  induction kvs as [|[k v] kvs IH] using rev_ind.
  - constructor.
  - rewrite of_pairs_snoc, keys_setitem. case_bool_decide as Hin; [exact IH|].
    apply NoDup_app. split; [exact IH|]. split.
    + intros x Hx Hx'. apply list_elem_of_singleton in Hx'. subst x. contradiction.
    + apply NoDup_singleton.
Qed.

(** The keys are the first components of the pairs. *)
Lemma keys_of_pairs (kvs : list (string * V)) q :
  q ∈ Dict.keys (Dict.of_pairs kvs) <-> q ∈ map fst kvs.
Proof.
  induction kvs as [|[k v] kvs IH] using rev_ind.
  - reflexivity.
  - rewrite of_pairs_snoc, keys_setitem, map_app. cbn [map fst].
    rewrite elem_of_app, list_elem_of_singleton, <- IH.
    case_bool_decide as Hin.
    + split; [auto|]. intros [H| ->]; auto.
    + rewrite elem_of_app, list_elem_of_singleton. reflexivity.
Qed.

(** The value under a key is the one of its last pair. *)
Lemma get_of_pairs_last (kvs : list (string * V)) i q v :
  kvs !! i = Some (q, v) ->
  (forall j v', i < j -> kvs !! j <> Some (q, v')) ->
  Dict.get q (Dict.of_pairs kvs) = Some v.
Proof.
  revert i. induction kvs as [|[k w] kvs IH] using rev_ind; intros i Hi Hlast.
  - rewrite lookup_nil in Hi. discriminate.
  - rewrite of_pairs_snoc.
    destruct (decide (i = length kvs)) as [->|Hne].
    + rewrite lookup_app_r, Nat.sub_diag in Hi by lia. injection Hi as -> ->.
      apply get_setitem_eq.
    + assert (Hlt : i < length kvs).
      { apply lookup_lt_Some in Hi. rewrite length_app in Hi. cbn in Hi. lia. }
      rewrite lookup_app_l in Hi by exact Hlt.
      assert (Hkq : k <> q).
      { intros ->. apply (Hlast (length kvs) w Hlt).
        rewrite lookup_app_r, Nat.sub_diag by lia. reflexivity. }
      rewrite get_setitem_ne by exact Hkq.
      apply (IH i Hi). intros j v' Hj Hjv.
      apply (Hlast j v' Hj). rewrite lookup_app_l; [exact Hjv|].
      apply lookup_lt_Some in Hjv. exact Hjv.
Qed.

End DictSpec.
(** ** core.py : the event loop *)

Section LoopSpec.
Import FastWebSearch.
Variable provider : nat -> ProviderOutcome.

(** What [search] returns for a provider outcome. *)
Definition search_results (o : ProviderOutcome) : list SearchResult.t :=
  match o with
  | Returned results => results
  | ProviderRaised _ => []
  end.

Definition settled (tk : Task) : bool :=
  match tk with
  | Done _ | Failed _ => true
  | _ => false
  end.

(** Every task of the batch has returned or raised. *)
Definition complete (l : Loop) : Prop := forallb settled (tasks l) = true.

Lemma search_try_ok o : search_try o = Ok (search_results o).
Proof. destruct o; reflexivity. Qed.

Definition count_inside (ts : list Task) : nat :=
  length (filter (fun tk => inside tk = true) ts).

Definition weight (tk : Task) : nat := if inside tk then 1 else 0.

Lemma count_inside_cons tk ts : count_inside (tk :: ts) = weight tk + count_inside ts.
Proof.
  unfold count_inside, weight. rewrite filter_cons.
  destruct (inside tk); case_decide; try congruence; reflexivity.
Qed.

Lemma count_inside_insert ts : forall i old new,
  ts !! i = Some old ->
  count_inside (<[i := new]> ts) + weight old = count_inside ts + weight new.
Proof.
  induction ts as [|tk ts IH]; intros i old new Hi.
  - rewrite lookup_nil in Hi. discriminate.
  - destruct i as [|i]; cbn in Hi.
    + injection Hi as ->. change (<[0 := new]> (old :: ts)) with (new :: ts).
      rewrite !count_inside_cons. lia.
    + change (<[S i := new]> (tk :: ts)) with (tk :: <[i := new]> ts).
      rewrite !count_inside_cons. specialize (IH i old new Hi). lia.
Qed.

(** The invariant of a batch of [n] tasks run on a [FastWebSearch] built
    with [k] permits and rate limit [r]. *)
Record loop_inv (k : nat) (r : Z) (n : nat) (l : Loop) : Prop := mk_inv {
  inv_length : length (tasks l) = n;
  inv_rate : rate_limit (self l) = r;
  inv_permits : running l + semaphore (self l) = k;
  inv_done : forall i results,
      tasks l !! i = Some (Done results) -> results = search_results (provider i);
  inv_failed : forall i e, tasks l !! i = Some (Failed e) -> r = 0%Z
}.

Lemma create_tasks_inv t0 k r now queries :
  loop_inv k r (length queries) (create_tasks (__init__ t0 k r) now queries).
Proof.
  assert (Hpending : forall i tk,
             map (fun _ : string => Pending) queries !! i = Some tk -> tk = Pending).
  { intros i tk. rewrite list_lookup_fmap. destruct (queries !! i); cbn; congruence. }
  split; cbn.
  - apply length_map.
  - reflexivity.
  - unfold running. cbn. fold (count_inside (map (fun _ : string => Pending) queries)).
    induction queries as [|q qs IH]; [reflexivity|].
    cbn [map]. rewrite count_inside_cons. cbn. apply IH.
    intros i tk Hi. apply (Hpending (S i) tk Hi).
  - intros i results Hi. apply Hpending in Hi. discriminate.
  - intros i e Hi. apply Hpending in Hi. discriminate.
Qed.

Lemma lookup_insert_task (ts : list Task) i j new tk :
  <[i := new]> ts !! j = Some tk ->
  (i = j /\ tk = new) \/ (i <> j /\ ts !! j = Some tk).
Proof.
  intros H. apply list_lookup_insert_Some in H. destruct H as [(-> & -> & _)|[Hne H]]; auto.
Qed.

Lemma running_count l : running l = count_inside (tasks l).
Proof. reflexivity. Qed.

(** The invariant after task [i], which stood at [old], has moved to the
    position written at [i] in the goal: the other tasks are untouched, and
    the count of permits moves by the weights of the two positions. *)
Ltac inv_after_move Hi Hlen Hrate Hperm Hdone Hfail :=
  rewrite running_count in Hperm;
  split;
  [ cbn; rewrite length_insert; exact Hlen
  | cbn; exact Hrate
  | rewrite running_count;
    cbn [tasks self semaphore set_task set_semaphore record_admission];
    match goal with
    | |- context [<[?i := ?new]> ?ts] =>
        pose proof (count_inside_insert ts i _ new Hi) as Hcount;
        cbn in Hcount; lia
    end
  | let j := fresh "j" in
    let results := fresh "results" in
    let Hj := fresh "Hj" in
    cbn; intros j results Hj;
    apply lookup_insert_task in Hj as [[? Hj]|[_ Hj]];
    [first [discriminate | congruence]|eauto]
  | let j := fresh "j" in
    let e := fresh "e" in
    let Hj := fresh "Hj" in
    cbn; intros j e Hj;
    apply lookup_insert_task in Hj as [[_ Hj]|[_ Hj]];
    [first [discriminate | congruence]|eauto] ].

Lemma step_inv k r n e l l' :
  loop_inv k r n l -> step provider e l = Some l' -> loop_inv k r n l'.
Proof.
  intros [Hlen Hrate Hperm Hdone Hfail] Hstep.
  destruct e as [d|i|i|i]; cbn in Hstep.
  - (* time passes *)
    injection Hstep as <-. split; auto.
  - (* a task takes a permit and runs [_rate_limit] up to its sleep *)
    destruct (tasks l !! i) as [tk|] eqn:Hi; [|discriminate].
    destruct tk; try discriminate.
    destruct (semaphore (self l)) as [|free] eqn:Hsem; [discriminate|].
    destruct (rate_limit (self l) =? 0)%Z eqn:Hzero.
    + apply Z.eqb_eq in Hzero. injection Hstep as <-.
      inv_after_move Hi Hlen Hrate Hperm Hdone Hfail.
    + destruct (Qlt_bool _ _); injection Hstep as <-;
        inv_after_move Hi Hlen Hrate Hperm Hdone Hfail.
  - (* a sleeping task wakes and passes the gate *)
    destruct (tasks l !! i) as [tk|] eqn:Hi; [|discriminate].
    destruct tk; try discriminate.
    destruct (Qle_bool _ _); [|discriminate]. injection Hstep as <-.
    inv_after_move Hi Hlen Hrate Hperm Hdone Hfail.
  - (* the provider call of a task ends *)
    destruct (tasks l !! i) as [tk|] eqn:Hi; [|discriminate].
    destruct tk; try discriminate.
    rewrite search_try_ok in Hstep. injection Hstep as <-.
    inv_after_move Hi Hlen Hrate Hperm Hdone Hfail.
Qed.

Lemma run_inv k r n es : forall l l',
  loop_inv k r n l -> run provider es l = Some l' -> loop_inv k r n l'.
Proof.
  induction es as [|e es IH]; intros l l' Hinv Hrun; cbn in Hrun.
  - injection Hrun as <-. exact Hinv.
  - destruct (step provider e l) as [l1|] eqn:Hstep; [|discriminate].
    eapply IH; [|exact Hrun]. eapply step_inv; eauto.
Qed.

(** The semaphore half of the gate: whatever the schedule, the tasks that
    hold a permit and the free permits add up to [max_concurrent_searches]. *)
Lemma semaphore_bound t0 k r now queries es l :
  run provider es (create_tasks (__init__ t0 k r) now queries) = Some l ->
  running l <= k.
Proof.
  intros Hrun.
  destruct (run_inv k r (length queries) es _ _ (create_tasks_inv t0 k r now queries) Hrun).
  lia.
Qed.

(** [gather] over tasks that all returned: their results, in task order. *)
Lemma gather_all_done ts : forall off,
  (forall i tk, ts !! i = Some tk -> tk = Done (search_results (provider (off + i)))) ->
  gather ts
    = Some (Ok (map (fun i => search_results (provider i)) (seq off (length ts)))).
Proof.
  induction ts as [|tk ts IH]; intros off Hall.
  - reflexivity.
  - rewrite (Hall 0 tk eq_refl). cbn [gather length seq map].
    rewrite (IH (S off)).
    + rewrite Nat.add_0_r. reflexivity.
    + intros i tk' Hi. rewrite (Hall (S i) tk' Hi). f_equal. f_equal. f_equal. lia.
Qed.

Lemma complete_lookup l i tk : complete l -> tasks l !! i = Some tk -> settled tk = true.
Proof.
  unfold complete. intros Hall Hi. rewrite forallb_forall in Hall.
  apply Hall. apply list_elem_of_In. eapply list_elem_of_lookup_2. exact Hi.
Qed.

(** A batch run to completion with a non-zero rate limit returns the
    dictionary of the queries zipped with the results of their own calls. *)
Lemma multi_search_returns t0 k r now queries es l :
  r <> 0%Z ->
  run provider es (create_tasks (__init__ t0 k r) now queries) = Some l ->
  complete l ->
  multi_search queries l
    = Some (Ok (Dict.of_pairs
                  (zip queries (map (fun i => search_results (provider i))
                                    (seq 0 (length queries)))))).
Proof.
  intros Hr Hrun Hcomplete.
  destruct (run_inv k r (length queries) es _ _ (create_tasks_inv t0 k r now queries) Hrun)
    as [Hlen _ _ Hdone Hfailed].
  unfold multi_search. rewrite (gather_all_done (tasks l) 0).
  - rewrite Hlen. reflexivity.
  - intros i tk Hi. pose proof (complete_lookup l i tk Hcomplete Hi) as Hs.
    destruct tk; try discriminate.
    + rewrite (Hdone i results Hi). reflexivity.
    + exfalso. apply Hr. eapply Hfailed. exact Hi.
Qed.

End LoopSpec.

(** ** core.py : every batch can complete *)

Section Liveness.
Import FastWebSearch.
Variable provider : nat -> ProviderOutcome.

(** The microseconds after which a sleep of [duration] seconds is over. *)
Definition sleep_ticks (duration : Q) : N := Z.to_N (Qceiling (duration * 1000000)).

Lemma sleep_is_over (duration : Q) (c : Z) :
  Qle_bool duration (total_seconds (c + Z.of_N (sleep_ticks duration) - c)) = true.
Proof.
  apply Qle_bool_iff. replace (c + Z.of_N (sleep_ticks duration) - c)%Z
    with (Z.of_N (sleep_ticks duration)) by lia.
  unfold total_seconds, sleep_ticks. rewrite Qmake_Qdiv.
  apply Qle_shift_div_l; [reflexivity|].
  eapply Qle_trans; [apply Qle_ceiling|].
  rewrite <- Zle_Qle. change (inject_Z 1000000) with 1000000%Q. lia.
Qed.

Lemma run_app es1 : forall es2 l,
  run provider (es1 ++ es2) l
    = match run provider es1 l with
      | Some l1 => run provider es2 l1
      | None => None
      end.
Proof.
  induction es1 as [|e es1 IH]; intros es2 l; cbn; [reflexivity|].
  destruct (step provider e l); [apply IH|reflexivity].
Qed.

(** The batch served in order: the first [j] of its [n] tasks have
    settled, the others are pending, and every permit is free. *)
Record served (k : nat) (r : Z) (n j : nat) (l : Loop) : Prop := mk_served {
  served_length : length (tasks l) = n;
  served_permits : semaphore (self l) = k;
  served_rate : rate_limit (self l) = r;
  served_before : forall i tk, i < j -> tasks l !! i = Some tk -> settled tk = true;
  served_after : forall i, j <= i -> i < n -> tasks l !! i = Some Pending
}.

(** Once task [j] is searching and holds the only permit taken, it can finish. *)
Lemma finish_next k r n j l :
  length (tasks l) = n -> j < n ->
  semaphore (self l) = k -> rate_limit (self l) = r ->
  tasks l !! j = Some Searching ->
  (forall i tk, i < j -> tasks l !! i = Some tk -> settled tk = true) ->
  (forall i, S j <= i -> i < n -> tasks l !! i = Some Pending) ->
  exists l', step provider (Finish j) l = Some l' /\ served (S k) r n (S j) l'.
Proof.
  intros Hlen Hj Hsem Hrate Htask Hbefore Hafter.
  eexists. split.
  - cbn [step]. rewrite Htask. reflexivity.
  - rewrite search_try_ok. split; cbn.
    + rewrite length_insert. exact Hlen.
    + rewrite Hsem. reflexivity.
    + exact Hrate.
    + intros i tk Hi Hlookup. apply lookup_insert_task in Hlookup as [[_ ->]|[Hne Hlookup]].
      * reflexivity.
      * apply (Hbefore i tk); [lia|exact Hlookup].
    + intros i Hi Hn. rewrite list_lookup_insert_ne by lia. apply Hafter; lia.
Qed.

(** The next pending task can be taken through the gate and to its end. *)
Lemma serve_next k r n j l :
  0 < k -> r <> 0%Z -> served k r n j l -> j < n ->
  exists es l', run provider es l = Some l' /\ served k r n (S j) l'.
Proof.
  intros Hk Hr [Hlen Hsem Hrate Hbefore Hafter] Hj.
  destruct k as [|free]; [lia|].
  pose proof (Hafter j (le_n j) Hj) as Hpending.
  assert (Hstep : exists l1,
             (step provider (Enter j) l = Some l1 \/
              exists d, run provider [Enter j; Tick (sleep_ticks d); Wake j] l = Some l1)
             /\ length (tasks l1) = n /\ semaphore (self l1) = free
             /\ rate_limit (self l1) = r /\ tasks l1 !! j = Some Searching
             /\ (forall i, i <> j -> tasks l1 !! i = tasks l !! i)).
  { cbn [run step]. rewrite Hpending, Hsem.
    destruct (Z.eqb_spec (rate_limit (self l)) 0) as [Hzero|_]; [congruence|].
    destruct (Qlt_bool _ _).
    - eexists. split.
      + right. eexists. cbn [step set_task set_semaphore tasks clock].
        rewrite list_lookup_insert_eq by (rewrite Hlen; exact Hj).
        rewrite sleep_is_over. reflexivity.
      + cbn. rewrite !length_insert. repeat split; auto.
        * rewrite list_lookup_insert_eq; [reflexivity|]. rewrite length_insert, Hlen. exact Hj.
        * intros i Hi. rewrite !list_lookup_insert_ne by auto. reflexivity.
    - eexists. split; [left; reflexivity|].
      cbn. rewrite length_insert. repeat split; auto.
      + apply list_lookup_insert_eq. rewrite Hlen. exact Hj.
      + intros i Hi. rewrite list_lookup_insert_ne by auto. reflexivity. }
  destruct Hstep as (l1 & Hrun1 & Hlen1 & Hsem1 & Hrate1 & Htask1 & Hothers).
  destruct (finish_next free r n j l1 Hlen1 Hj Hsem1 Hrate1 Htask1) as (l' & Hfinish & Hserved).
  { intros i tk Hi. rewrite Hothers by lia. apply Hbefore. exact Hi. }
  { intros i Hi Hn. rewrite Hothers by lia. apply Hafter; lia. }
  destruct Hrun1 as [Henter|[d Hrun]].
  - exists [Enter j; Finish j], l'. split; [|exact Hserved].
    cbn [run]. rewrite Henter, Hfinish. reflexivity.
  - exists ([Enter j; Tick (sleep_ticks d); Wake j] ++ [Finish j])%list, l'.
    split; [|exact Hserved].
    rewrite run_app, Hrun. cbn [run]. rewrite Hfinish. reflexivity.
Qed.

Lemma serve_rest k r n m : forall j l,
  0 < k -> r <> 0%Z -> served k r n j l -> j + m = n ->
  exists es l', run provider es l = Some l' /\ served k r n n l'.
Proof.
  induction m as [|m IH]; intros j l Hk Hr Hserved Hjm.
  - exists [], l. assert (j = n) as -> by lia. split; [reflexivity|exact Hserved].
  - destruct (serve_next k r n j l Hk Hr Hserved) as (es1 & l1 & Hrun1 & Hserved1); [lia|].
    destruct (IH (S j) l1 Hk Hr Hserved1) as (es2 & l' & Hrun2 & Hserved'); [lia|].
    exists (es1 ++ es2)%list, l'. split; [|exact Hserved'].
    rewrite run_app, Hrun1. exact Hrun2.
Qed.

(** Every batch can be run to completion: with a permit to take and a
    non-zero rate limit there is a schedule on which every task settles. *)
Lemma batch_completes t0 k r now queries :
  0 < k -> r <> 0%Z ->
  exists es l,
    run provider es (create_tasks (__init__ t0 k r) now queries) = Some l /\ complete l.
Proof.
  intros Hk Hr.
  destruct (serve_rest k r (length queries) (length queries) 0
              (create_tasks (__init__ t0 k r) now queries) Hk Hr)
    as (es & l & Hrun & [Hlen _ _ Hbefore _]).
  - split; cbn.
    + apply length_map.
    + reflexivity.
    + reflexivity.
    + intros i tk Hi. lia.
    + intros i _ Hi. rewrite list_lookup_fmap.
      destruct (lookup_lt_is_Some_2 queries i Hi) as [q ->]. reflexivity.
  - reflexivity.
  - exists es, l. split; [exact Hrun|]. unfold complete. apply forallb_forall.
    intros tk Htk. apply list_elem_of_In, list_elem_of_lookup in Htk as [i Hi].
    apply (Hbefore i tk); [|exact Hi]. rewrite <- Hlen. eapply lookup_lt_Some. exact Hi.
Qed.

End Liveness.

(** ** core.py : multi_search *)

Section BatchSpec.
Import FastWebSearch.

Lemma map_fst_zip {A B} (l : list A) : forall (k : list B),
  length l <= length k -> map fst (zip l k) = l.
Proof.
  induction l as [|x l IH]; intros [|y k] Hlen; cbn in *; try lia; auto.
  f_equal. apply IH. lia.
Qed.

Lemma lookup_zip_seq {B} (f : nat -> B) (queries : list string) : forall off i q,
  queries !! i = Some q ->
  zip queries (map f (seq off (length queries))) !! i = Some (q, f (off + i)).
Proof.
  induction queries as [|q0 qs IH]; intros off i q Hi.
  - rewrite lookup_nil in Hi. discriminate.
  - destruct i as [|i]; cbn in Hi.
    + injection Hi as ->. rewrite Nat.add_0_r. reflexivity.
    + change (zip qs (map f (seq (S off) (length qs))) !! i = Some (q, f (off + S i))).
      rewrite (IH (S off) i q Hi). replace (off + S i) with (S off + i) by lia. reflexivity.
Qed.

Lemma zip_last_occurrence {B} (f : nat -> B) (queries : list string) i q :
  (forall j, i < j -> queries !! j <> Some q) ->
  forall j v', i < j -> zip queries (map f (seq 0 (length queries))) !! j <> Some (q, v').
Proof.
  intros Hlast j v' Hj Hz. apply (Hlast j Hj).
  unfold zip in Hz. apply lookup_zip_with_Some in Hz as (x & y & [= <- <-] & Hx & _).
  exact Hx.
Qed.

(** C6.  With a permit to take and a non-zero rate limit a batch can be
    run to completion, and however it is: it returns a dictionary, never an
    exception; the entry of a query is the result list of its own provider
    call, empty when that call raised.  So two batches whose providers
    agree on that one call agree on the entry, whatever the other calls
    returned or raised and whatever the schedule. *)
Theorem provider_errors_isolated (provider provider' : nat -> ProviderOutcome)
    (t0 : Z) (k : nat) (r now : Z) (queries : list string) (i : nat) (q : string) :
  0 < k ->
  r <> 0%Z ->
  queries !! i = Some q ->
  (forall j, i < j -> queries !! j <> Some q) ->
  provider i = provider' i ->
  (exists es l,
     run provider es (create_tasks (__init__ t0 k r) now queries) = Some l /\ complete l)
  /\ forall es es' l l',
       run provider es (create_tasks (__init__ t0 k r) now queries) = Some l ->
       complete l ->
       run provider' es' (create_tasks (__init__ t0 k r) now queries) = Some l' ->
       complete l' ->
       exists d d',
         multi_search queries l = Some (Ok d)
         /\ multi_search queries l' = Some (Ok d')
         /\ Dict.get q d = Some (match provider i with
                                 | Returned results => results
                                 | ProviderRaised _ => []
                                 end)
         /\ Dict.get q d' = Dict.get q d.
Proof.
  intros Hk Hr Hi Hlast Hagree. split.
  { apply batch_completes; assumption. }
  intros es es' l l' Hrun Hc Hrun' Hc'.
  pose proof (multi_search_returns provider t0 k r now queries es l Hr Hrun Hc) as Hd.
  pose proof (multi_search_returns provider' t0 k r now queries es' l' Hr Hrun' Hc') as Hd'.
  eexists. eexists. split; [exact Hd|]. split; [exact Hd'|].
  assert (Hget : forall p, Dict.get q (Dict.of_pairs (zip queries
                   (map (fun i => search_results (p i)) (seq 0 (length queries)))))
                 = Some (search_results (p i))).
  { intros p. apply (get_of_pairs_last _ i).
    - apply (lookup_zip_seq (fun i => search_results (p i)) queries 0 i q Hi).
    - apply zip_last_occurrence. exact Hlast. }
  rewrite !Hget, <- Hagree. split; reflexivity.
Qed.

(** The claim that among duplicate queries the call that finishes last
    provides the entry. *)
Definition last_finisher (queries : list string) (q : string) (finished : list nat)
    : option nat :=
  head (filter (fun i => queries !! i = Some q) finished).

Definition last_to_finish_wins (provider : nat -> ProviderOutcome)
    (queries : list string) (l : Loop) : Prop :=
  forall d q i,
    multi_search queries l = Some (Ok d) ->
    last_finisher queries q (finished l) = Some i ->
    Dict.get q d = Some (search_results (provider i)).

(** C5 (as amended).  With a permit to take and a non-zero rate limit a
    batch can be run to completion, and however it is, the dictionary it
    returns has every input query as a key, once, and nothing else; under
    a query stands the result of the call made for its last occurrence in
    the input list, whatever the order in which the calls finish. *)
Theorem multi_search_keys (provider : nat -> ProviderOutcome)
    (t0 : Z) (k : nat) (r now : Z) (queries : list string) :
  0 < k ->
  r <> 0%Z ->
  (exists es l,
     run provider es (create_tasks (__init__ t0 k r) now queries) = Some l /\ complete l)
  /\ forall es l,
       run provider es (create_tasks (__init__ t0 k r) now queries) = Some l ->
       complete l ->
       exists d,
         multi_search queries l = Some (Ok d)
         /\ NoDup (Dict.keys d)
         /\ (forall q, q ∈ Dict.keys d <-> q ∈ queries)
         /\ (forall i q, queries !! i = Some q ->
                         (forall j, i < j -> queries !! j <> Some q) ->
                         Dict.get q d = Some (search_results (provider i))).
Proof.
  intros Hk Hr. split.
  { apply batch_completes; assumption. }
  intros es l Hrun Hc. eexists. split.
  { exact (multi_search_returns provider t0 k r now queries es l Hr Hrun Hc). }
  split; [apply keys_of_pairs_NoDup|]. split.
  - intros q. rewrite keys_of_pairs, map_fst_zip; [reflexivity|].
    rewrite length_map, length_seq. lia.
  - intros i q Hi Hlast. apply (get_of_pairs_last _ i).
    + apply (lookup_zip_seq (fun i => search_results (provider i)) queries 0 i q Hi).
    + apply zip_last_occurrence. exact Hlast.
Qed.

End BatchSpec.

(** *** Concrete batches *)

Definition result_of (name : string) : SearchResult.t :=
  SearchResult.mk name ("https://example.org/" ++ name) "" 0 "brave" None.

(** The default configuration of [test.py]: 5 permits, 10 requests per second,
    built at instant 0. *)
Definition default_fws : FastWebSearch.t := FastWebSearch.__init__ 0 5 10.

(** Both tasks enter the semaphore at once, sleep the same tenth of a
    second, and wake one after the other, three microseconds apart. *)
Definition two_wake_schedule : list FastWebSearch.Event :=
  [FastWebSearch.Enter 0; FastWebSearch.Enter 1; FastWebSearch.Tick 100000;
   FastWebSearch.Wake 0; FastWebSearch.Tick 3; FastWebSearch.Wake 1].

(** C3.  [_rate_limit] reads [last_request_time], sleeps, and only then
    stores the new time: two tasks that entered together both sleep until
    the same instant and pass the gate 3 microseconds apart, where
    [rate_limit = 10] asks for 100000.  (The semaphore half of the claim
    holds on every schedule: [semaphore_bound].) *)
Theorem rate_limit_race :
  exists l,
    FastWebSearch.run (fun _ => FastWebSearch.Returned []) two_wake_schedule
      (FastWebSearch.create_tasks default_fws 0 ["a"; "b"]) = Some l
    /\ FastWebSearch.admissions l = [100003; 100000]%Z
    /\ FastWebSearch.spaced 10 (FastWebSearch.admissions l) = false
    /\ FastWebSearch.running l = 2.
Proof.
  eexists. split.
  - vm_compute. reflexivity.
  - cbn [FastWebSearch.admissions]. split; [reflexivity|].
    split; vm_compute; reflexivity.
Qed.

(** Two calls for the same query: the first returns [first], the second
    [second]; the second finishes before the first. *)
Definition duplicate_provider (i : nat) : FastWebSearch.ProviderOutcome :=
  match i with
  | O => FastWebSearch.Returned [result_of "first"]
  | _ => FastWebSearch.Returned [result_of "second"]
  end.

Definition first_finishes_last : list FastWebSearch.Event :=
  (two_wake_schedule ++ [FastWebSearch.Finish 1; FastWebSearch.Finish 0])%list.

(** C5, the claim as worded fails: the first call finishes last, yet the
    key holds the result of the second, the last in the input list. *)
Lemma last_to_finish_does_not_win :
  exists l,
    FastWebSearch.run duplicate_provider first_finishes_last
      (FastWebSearch.create_tasks default_fws 0 ["a"; "a"]) = Some l
    /\ FastWebSearch.finished l = [0; 1]
    /\ FastWebSearch.multi_search ["a"; "a"] l = Some (Ok [("a", [result_of "second"])])
    /\ ~ last_to_finish_wins duplicate_provider ["a"; "a"] l.
Proof.
  eexists. split; [vm_compute; reflexivity|].
  split; [reflexivity|]. split; [reflexivity|].
  intros Hclaim.
  specialize (Hclaim [("a", [result_of "second"])] "a" 0 eq_refl eq_refl).
  vm_compute in Hclaim. discriminate Hclaim.
Qed.

Definition after_duplicates : FastWebSearch.Loop :=
  default (FastWebSearch.create_tasks default_fws 0 ["a"; "a"])
    (FastWebSearch.run duplicate_provider first_finishes_last
       (FastWebSearch.create_tasks default_fws 0 ["a"; "a"])).

(** C5 (as amended) on the batch of the two duplicate queries. *)
Lemma multi_search_keys_witness :
  exists d,
    FastWebSearch.multi_search ["a"; "a"] after_duplicates = Some (Ok d)
    /\ NoDup (Dict.keys d)
    /\ (forall q, q ∈ Dict.keys d <-> q ∈ ["a"; "a"])
    /\ (forall i q, ["a"; "a"] !! i = Some q ->
                    (forall j, i < j -> ["a"; "a"] !! j <> Some q) ->
                    Dict.get q d = Some (search_results (duplicate_provider i))).
Proof.
  destruct (multi_search_keys duplicate_provider 0 5 10 0 ["a"; "a"]) as [_ Hall].
  - lia.
  - discriminate.
  - apply (Hall first_finishes_last after_duplicates).
    + vm_compute. reflexivity.
    + vm_compute. reflexivity.
Defined.

(** The provider raises for ["a"] and returns for ["b"]. *)
Definition a_fails (i : nat) : FastWebSearch.ProviderOutcome :=
  match i with
  | O => FastWebSearch.ProviderRaised (ClientError "Failed to search with Brave: 500")
  | _ => FastWebSearch.Returned [result_of "b"]
  end.

Definition a_returns (i : nat) : FastWebSearch.ProviderOutcome :=
  match i with
  | O => FastWebSearch.Returned [result_of "a"]
  | _ => FastWebSearch.Returned [result_of "b"]
  end.

Definition in_order : list FastWebSearch.Event :=
  (two_wake_schedule ++ [FastWebSearch.Finish 0; FastWebSearch.Finish 1])%list.

Definition batch_of (provider : nat -> FastWebSearch.ProviderOutcome)
    (es : list FastWebSearch.Event) : FastWebSearch.Loop :=
  default (FastWebSearch.create_tasks default_fws 0 ["a"; "b"])
    (FastWebSearch.run provider es (FastWebSearch.create_tasks default_fws 0 ["a"; "b"])).

(** C6 on the batch ["a"; "b"]: the entry of ["b"] is the same whether the
    call for ["a"] raises or returns, and the entry of ["a"] is empty when
    its call raised. *)
Lemma provider_errors_isolated_witness :
  exists d d',
    FastWebSearch.multi_search ["a"; "b"] (batch_of a_fails in_order) = Some (Ok d)
    /\ FastWebSearch.multi_search ["a"; "b"] (batch_of a_returns first_finishes_last)
       = Some (Ok d')
    /\ Dict.get "a" d = Some []
    /\ Dict.get "b" d = Some [result_of "b"]
    /\ Dict.get "b" d' = Dict.get "b" d.
Proof.
  destruct (provider_errors_isolated a_fails a_returns 0 5 10 0 ["a"; "b"] 1 "b")
    as [_ Hall]; try reflexivity; try lia; try discriminate.
  { intros j Hj. destruct j as [|[|j]]; try lia; discriminate. }
  destruct (Hall in_order first_finishes_last
              (batch_of a_fails in_order) (batch_of a_returns first_finishes_last))
    as (d & d' & Hd & Hd' & Hb & Hsame); try (vm_compute; reflexivity).
  exists d, d'. split; [exact Hd|]. split; [exact Hd'|].
  split; [|split; assumption].
  vm_compute in Hd. injection Hd as <-. reflexivity.
Defined.

(** ** Rational comparisons *)

Lemma Qlt_bool_iff (a b : Q) : Qlt_bool a b = true <-> (a < b)%Q.
Proof.
  unfold Qlt_bool. rewrite negb_true_iff, <- not_true_iff_false, Qle_bool_iff.
  split; [apply Qnot_le_lt|apply Qlt_not_le].
Qed.

(** ** proxies.py : the ranking *)

Section RankingSpec.
Import ProxyManager.
Context {A : Type}.
Implicit Types (x y : (Q * Q) * A) (l : list ((Q * Q) * A)).





Lemma insert_desc_perm x l : insert_desc x l ≡ₚ x :: l.
Proof.
  induction l as [|y l IH]; cbn; [reflexivity|].
  destruct (key_lt (fst x) (fst y)); [|reflexivity].
  rewrite IH. apply Permutation_swap.
Qed.

Lemma sorted_desc_perm l : sorted_desc l ≡ₚ l.
Proof.
  induction l as [|x l IH]; cbn; [reflexivity|].
  unfold sorted_desc in IH. rewrite insert_desc_perm, IH. reflexivity.
Qed.



(** [x] has key [k]: neither is below the other. *)
Definition tied (k : Q * Q) x : Prop :=
  key_lt (fst x) k = false /\ key_lt k (fst x) = false.

#[global] Instance tied_dec k x : Decision (tied k x).
Proof. unfold tied. apply _. Defined.



End RankingSpec.

(** ** proxies.py : the statistics dictionary *)

Section ManagerSpec.
Import Scraper ProxyManager.
Variable tp_hash : option (Proxy.t -> Z).
Variable clock : nat -> Z.
Variable probe : nat -> Response.

Implicit Types (s : State) (p q : ref) (st : Stats).

(** [p] is registered: [self.proxy_stats[p]] finds entry [i] holding [st]. *)
Definition registered s p (i : nat) st : Prop :=
  getitem tp_hash p s = (Ok (i, st), s).


Lemma getitem_state p s : snd (getitem tp_hash p s) = s.
Proof.
  unfold getitem, bind, hash. destruct tp_hash as [f|]; [|reflexivity].
  destruct (find_entry _ _ _ _) as [i|]; [|reflexivity].
  destruct (_ !! i); reflexivity.
Qed.

Lemma registered_inv s p i st :
  registered s p i st ->
  exists f e,
    tp_hash = Some f
    /\ find_entry (heap s) (f (heap s p)) p (proxy_stats (self s)) = Some i
    /\ proxy_stats (self s) !! i = Some e
    /\ entry_value e = st.
Proof.
  unfold registered, getitem, bind, hash. destruct tp_hash as [f|]; [|discriminate].
  destruct (find_entry _ _ _ _) as [j|] eqn:Hfind; [|discriminate].
  destruct (_ !! j) as [e|] eqn:He; [|discriminate].
  intros [= -> <-]. eauto 10.
Qed.

Lemma find_entry_shape h hk k (d d' : list Entry) :
  map (fun e => (entry_hash e, entry_key e)) d
    = map (fun e => (entry_hash e, entry_key e)) d' ->
  find_entry h hk k d = find_entry h hk k d'.
Proof.
  revert d'. induction d as [|e d IH]; intros [|e' d'] Hmap; try discriminate; auto.
  cbn in Hmap. injection Hmap as Hh Hk Hrest. cbn. rewrite Hh, Hk, (IH d' Hrest).
  reflexivity.
Qed.

Lemma shape_alter (d : list Entry) i v :
  map (fun e => (entry_hash e, entry_key e)) (alter (set_value v) i d)
    = map (fun e => (entry_hash e, entry_key e)) d.
Proof.
  revert i. induction d as [|e d IH]; intros [|i]; cbn; auto.
  f_equal. apply IH.
Qed.

(** A store into one statistics dictionary leaves every lookup in place. *)
Lemma registered_after_put s p i st j v :
  registered s p i st ->
  registered (with_stats s (alter (set_value v) j (proxy_stats (self s)))) p i
    (if decide (j = i) then v else st).
Proof.
  intros Hreg. destruct (registered_inv _ _ _ _ Hreg) as (f & e & Hf & Hfind & He & Hv).
  unfold registered, getitem, bind, hash. rewrite Hf. cbn.
  rewrite (find_entry_shape _ _ _ _ (proxy_stats (self s))) by apply shape_alter.
  rewrite Hfind.
  destruct (decide (j = i)) as [->|Hne].
  - rewrite list_lookup_alter_eq, He. reflexivity.
  - rewrite list_lookup_alter_ne, He, Hv by exact Hne. reflexivity.
Qed.

(** *** mark_proxy_failed *)

(** The statistics after one more failure. *)
Definition one_more_failure st : Stats :=
  mkStats (success_count st) (S (fail_count st)) (avg_response_time st)
          (last_used st) (last_verified st).

(** [success / (success + fail)] *)
Definition success_ratio st : Q :=
  (inject_Z (Z.of_nat (success_count st))
   / inject_Z (Z.of_nat (success_count st + fail_count st)))%Q.

Lemma truediv_ok (a b : nat) :
  b <> 0 ->
  truediv a b = Ok (inject_Z (Z.of_nat a) / inject_Z (Z.of_nat b))%Q.
Proof. destruct b; [congruence|reflexivity]. Qed.

(** The ratio of two counters is below one half when twice the first is
    below the second. *)
Lemma ratio_below_half (a b : nat) :
  b <> 0 ->
  (inject_Z (Z.of_nat a) / inject_Z (Z.of_nat b) < 1 # 2)%Q <-> 2 * a < b.
Proof.
  intros Hb. destruct b as [|b]; [congruence|].
  unfold Qlt, Qdiv, Qmult, Qinv, inject_Z.
  change (Z.of_nat (S b)) with (Z.pos (Pos.of_succ_nat b)).
  cbn [Qnum Qden]. lia.
Qed.

(** The working set and statistics [mark_proxy_failed] leaves, as one
    expression. *)
Lemma mark_proxy_failed_eq s p i st :
  registered s p i st ->
  mark_proxy_failed tp_hash p s
    = let s1 := with_stats s (alter (set_value (one_more_failure st)) i
                                    (proxy_stats (self s))) in
      if Qlt_bool (success_ratio (one_more_failure st)) (1 # 2) then
        match remove_first (heap s) p (working_proxies (self s)) with
        | Some ws => (Ok tt, with_working s1 ws)
        | None => (Raise ValueError, s1)
        end
      else (Ok tt, s1).
Proof.
  intros Hreg. unfold mark_proxy_failed, bind at 1. rewrite Hreg. cbn [fst snd].
  unfold bind at 1. unfold put_stats, modify. unfold bind at 1, lift.
  fold (one_more_failure st). rewrite truediv_ok by (cbn; lia).
  fold (success_ratio (one_more_failure st)).
  destruct (Qlt_bool _ _); reflexivity.
Qed.

(** [p] is in [ws], and no other item of [ws] is equal to it. *)
Definition occurs_once (h : ref -> Proxy.t) (ws : list ref) p : Prop :=
  filter (fun y => same h y p = true) ws = [p].

Lemma contains_false_filter h (ws : list ref) p :
  contains h ws p = false <-> filter (fun y => same h y p = true) ws = [].
Proof.
  unfold contains. induction ws as [|y ws IH]; [cbn; tauto|].
  cbn [existsb]. rewrite filter_cons. destruct (same h y p) eqn:E; cbn [orb].
  - rewrite decide_True by reflexivity. split; discriminate.
  - rewrite decide_False by discriminate. exact IH.
Qed.

Lemma remove_first_sublist h p (ws : list ref) : forall ws',
  remove_first h p ws = Some ws' -> sublist ws' ws.
Proof.
  induction ws as [|y ws IH]; intros ws' H; cbn in H; [discriminate|].
  destruct (same h y p).
  - injection H as <-. apply sublist_cons. reflexivity.
  - destruct (remove_first h p ws) as [ws1|]; [|discriminate].
    injection H as <-. apply sublist_skip. apply IH. reflexivity.
Qed.

Lemma remove_first_once h p (ws : list ref) :
  occurs_once h ws p ->
  exists ws', remove_first h p ws = Some ws' /\ contains h ws' p = false.
Proof.
  unfold occurs_once. induction ws as [|y ws IH]; [discriminate|].
  cbn [remove_first]. rewrite filter_cons. destruct (same h y p) eqn:E.
  - rewrite decide_True by reflexivity. intros [= _ Hrest].
    exists ws. split; [reflexivity|]. apply contains_false_filter. exact Hrest.
  - rewrite decide_False by discriminate. intros Hrest.
    destruct (IH Hrest) as (ws' & -> & Hnot). exists (y :: ws'). split; [reflexivity|].
    cbn. rewrite E. exact Hnot.
Qed.

Lemma occurs_once_contains h p (ws : list ref) :
  occurs_once h ws p -> contains h ws p = true.
Proof.
  intros Honce. destruct (contains h ws p) eqn:E; [reflexivity|].
  apply contains_false_filter in E. unfold occurs_once in Honce. congruence.
Qed.

(** *** The working set only shrinks *)

(** [c] leaves, returning or raising, a working set that is a sublist of
    the one it started from. *)
Definition shrinks {A} (c : M State A) : Prop :=
  forall s, sublist (working_proxies (self (snd (c s)))) (working_proxies (self s)).

Lemma shrinks_ret {A} (a : A) : shrinks (ret a).
Proof. intros s. reflexivity. Qed.

Lemma shrinks_raise {A} e : shrinks (@raise State A e).
Proof. intros s. reflexivity. Qed.

Lemma shrinks_lift {A} (r : Res A) : shrinks (lift r).
Proof. intros s. reflexivity. Qed.

Lemma shrinks_gets {A} (f : State -> A) : shrinks (gets f).
Proof. intros s. reflexivity. Qed.

Lemma shrinks_modify (f : State -> State) :
  (forall s, sublist (working_proxies (self (f s))) (working_proxies (self s))) ->
  shrinks (modify f).
Proof. intros Hf s. apply Hf. Qed.

Lemma shrinks_bind {A B} (c : M State A) (k : A -> M State B) :
  shrinks c -> (forall a, shrinks (k a)) -> shrinks (bind c k).
Proof.
  intros Hc Hk s. unfold bind. specialize (Hc s).
  destruct (c s) as [[a|e] s1]; cbn in Hc |- *; [|exact Hc].
  etransitivity; [apply Hk|exact Hc].
Qed.

Lemma shrinks_try {A} (c : M State A) (h : exn -> M State A) :
  shrinks c -> (forall e, shrinks (h e)) -> shrinks (try_except c h).
Proof.
  intros Hc Hh s. unfold try_except. specialize (Hc s).
  destruct (c s) as [[a|e] s1]; cbn in Hc |- *; [exact Hc|].
  etransitivity; [apply Hh|exact Hc].
Qed.

Lemma shrinks_catch {A} (c : M State A) : shrinks c -> shrinks (catch c).
Proof.
  intros Hc s. unfold catch. specialize (Hc s). destruct (c s) as [r s1]. exact Hc.
Qed.

Ltac shrinks_step :=
  first
    [ apply shrinks_ret | apply shrinks_raise | apply shrinks_lift | apply shrinks_gets
    | apply shrinks_bind; [|intros ?]
    | apply shrinks_try; [|intros ?]
    | apply shrinks_catch
    | apply shrinks_modify; intros ?; reflexivity ].

Lemma shrinks_getitem p : shrinks (getitem tp_hash p).
Proof. intros s. rewrite getitem_state. reflexivity. Qed.

Lemma shrinks_now : shrinks (now clock).
Proof. intros s. reflexivity. Qed.

Lemma shrinks_session_get p u : shrinks (session_get probe p u).
Proof. intros s. unfold session_get. destruct (probe _); reflexivity. Qed.

Lemma shrinks_put_stats i v : shrinks (put_stats i v).
Proof. unfold put_stats. shrinks_step. Qed.

Lemma shrinks_set_last_used p t : shrinks (set_last_used p t).
Proof. unfold set_last_used. shrinks_step. Qed.

Lemma shrinks_verify_proxy p : shrinks (verify_proxy tp_hash clock probe p).
Proof.
  unfold verify_proxy.
  repeat first
    [ apply shrinks_getitem | apply shrinks_now | apply shrinks_session_get
    | apply shrinks_put_stats | shrinks_step
    | match goal with |- shrinks (if ?b then _ else _) => destruct b end
    | match goal with |- shrinks (match ?o with Some _ => _ | None => _ end) =>
        destruct o end ].
Qed.

Lemma shrinks_try_best cs : shrinks (try_best tp_hash clock probe cs).
Proof.
  induction cs as [|p cs IH]; cbn [try_best]; [apply shrinks_ret|].
  apply shrinks_bind; [apply shrinks_verify_proxy|]. intros [|]; [|exact IH].
  repeat first [apply shrinks_now | apply shrinks_set_last_used | shrinks_step].
Qed.

Lemma shrinks_gather_verify ps : shrinks (gather_verify tp_hash clock probe ps).
Proof.
  induction ps as [|p ps IH]; cbn [gather_verify]; [apply shrinks_ret|].
  apply shrinks_bind; [apply shrinks_catch, shrinks_verify_proxy|]. intros r.
  apply shrinks_bind; [exact IH|]. intros rs. apply shrinks_ret.
Qed.

Lemma shrinks_keyed ps : shrinks (keyed tp_hash ps).
Proof.
  induction ps as [|p ps IH]; cbn [keyed]; [apply shrinks_ret|].
  unfold sort_key.
  repeat first [apply shrinks_getitem | exact IH | shrinks_step].
Qed.

Lemma verified_sublist (ws : list ref) : forall results, sublist (verified ws results) ws.
Proof.
  unfold verified. induction ws as [|p ws IH]; intros [|r results];
    try apply sublist_nil_l.
  change (zip (p :: ws) (r :: results)) with ((p, r) :: zip ws results).
  rewrite filter_cons. cbn [snd]. case_decide.
  - cbn [map fst]. apply sublist_skip. apply IH.
  - apply sublist_cons. apply IH.
Qed.

Lemma shrinks_get_proxy : shrinks (get_proxy tp_hash clock probe).
Proof.
  unfold get_proxy. apply shrinks_bind; [apply shrinks_gets|]. intros [|w ws].
  { apply shrinks_ret. }
  apply shrinks_bind; [apply shrinks_keyed|]. intros ks.
  apply shrinks_bind; [apply shrinks_try_best|]. intros [p|]; [apply shrinks_ret|].
  apply shrinks_bind; [apply shrinks_gets|]. intros ws1.
  apply shrinks_bind; [apply shrinks_gather_verify|]. intros results.
  intros s. unfold bind at 1, gets. unfold bind at 1, modify. unfold bind at 1, gets.
  cbn [self working_proxies with_working with_self].
  pose proof (verified_sublist (working_proxies (self s)) results) as Hsub.
  destruct (verified _ results) as [|p kept]; cbn; exact Hsub.
Qed.

Lemma shrinks_mark_proxy_failed p : shrinks (mark_proxy_failed tp_hash p).
Proof.
  unfold mark_proxy_failed.
  apply shrinks_bind; [apply shrinks_getitem|]. intros e.
  apply shrinks_bind; [apply shrinks_put_stats|]. intros _.
  apply shrinks_bind; [apply shrinks_lift|]. intros ratio.
  destruct (Qlt_bool ratio (1 # 2)); [|apply shrinks_ret].
  intros s. destruct (remove_first _ _ _) as [ws|] eqn:Hrm; cbn; [|reflexivity].
  eapply remove_first_sublist. exact Hrm.
Qed.

Lemma shrinks_mark_proxy_success p : shrinks (mark_proxy_success tp_hash p).
Proof.
  unfold mark_proxy_success.
  apply shrinks_bind; [apply shrinks_getitem|]. intros e. apply shrinks_put_stats.
Qed.

(** The calls a client makes on a manager. *)
Inductive Call : Type :=
| VerifyProxy (p : ref)
| GetProxy
| MarkProxyFailed (p : ref)
| MarkProxySuccess (p : ref).

Definition perform (s : State) (c : Call) : State :=
  match c with
  | VerifyProxy p => snd (verify_proxy tp_hash clock probe p s)
  | GetProxy => snd (get_proxy tp_hash clock probe s)
  | MarkProxyFailed p => snd (mark_proxy_failed tp_hash p s)
  | MarkProxySuccess p => snd (mark_proxy_success tp_hash p s)
  end.

(** No call puts a proxy back into the working set. *)
Lemma no_readmission (calls : list Call) : forall s p,
  p ∉ working_proxies (self s) ->
  p ∉ working_proxies (self (fold_left perform calls s)).
Proof.
  induction calls as [|c calls IH]; intros s p Hout; cbn [fold_left]; [exact Hout|].
  apply IH. intros Hin. apply Hout.
  assert (Hsub : sublist (working_proxies (self (perform s c))) (working_proxies (self s))).
  { destruct c; cbn [perform].
    - apply shrinks_verify_proxy.
    - apply shrinks_get_proxy.
    - apply shrinks_mark_proxy_failed.
    - apply shrinks_mark_proxy_success. }
  eapply sublist_subseteq; eauto.
Qed.

(** A lookup reads the heap and the dictionary, nothing else. *)
Lemma registered_ext s s' p i st :
  heap s' = heap s ->
  proxy_stats (self s') = proxy_stats (self s) ->
  registered s p i st -> registered s' p i st.
Proof.
  intros Hheap Hstats Hreg.
  destruct (registered_inv _ _ _ _ Hreg) as (f & e & Hf & Hfind & He & Hv).
  unfold registered, getitem, bind, hash. rewrite Hf, Hheap, Hstats, Hfind, He, Hv.
  reflexivity.
Qed.

(** C4 (as amended).  For a registered proxy that the working set holds
    once, [mark_proxy_failed] returns, adds one to [fail_count], and then
    the proxy is out of the working set exactly when
    [success / (success + fail) < 0.5] with the new count -- so a proxy
    with no recorded success is removed by its first failure; and no later
    call brings a removed proxy back. *)
Theorem mark_proxy_failed_evicts s p i st :
  registered s p i st ->
  occurs_once (heap s) (working_proxies (self s)) p ->
  exists s',
    mark_proxy_failed tp_hash p s = (Ok tt, s')
    /\ registered s' p i (one_more_failure st)
    /\ (contains (heap s') (working_proxies (self s')) p = false
        <-> (success_ratio (one_more_failure st) < 1 # 2)%Q)
    /\ (success_count st = 0 ->
        contains (heap s') (working_proxies (self s')) p = false)
    /\ (forall calls,
          p ∉ working_proxies (self s') ->
          p ∉ working_proxies (self (fold_left perform calls s'))).
Proof.
  intros Hreg Honce.
  pose proof (registered_after_put s p i st i (one_more_failure st) Hreg) as Hreg'.
  rewrite decide_True in Hreg' by reflexivity.
  assert (Hzero : success_count st = 0 ->
                  Qlt_bool (success_ratio (one_more_failure st)) (1 # 2) = true).
  { intros H0. apply Qlt_bool_iff. unfold success_ratio.
    apply ratio_below_half; cbn; lia. }
  rewrite (mark_proxy_failed_eq s p i st Hreg). cbn zeta.
  destruct (Qlt_bool (success_ratio (one_more_failure st)) (1 # 2)) eqn:Hlow.
  - destruct (remove_first_once _ _ _ Honce) as (ws' & -> & Hgone).
    eexists. split; [reflexivity|]. split.
    { eapply registered_ext; [| |exact Hreg']; reflexivity. }
    split; [|split].
    + cbn. split; [intros _; apply Qlt_bool_iff; exact Hlow|intros _; exact Hgone].
    + intros _. exact Hgone.
    + intros calls. apply no_readmission.
  - eexists. split; [reflexivity|]. split; [exact Hreg'|]. split; [|split].
    + cbn [heap self working_proxies with_stats with_self].
      rewrite (occurs_once_contains _ _ _ Honce). split; [discriminate|].
      intros Hlt. apply Qlt_bool_iff in Hlt. congruence.
    + intros H0. specialize (Hzero H0). congruence.
    + intros calls. apply no_readmission.
Qed.

(** The claim as the specification words it: after [mark_proxy_failed] a
    registered proxy is out of the working set exactly when its ratio is
    below one half, and a proxy is removed only once it has recorded a
    success besides the new failure. *)
Definition eviction_claim s p : Prop :=
  forall i st,
    registered s p i st ->
    let s' := snd (mark_proxy_failed tp_hash p s) in
    registered s' p i (one_more_failure st)
    /\ (contains (heap s') (working_proxies (self s')) p = false
        <-> (success_ratio (one_more_failure st) < 1 # 2)%Q)
    /\ (contains (heap s) (working_proxies (self s)) p = true ->
        contains (heap s') (working_proxies (self s')) p = false ->
        1 <= success_count st).

(** *** verify_proxy *)

(** The fall-through path: the response came, with a status other than
    200.  Nothing but the clock and the log of probes has moved. *)
Lemma verify_proxy_other_status s p (status : Z) (text : string) :
  probe (length (probes s)) = Responded status text ->
  status <> 200%Z ->
  verify_proxy tp_hash clock probe p s
    = (Ok false, mkState (heap s) (self s) (p :: probes s) (S (clock_reads s))).
Proof.
  intros Hprobe Hstatus. unfold verify_proxy, bind at 1, gets.
  unfold bind at 1. unfold try_except, bind at 1, now. unfold bind at 1, session_get.
  cbn [probes]. rewrite Hprobe.
  destruct (Z.eqb_spec status 200) as [->|_]; [contradiction|]. reflexivity.
Qed.

(** C8.  A probe answered with a status other than 200 makes
    [verify_proxy] return [False] without raising, and leaves the
    statistics of every proxy as they were: [fail_count] is not
    incremented on this path. *)
Theorem verify_proxy_non_200 s p (status : Z) (text : string) :
  probe (length (probes s)) = Responded status text ->
  status <> 200%Z ->
  exists s',
    verify_proxy tp_hash clock probe p s = (Ok false, s')
    /\ proxy_stats (self s') = proxy_stats (self s)
    /\ working_proxies (self s') = working_proxies (self s)
    /\ probes s' = p :: probes s.
Proof.
  intros Hprobe Hstatus.
  rewrite (verify_proxy_other_status s p status text Hprobe Hstatus).
  eexists. split; [reflexivity|]. cbn. auto.
Qed.

(** *** verify_proxy on a registered proxy *)

(** The probe succeeded: a response of status 200. *)
Definition probe_ok (r : Response) : bool :=
  match r with
  | Responded status _ => (status =? 200)%Z
  | TransportRaised _ => false
  end.










(** *** get_proxy *)








Lemma ranked_in_working (ks : list ((Q * Q) * ref)) p :
  p ∈ take 3 (map snd (sorted_desc ks)) -> p ∈ map snd ks.
Proof.
  intros Hp. apply subseteq_take in Hp.
  rewrite <- (Permutation_map snd (sorted_desc_perm ks)). exact Hp.
Qed.












End ManagerSpec.

(** *** Concrete managers *)

Definition proxy_a : Proxy.t := Proxy.mk "10.0.0.1" 8080 "http" None None None 0.
Definition proxy_b : Proxy.t := Proxy.mk "10.0.0.2" 3128 "http" None None None 0.

(** A heap with [proxy_a] at address 0 and [proxy_b] everywhere else. *)
Definition two_proxies (r : ProxyManager.ref) : Proxy.t :=
  match r with
  | O => proxy_a
  | _ => proxy_b
  end.

(** The hash a subclass that restores hashing would define: a function of
    the identity [(host, port, protocol)] alone. *)
Definition identity_hash : option (Proxy.t -> Z) :=
  Some (fun p => (Z.of_nat (String.length (Proxy.host p)) + Proxy.port p
                  + Z.of_nat (String.length (Proxy.protocol p)))%Z).

Definition millisecond_clock (n : nat) : Z := (Z.of_nat n * 1000)%Z.

(** C1.  The dataclass as declared is not hashable and is not compared by
    identity: building a manager over any non-empty list of proxies raises
    [TypeError] at the first [self.proxy_stats[proxy] = ...], so does every
    lookup [self.proxy_stats[proxy]] on any manager, and two proxies of the
    same [(host, port, protocol)] that differ in [last_used] are unequal. *)
Theorem proxy_dataclass_unhashable :
  (forall h p ps timeout,
     fst (ProxyManager.__init__ Proxy.__hash__ h (p :: ps) timeout)
       = Raise (TypeError "unhashable type: 'Proxy'"))
  /\ (forall s p,
        fst (ProxyManager.getitem Proxy.__hash__ p s)
          = Raise (TypeError "unhashable type: 'Proxy'"))
  /\ Proxy.identity proxy_a = Proxy.identity (Proxy.set_last_used proxy_a 5)
  /\ Proxy.__eq__ proxy_a (Proxy.set_last_used proxy_a 5) = false.
Proof.
  split; [|split].
  - intros h p ps timeout. unfold ProxyManager.__init__.
    cbn [ProxyManager.init_stats]. unfold bind at 1, ProxyManager.setitem, bind at 1.
    unfold ProxyManager.hash, Proxy.__hash__. reflexivity.
  - intros s p. unfold ProxyManager.getitem, bind, ProxyManager.hash, Proxy.__hash__.
    reflexivity.
  - split; reflexivity.
Qed.

(** One registered proxy, never probed. *)
Definition one_proxy_manager : ProxyManager.State :=
  snd (ProxyManager.__init__ identity_hash two_proxies [0] 5).

Definition no_answer (n : nat) : Scraper.Response := Scraper.TransportRaised "timed out".

(** The same manager after a failure, which evicts the proxy, and two
    successes reported for it. *)
Definition evicted_then_successful : ProxyManager.State :=
  fold_left (perform identity_hash millisecond_clock no_answer)
    [MarkProxyFailed 0; MarkProxySuccess 0; MarkProxySuccess 0] one_proxy_manager.

Definition stats_0_0 : ProxyManager.Stats := ProxyManager.fresh_stats.
Definition stats_2_1 : ProxyManager.Stats := ProxyManager.mkStats 2 1 0 None None.

(** C4, the claim as worded fails twice.  A fresh proxy is removed by its
    first failure, with no success recorded; and a registered proxy that
    was evicted earlier stays out of the working set after a failure that
    leaves its ratio at 2/4, not below one half. *)
Lemma eviction_claim_fails :
  registered identity_hash one_proxy_manager 0 0 stats_0_0
  /\ ~ eviction_claim identity_hash one_proxy_manager 0
  /\ registered identity_hash evicted_then_successful 0 0 stats_2_1
  /\ ~ eviction_claim identity_hash evicted_then_successful 0.
Proof.
  split; [reflexivity|]. split; [|split; [reflexivity|]].
  - intros Hclaim. destruct (Hclaim 0 stats_0_0 eq_refl) as (_ & _ & Hsuccess).
    specialize (Hsuccess eq_refl eq_refl). cbn in Hsuccess. lia.
  - intros Hclaim. destruct (Hclaim 0 stats_2_1 eq_refl) as (_ & [Hout _] & _).
    specialize (Hout eq_refl). vm_compute in Hout. discriminate Hout.
Qed.

(** C4 (as amended) on the first failure of a fresh proxy. *)
Lemma mark_proxy_failed_evicts_witness :
  exists s',
    ProxyManager.mark_proxy_failed identity_hash 0 one_proxy_manager = (Ok tt, s')
    /\ ProxyManager.working_proxies (ProxyManager.self s') = []
    /\ registered identity_hash s' 0 0 (one_more_failure stats_0_0).
Proof.
  destruct (mark_proxy_failed_evicts identity_hash millisecond_clock no_answer
              one_proxy_manager 0 0 stats_0_0)
    as (s' & Hcall & Hreg & _ & _ & _).
  - reflexivity.
  - reflexivity.
  - exists s'. split; [exact Hcall|]. split; [|exact Hreg].
    vm_compute in Hcall. injection Hcall as <-. reflexivity.
Defined.

(** C8 on a probe answered 503. *)
Lemma verify_proxy_non_200_witness :
  exists s',
    ProxyManager.verify_proxy identity_hash millisecond_clock
        (fun _ => Scraper.Responded 503 "Service Unavailable") 0 one_proxy_manager
      = (Ok false, s')
    /\ ProxyManager.proxy_stats (ProxyManager.self s')
       = ProxyManager.proxy_stats (ProxyManager.self one_proxy_manager)
    /\ ProxyManager.working_proxies (ProxyManager.self s')
       = ProxyManager.working_proxies (ProxyManager.self one_proxy_manager)
    /\ ProxyManager.probes s' = 0 :: ProxyManager.probes one_proxy_manager.
Proof.
  apply (verify_proxy_non_200 identity_hash millisecond_clock
           (fun _ => Scraper.Responded 503 "Service Unavailable")
           one_proxy_manager 0 503 "Service Unavailable").
  - reflexivity.
  - discriminate.
Defined.





(** * Further properties of the code *)

(** ** scraper.py : what [fetch] returns, raises and sends *)

Section FetchOutcomes.
Import Scraper.
Variable allowed_by_robots : string -> string -> Res bool.
Variable transport : nat -> Response.
Variable import_time : Z.

(** The [k]-th request raised. *)
Definition failed_at (k : nat) : Prop := exists msg, transport k = TransportRaised msg.

(** The proxy the [j]-th [next(proxy_cycle)] from [w] on yields. *)
Definition proxy_at (w : World) (j : nat) : string :=
  nth ((cycle_pos w + j) mod length (cycle_items w)) (cycle_items w) "".

(** The requests of [m] attempts at [url], newest first. *)
Definition requests_of (w : World) (url : string) (m : nat) : list (string * string) :=
  rev (map (fun j => (url, proxy_at w j)) (seq 0 m)).

Lemma next_proxy_eq w :
  cycle_items w <> [] ->
  next_proxy w
    = (Ok (proxy_at w 0),
       mkWorld (cycle_items w) (S (cycle_pos w)) (sent w) (slept w)).
Proof.
  intros Hne. unfold next_proxy, proxy_at.
  destruct (cycle_items w) as [|d items] eqn:Hitems; [congruence|].
  rewrite Nat.add_0_r. f_equal. f_equal. apply nth_indep.
  apply Nat.mod_upper_bound. discriminate.
Qed.

Lemma requests_of_S w url m :
  requests_of w url (S m)
    = (requests_of (mkWorld (cycle_items w) (S (cycle_pos w)) (sent w) (slept w)) url m
         ++ [(url, proxy_at w 0)])%list.
Proof.
  unfold requests_of. cbn [seq map rev]. f_equal.
  rewrite <- seq_shift, map_map. f_equal. apply map_ext. intros j.
  unfold proxy_at. cbn [cycle_pos cycle_items]. do 3 f_equal. lia.
Qed.

(** One attempt whose request raised: a proxy taken, a request sent, a sleep. *)
Lemma attempt_failed n url b w :
  cycle_items w <> [] ->
  failed_at (length (sent w)) ->
  attempts transport import_time (S n) url b w
    = attempts transport import_time n url (b * 2)
        (mkWorld (cycle_items w) (S (cycle_pos w)) ((url, proxy_at w 0) :: sent w)
                 (b :: slept w)).
Proof.
  intros Hne [msg Hmsg]. cbn [attempts]. unfold bind at 1.
  rewrite (next_proxy_eq w Hne). unfold bind at 1.
  unfold try_except, bind at 1, session_get. cbn [sent]. rewrite Hmsg.
  unfold bind at 1, sleep, modify. reflexivity.
Qed.

(** One attempt whose request was answered: the result carries the body,
    whatever the status. *)
Lemma attempt_answered n url b w status text :
  cycle_items w <> [] ->
  transport (length (sent w)) = Responded status text ->
  attempts transport import_time (S n) url b w
    = (Ok (Some (ScrapeResult.mk url text None import_time)),
       mkWorld (cycle_items w) (S (cycle_pos w)) ((url, proxy_at w 0) :: sent w) (slept w)).
Proof.
  intros Hne Hresp. cbn [attempts]. unfold bind at 1.
  rewrite (next_proxy_eq w Hne). unfold bind at 1.
  unfold try_except, bind at 1, session_get. cbn [sent]. rewrite Hresp.
  reflexivity.
Qed.

(** The loop on a cycle that yields proxies: [m] attempts were made, each
    with the next proxy of the cycle; either all [n] raised, or the [m]-th
    was the first to be answered. *)
Lemma attempts_spec n : forall url b w,
  cycle_items w <> [] ->
  exists m r w',
    attempts transport import_time n url b w = (Ok r, w')
    /\ m <= n
    /\ cycle_items w' = cycle_items w
    /\ cycle_pos w' = cycle_pos w + m
    /\ sent w' = (requests_of w url m ++ sent w)%list
    /\ match r with
       | None =>
           m = n /\ slept w' = (rev (backoffs n b) ++ slept w)%list
           /\ forall j, j < n -> failed_at (length (sent w) + j)
       | Some res =>
           exists status text,
             0 < m
             /\ transport (length (sent w) + (m - 1)) = Responded status text
             /\ res = ScrapeResult.mk url text None import_time
             /\ slept w' = (rev (backoffs (m - 1) b) ++ slept w)%list
             /\ forall j, j < m - 1 -> failed_at (length (sent w) + j)
       end.
Proof.
  induction n as [|n IH]; intros url b w Hne.
  - exists 0, None, w. cbn. repeat split; auto. intros j Hj. lia.
  - destruct (transport (length (sent w))) as [status text|msg] eqn:Hfirst.
    + exists 1, (Some (ScrapeResult.mk url text None import_time)). eexists.
      split; [apply (attempt_answered n url b w status text Hne Hfirst)|].
      cbn [cycle_items cycle_pos sent slept].
      split; [lia|]. split; [reflexivity|]. split; [lia|]. split; [reflexivity|].
      exists status, text. rewrite Nat.sub_diag, Nat.add_0_r.
      repeat split; auto. intros j Hj. lia.
    + rewrite attempt_failed by (eauto; exists msg; exact Hfirst).
      set (w1 := mkWorld _ _ _ _).
      destruct (IH url (b * 2)%Z w1) as (m & r & w' & Hrun & Hm & Hitems & Hpos & Hsent & Hr).
      { subst w1. exact Hne. }
      exists (S m), r, w'. split; [exact Hrun|]. split; [lia|].
      split; [rewrite Hitems; reflexivity|].
      split; [rewrite Hpos; subst w1; cbn; lia|].
      split.
      { rewrite Hsent, requests_of_S. subst w1. cbn [sent cycle_items cycle_pos slept].
        rewrite <- app_assoc. reflexivity. }
      assert (Hlen : length (sent w1) = S (length (sent w))) by (subst w1; reflexivity).
      assert (Hslept : slept w1 = b :: slept w) by (subst w1; reflexivity).
      destruct r as [res|].
      * destruct Hr as (status & text & Hpos' & Hresp & Hres & Hsl & Hfail).
        exists status, text. split; [lia|].
        split. { rewrite <- Hresp, Hlen. f_equal. lia. }
        split; [exact Hres|]. split.
        { rewrite Hsl, Hslept. replace (S m - 1) with (S (m - 1)) by lia.
          rewrite backoffs_S. cbn [rev]. rewrite <- app_assoc. reflexivity. }
        intros j Hj. destruct j as [|j].
        { rewrite Nat.add_0_r. exists msg. exact Hfirst. }
        replace (length (sent w) + S j) with (length (sent w1) + j) by lia.
        apply Hfail. lia.
      * destruct Hr as (-> & Hsl & Hfail). split; [reflexivity|]. split.
        { rewrite Hsl, Hslept, backoffs_S. cbn [rev]. rewrite <- app_assoc. reflexivity. }
        intros j Hj. destruct j as [|j].
        { rewrite Nat.add_0_r. exists msg. exact Hfirst. }
        replace (length (sent w) + S j) with (length (sent w1) + j) by lia.
        apply Hfail. lia.
Qed.

(** On an exhausted cycle the first [next(proxy_cycle)] ends the call. *)
Lemma attempts_empty_cycle n url b w :
  cycle_items w = [] ->
  attempts transport import_time (S n) url b w
    = (Raise (RuntimeError "coroutine raised StopIteration"), w).
Proof.
  intros Hempty. cbn [attempts]. unfold bind at 1, next_proxy. rewrite Hempty. reflexivity.
Qed.

(** [fetch], by the outcome of the robots check and of the loop. *)
Lemma fetch_eq url user_agent max_retries w :
  fetch allowed_by_robots transport import_time url user_agent max_retries w
    = match allowed_by_robots url user_agent with
      | Raise e => (Raise e, w)
      | Ok false => (Raise ScrapeResult.missing_content, w)
      | Ok true =>
          match attempts transport import_time (Z.to_nat max_retries) url 1 w with
          | (Ok (Some res), w') => (Ok res, w')
          | (Ok None, w') => (Raise ScrapeResult.missing_content, w')
          | (Raise e, w') => (Raise e, w')
          end
      end.
Proof.
  unfold fetch, bind at 1, lift at 1.
  destruct (allowed_by_robots url user_agent) as [[|]|e]; cbn [negb]; try reflexivity.
  unfold bind.
  destruct (attempts transport import_time (Z.to_nat max_retries) url 1 w) as [[[res|]|e] w'];
    reflexivity.
Qed.

(** X1. [fetch] reports no failure through its result. Whenever it returns,
    the result has no error set, carries the body of a response as its
    content -- of any status -- and the import time of models.py as its
    timestamp. Whenever it raises, it raises what the robots check raised
    (the check runs outside any [try]: the [ValueError] of [urlparse] on a
    malformed URL leaves [fetch]), the [TypeError] of the incomplete
    [ScrapeResult(...)] call, or, with an empty proxy cycle, [RuntimeError];
    an exception of the transport never leaves it. *)
Theorem fetch_outcome (url user_agent : string) (max_retries : Z) (w : World) :
  match fst (fetch allowed_by_robots transport import_time url user_agent max_retries w) with
  | Ok res =>
      allowed_by_robots url user_agent = Ok true
      /\ ScrapeResult.url res = url
      /\ ScrapeResult.error res = None
      /\ ScrapeResult.timestamp res = import_time
      /\ exists k status, transport k = Responded status (ScrapeResult.content res)
  | Raise e =>
      allowed_by_robots url user_agent = Raise e
      \/ (allowed_by_robots url user_agent = Ok false /\ e = ScrapeResult.missing_content)
      \/ (allowed_by_robots url user_agent = Ok true
          /\ (e = ScrapeResult.missing_content
              \/ (e = RuntimeError "coroutine raised StopIteration" /\ cycle_items w = [])))
  end.
Proof.
  rewrite fetch_eq.
  destruct (allowed_by_robots url user_agent) as [[|]|e].
  3: { cbn. left. reflexivity. }
  2: { cbn. right; left. auto. }
  destruct (decide (cycle_items w = [])) as [Hempty|Hne].
  - destruct (Z.to_nat max_retries) as [|n].
    + cbn. right; right. auto.
    + rewrite (attempts_empty_cycle n url 1 w Hempty). cbn. right; right. auto.
  - destruct (attempts_spec (Z.to_nat max_retries) url 1 w Hne)
      as (m & r & w' & Hrun & _ & _ & _ & _ & Hr).
    rewrite Hrun. destruct r as [res|].
    + destruct Hr as (status & text & _ & Hresp & -> & _). cbn. eauto 10.
    + cbn. right; right. auto.
Qed.

(** X2. The first answer wins, whatever its status: when the first [k]
    requests raise and the next one is answered within the retry budget,
    [fetch] returns the body of that answer after [k + 1] requests and the
    [k] delays 1, 2, 4, ... *)
Theorem fetch_first_response (url user_agent : string) (max_retries : Z) (w : World)
    (k : nat) (status : Z) (text : string) :
  allowed_by_robots url user_agent = Ok true ->
  cycle_items w <> [] ->
  (Z.of_nat k < max_retries)%Z ->
  (forall j, j < k -> failed_at (length (sent w) + j)) ->
  transport (length (sent w) + k) = Responded status text ->
  exists w',
    fetch allowed_by_robots transport import_time url user_agent max_retries w
      = (Ok (ScrapeResult.mk url text None import_time), w')
    /\ sent w' = (requests_of w url (S k) ++ sent w)%list
    /\ slept w' = (rev (backoffs k 1) ++ slept w)%list
    /\ cycle_pos w' = cycle_pos w + S k.
Proof.
  intros Hallowed Hne Hk Hfail Hresp. rewrite fetch_eq, Hallowed.
  destruct (attempts_spec (Z.to_nat max_retries) url 1 w Hne)
    as (m & r & w' & Hrun & Hm & _ & Hpos & Hsent & Hr).
  rewrite Hrun. destruct r as [res|].
  - destruct Hr as (status' & text' & Hpos' & Hresp' & -> & Hsl & Hfail').
    assert (Hmk : m - 1 = k).
    { destruct (Nat.lt_trichotomy (m - 1) k) as [Hlt|[Heq|Hgt]]; [|exact Heq|].
      - destruct (Hfail (m - 1) Hlt) as [msg Hmsg]. congruence.
      - destruct (Hfail' k Hgt) as [msg Hmsg]. congruence. }
    rewrite Hmk in *. assert (m = S k) as -> by lia.
    assert (text' = text) as -> by congruence.
    exists w'. auto.
  - destruct Hr as (-> & _ & Hfail'). exfalso.
    destruct (Hfail' k) as [msg Hmsg]; [lia|]. congruence.
Qed.

(** X4. [fetch] asks robots.txt first, and touches the network only after
    it. When the check does not allow the URL nothing is sent and no proxy
    is taken from the cycle: an exception of the check leaves [fetch] as it
    is, and for a disallowed URL nothing is reported either, since the
    [ScrapeResult(url=url, error="Disallowed by robots.txt")] of that path
    leaves out [content] and raises [TypeError]. A call sends no request
    exactly when the check does not return true, [max_retries] is below 1,
    or the proxy cycle is empty. *)
Theorem fetch_asks_robots_first (url user_agent : string) (max_retries : Z) (w : World) :
  let call := fetch allowed_by_robots transport import_time url user_agent max_retries w in
  (allowed_by_robots url user_agent = Ok false ->
   call = (Raise ScrapeResult.missing_content, w))
  /\ (forall e, allowed_by_robots url user_agent = Raise e -> call = (Raise e, w))
  /\ (sent (snd call) = sent w
      <-> allowed_by_robots url user_agent <> Ok true
          \/ (max_retries <= 0)%Z
          \/ cycle_items w = []).
Proof.
  cbv zeta. rewrite fetch_eq.
  destruct (allowed_by_robots url user_agent) as [[|]|e0] eqn:Hallowed.
  3: { split; [discriminate|]. split; [intros e [= <-]; reflexivity|].
       cbn. split; [intros _; left; discriminate|reflexivity]. }
  2: { split; [reflexivity|]. split; [discriminate|].
       cbn. split; [intros _; left; discriminate|reflexivity]. }
  split; [discriminate|]. split; [discriminate|].
  destruct (Z.to_nat max_retries) as [|n] eqn:Hn.
  { cbn. split; [intros _; right; left; lia|reflexivity]. }
  destruct (decide (cycle_items w = [])) as [Hempty|Hne].
  { rewrite (attempts_empty_cycle n url 1 w Hempty). cbn. split; auto. }
  destruct (attempts_spec (S n) url 1 w Hne)
    as (m & r & w' & Hrun & Hm & _ & _ & Hsent & Hr).
  rewrite Hrun.
  assert (Hpos : 0 < m).
  { destruct r as [res|]; [destruct Hr as (status & text & Hpos & _); exact Hpos|].
    destruct Hr as [-> _]. lia. }
  assert (Hmore : sent w' <> sent w).
  { intros Heq. apply (f_equal length) in Heq.
    rewrite Hsent, length_app in Heq. unfold requests_of in Heq.
    rewrite length_rev, length_map, length_seq in Heq. lia. }
  destruct r as [res|]; cbn [snd]; (split; [contradiction|]);
    intros [H|[H|H]]; [congruence|lia|contradiction|congruence|lia|contradiction].
Qed.

Lemma sum_rev (l : list Z) : foldr Z.add 0%Z (rev l) = foldr Z.add 0%Z l.
Proof.
  induction l as [|x l IH]; [reflexivity|].
  cbn [rev foldr]. rewrite foldr_app. cbn [foldr]. rewrite <- IH.
  generalize (rev l). intros r. induction r as [|y r IHr]; cbn [foldr]; lia.
Qed.

Lemma sum_backoffs n : forall b, foldr Z.add 0%Z (backoffs n b) = (b * (2 ^ Z.of_nat n - 1))%Z.
Proof.
  induction n as [|n IH]; intros b.
  - cbn. lia.
  - rewrite backoffs_S. cbn [foldr]. rewrite IH, Nat2Z.inj_succ, Z.pow_succ_r by lia. lia.
Qed.

(** X5. The time a failing [fetch] spends asleep: when all its [n] attempts
    raise it sleeps [n] times, the last time after the last attempt, and
    [2^n - 1] seconds in all. *)
Theorem fetch_total_backoff (url user_agent : string) (max_retries : Z) (w : World) :
  allowed_by_robots url user_agent = Ok true ->
  cycle_items w <> [] ->
  (forall j, j < Z.to_nat max_retries -> failed_at (length (sent w) + j)) ->
  exists delays,
    slept (snd (fetch allowed_by_robots transport import_time url user_agent max_retries w))
      = (delays ++ slept w)%list
    /\ length delays = Z.to_nat max_retries
    /\ foldr Z.add 0%Z delays = (2 ^ Z.of_nat (Z.to_nat max_retries) - 1)%Z.
Proof.
  intros Hallowed Hne Hfail. rewrite fetch_eq, Hallowed.
  destruct (attempts_spec (Z.to_nat max_retries) url 1 w Hne)
    as (m & r & w' & Hrun & Hm & _ & _ & _ & Hr).
  rewrite Hrun. destruct r as [res|].
  - destruct Hr as (status & text & Hpos & Hresp & _).
    destruct (Hfail (m - 1)) as [msg Hmsg]; [lia|]. congruence.
  - destruct Hr as (_ & Hsl & _). exists (rev (backoffs (Z.to_nat max_retries) 1)).
    cbn [snd]. split; [exact Hsl|]. split.
    + rewrite length_rev. unfold backoffs. rewrite length_map, length_seq. reflexivity.
    + rewrite sum_rev, sum_backoffs. lia.
Qed.

End FetchOutcomes.

(** *** Concrete fetches *)

(** Two proxies in the cycle, nothing sent or slept yet. *)
Definition two_proxy_world : Scraper.World :=
  Scraper.mkWorld ["http://10.0.0.1:8080"; "http://10.0.0.2:3128"] 0 [] [].

(** The first request times out, the second is answered 404. *)
Definition second_is_404 (n : nat) : Scraper.Response :=
  match n with
  | O => Scraper.TransportRaised "timed out"
  | _ => Scraper.Responded 404 "Not Found"
  end.

(** X2 on a concrete input. The 404 page comes back as the content of a
    result with no error, after one delay of a second and through the second
    proxy. *)
Lemma fetch_first_response_witness :
  exists w',
    Scraper.fetch (fun _ _ => Ok true) second_is_404 0 "https://example.org/" "fast-web-search" 3
        two_proxy_world
      = (Ok (ScrapeResult.mk "https://example.org/" "Not Found" None 0), w')
    /\ Scraper.sent w' = [("https://example.org/", "http://10.0.0.2:3128");
                          ("https://example.org/", "http://10.0.0.1:8080")]
    /\ Scraper.slept w' = [1%Z]
    /\ Scraper.cycle_pos w' = 2.
Proof.
  apply (fetch_first_response (fun _ _ => Ok true) second_is_404 0 "https://example.org/"
           "fast-web-search" 3 two_proxy_world 1 404 "Not Found").
  - reflexivity.
  - discriminate.
  - lia.
  - intros j Hj. assert (j = 0) as -> by lia. exists "timed out". reflexivity.
  - reflexivity.
Defined.

(** X5 on a concrete input. Three attempts that time out: 1 + 2 + 4 = 7
    seconds of sleep. *)
Lemma fetch_total_backoff_witness :
  exists delays,
    Scraper.slept (snd (Scraper.fetch (fun _ _ => Ok true)
                          (fun _ => Scraper.TransportRaised "timed out") 0
                          "https://example.org/" "fast-web-search" 3 two_proxy_world))
      = (delays ++ [])%list
    /\ length delays = 3
    /\ foldr Z.add 0%Z delays = 7%Z.
Proof.
  apply (fetch_total_backoff (fun _ _ => Ok true)
           (fun _ => Scraper.TransportRaised "timed out") 0
           "https://example.org/" "fast-web-search" 3 two_proxy_world).
  - reflexivity.
  - discriminate.
  - intros j _. exists "timed out". reflexivity.
Defined.

(** ** scraper.py : a batch of fetches on every schedule *)

Section ScrapeUrlsSpec.
Import Scraper ScrapeUrls.
Variable checked : nat -> Res bool.
Variable transport : nat -> Response.
Variable import_time : Z.
Variable max_retries : Z.

(** The requests a task may still send. *)
Definition budget (tk : Task) : nat :=
  match tk with
  | AtRobots => Z.to_nat max_retries
  | Requesting rest _ _ | Sleeping rest _ => rest
  | Returned _ | Failed _ => 0
  end.

Definition total_budget (ts : list Task) : nat := list_sum (map budget ts).

(** The exceptions that leave the [i]-th fetch: what its robots check
    raised, the [TypeError] of an incomplete [ScrapeResult(...)], and
    the [RuntimeError] of an empty proxy cycle. *)
Definition may_leave (w0 : World) (i : nat) (e : exn) : Prop :=
  checked i = Raise e
  \/ (checked i = Ok false /\ e = ScrapeResult.missing_content)
  \/ (checked i = Ok true
      /\ (e = ScrapeResult.missing_content
          \/ (e = RuntimeError "coroutine raised StopIteration" /\ cycle_items w0 = []))).

(** The content of [res] is the body of the answer to a request for its
    URL; [log] holds the requests in the order of sending. *)
Definition answered_by (log : list (string * string)) (res : ScrapeResult.t) : Prop :=
  exists n status proxy,
    log !! n = Some (ScrapeResult.url res, proxy)
    /\ transport n = Responded status (ScrapeResult.content res).

Definition task_ok (us : list string) (w0 : World) (log : list (string * string))
    (r : option exn) (i : nat) (tk : Task) : Prop :=
  match tk with
  | AtRobots => True
  | Requesting _ _ n =>
      checked i = Ok true
      /\ exists url proxy, us !! i = Some url /\ log !! n = Some (url, proxy)
  | Sleeping _ _ => checked i = Ok true
  | Returned res =>
      checked i = Ok true
      /\ us !! i = Some (ScrapeResult.url res)
      /\ ScrapeResult.error res = None
      /\ ScrapeResult.timestamp res = import_time
      /\ answered_by log res
  | Failed e => r = Some e /\ may_leave w0 i e
  end.

(** What holds of a batch of the URLs [us] started in the world [w0],
    when [new] are the requests sent since, newest first. *)
Record batch_inv (us : list string) (w0 : World) (b : Batch)
    (new : list (string * string)) : Prop := mk_batch_inv {
  batch_urls_ok : urls b = us;
  batch_length_ok : length (tasks b) = length us;
  batch_items_ok : cycle_items (world b) = cycle_items w0;
  batch_pos_ok : cycle_pos (world b) = cycle_pos w0 + length new;
  batch_sent_ok : sent (world b) = (new ++ sent w0)%list;
  batch_proxies_ok : map snd (rev new) = map (proxy_at w0) (seq 0 (length new));
  batch_budget_ok : length new + total_budget (tasks b) <= length us * Z.to_nat max_retries;
  batch_tasks_ok : forall i tk,
    tasks b !! i = Some tk -> task_ok us w0 (rev (sent (world b))) (raised b) i tk;
  batch_raised_ok : forall e,
    raised b = Some e -> exists i, i < length us /\ may_leave w0 i e
}.

Lemma total_budget_start (us : list string) :
  total_budget (map (fun _ => AtRobots) us) = length us * Z.to_nat max_retries.
Proof.
  unfold total_budget, list_sum. induction us as [|u us IH]; [reflexivity|].
  cbn [map fold_right length budget]. rewrite IH. lia.
Qed.

Lemma total_budget_insert (ts : list Task) : forall i old tk,
  ts !! i = Some old ->
  total_budget (<[i := tk]> ts) + budget old = total_budget ts + budget tk.
Proof.
  unfold total_budget, list_sum. induction ts as [|t ts IH]; intros i old tk Hi.
  - rewrite lookup_nil in Hi. discriminate.
  - destruct i as [|i].
    + injection Hi as ->. simpl. lia.
    + simpl in Hi. specialize (IH i old tk Hi). simpl in *. lia.
Qed.

Lemma batch_start_inv (us : list string) (w0 : World) :
  batch_inv us w0 (create_tasks us w0) [].
Proof.
  split; cbn [create_tasks urls tasks world raised length app rev map seq];
    try reflexivity.
  - rewrite length_map. reflexivity.
  - lia.
  - rewrite total_budget_start. lia.
  - intros i tk Hi. rewrite list_lookup_fmap in Hi.
    destruct (us !! i); [|discriminate]. injection Hi as <-. exact I.
  - discriminate.
Qed.

Lemma task_ok_grows us w0 log l r r' i tk :
  (forall e, tk <> Failed e) ->
  task_ok us w0 log r i tk -> task_ok us w0 (log ++ l) r' i tk.
Proof.
  intros Hnot. destruct tk as [|rest backoff n|rest backoff|res|e]; cbn; auto.
  - intros (Hok & url & proxy & Hurl & Hn). split; [exact Hok|].
    exists url, proxy. split; [exact Hurl|]. apply lookup_app_l_Some. exact Hn.
  - intros (Hok & Hurl & Herr & Hts & n & status & proxy & Hn & Hresp).
    repeat (split; [assumption|]). exists n, status, proxy.
    split; [apply lookup_app_l_Some; exact Hn|exact Hresp].
  - destruct (Hnot e eq_refl).
Qed.

(** Task [i] moves from [old] to [tk], the world to [w']: what is to be
    checked of the move. *)
Lemma settle_inv us w0 b new i old tk w' l :
  batch_inv us w0 b new ->
  raised b = None ->
  tasks b !! i = Some old ->
  cycle_items w' = cycle_items w0 ->
  cycle_pos w' = cycle_pos w0 + length (l ++ new) ->
  sent w' = ((l ++ new) ++ sent w0)%list ->
  map snd (rev (l ++ new)) = map (proxy_at w0) (seq 0 (length (l ++ new))) ->
  length (l ++ new) + budget tk <= length new + budget old ->
  task_ok us w0 (rev (sent w')) (match tk with Failed e => Some e | _ => None end) i tk ->
  batch_inv us w0 (settle i tk w' b) (l ++ new).
Proof.
  intros [Hurls Hlen Hitems Hpos Hsent Hproxies Hbudget Htasks Hraised]
         Hnone Hi Hitems' Hpos' Hsent' Hproxies' Hbudget' Hok.
  assert (Hr : raised (settle i tk w' b) = match tk with Failed e => Some e | _ => None end).
  { unfold settle. cbn [raised]. rewrite Hnone. destruct tk; reflexivity. }
  split.
  - exact Hurls.
  - cbn [settle tasks]. rewrite length_insert. exact Hlen.
  - exact Hitems'.
  - exact Hpos'.
  - exact Hsent'.
  - exact Hproxies'.
  - cbn [settle tasks]. pose proof (total_budget_insert (tasks b) i old tk Hi). lia.
  - intros j tkj Hj. rewrite Hr. cbn [settle tasks world] in *.
    destruct (decide (i = j)) as [->|Hne].
    + rewrite list_lookup_insert_eq in Hj by (eapply lookup_lt_Some; exact Hi).
      injection Hj as <-. exact Hok.
    + rewrite list_lookup_insert_ne in Hj by exact Hne.
      specialize (Htasks j tkj Hj). rewrite Hnone in Htasks.
      assert (Hlog : rev (sent w') = (rev (sent (world b)) ++ rev l)%list).
      { rewrite Hsent', Hsent, <- app_assoc, rev_app_distr. reflexivity. }
      rewrite Hlog. apply task_ok_grows with (r := None); [|exact Htasks].
      intros e ->. destruct Htasks as [[=] _].
  - intros e He. rewrite Hr in He. destruct tk as [| | | |e']; try discriminate.
    injection He as ->. exists i. split.
    + rewrite <- Hlen. eapply lookup_lt_Some. exact Hi.
    + exact (proj2 Hok).
Qed.

(** The top of the loop: the [TypeError] after the last iteration, the
    [RuntimeError] of an empty cycle, or a request through the next proxy. *)
Lemma iterate_cases url rest backoff w :
  (rest = 0
   /\ iterate import_time url rest backoff w = (Failed ScrapeResult.missing_content, w))
  \/ (rest <> 0 /\ cycle_items w = []
      /\ iterate import_time url rest backoff w
         = (Failed (RuntimeError "coroutine raised StopIteration"), w))
  \/ (exists rest',
        rest = S rest' /\ cycle_items w <> []
        /\ iterate import_time url rest backoff w
           = (Requesting rest' backoff (length (sent w)),
              mkWorld (cycle_items w) (S (cycle_pos w))
                      ((url, proxy_at w 0) :: sent w) (slept w))).
Proof.
  destruct rest as [|rest']; [left; split; reflexivity|]. right.
  destruct (decide (cycle_items w = [])) as [Hempty|Hne].
  - left. split; [discriminate|]. split; [exact Hempty|].
    cbn [iterate]. unfold next_proxy. rewrite Hempty. reflexivity.
  - right. exists rest'. split; [reflexivity|]. split; [exact Hne|].
    cbn [iterate]. rewrite (next_proxy_eq w Hne). reflexivity.
Qed.

(** One more request, through the next proxy of the cycle. *)
Lemma next_request w0 w (new : list (string * string)) url :
  cycle_items w = cycle_items w0 ->
  cycle_pos w = cycle_pos w0 + length new ->
  map snd (rev new) = map (proxy_at w0) (seq 0 (length new)) ->
  map snd (rev ([(url, proxy_at w 0)] ++ new))
    = map (proxy_at w0) (seq 0 (length ([(url, proxy_at w 0)] ++ new))).
Proof.
  intros Hitems Hpos Hproxies. cbn [app length rev]. rewrite map_app, Hproxies.
  rewrite seq_S, map_app. cbn [map snd Nat.add]. do 2 f_equal.
  unfold proxy_at. rewrite Hitems, Hpos, Nat.add_0_r. reflexivity.
Qed.

(** A task that resumes at the top of the loop. *)
Lemma iterate_inv us w0 b new i old url rest backoff tk w' :
  batch_inv us w0 b new ->
  raised b = None ->
  tasks b !! i = Some old ->
  us !! i = Some url ->
  checked i = Ok true ->
  rest <= budget old ->
  iterate import_time url rest backoff (world b) = (tk, w') ->
  exists l, batch_inv us w0 (settle i tk w' b) (l ++ new).
Proof.
  intros Hinv Hnone Hi Hurl Hok Hrest Hiter.
  pose proof Hinv as [_ _ Hitems Hpos Hsent Hproxies _ _ _].
  destruct (iterate_cases url rest backoff (world b))
    as [(-> & Heq)|[(Hne & Hempty & Heq)|(rest' & -> & Hne & Heq)]];
    rewrite Heq in Hiter; injection Hiter as <- <-.
  - exists []. eapply settle_inv; eauto; cbn [app budget]; try lia.
    cbn. split; [reflexivity|]. right; right. auto.
  - exists []. eapply settle_inv; eauto; cbn [app budget]; try lia.
    cbn. split; [reflexivity|]. right; right. split; [exact Hok|]. right.
    split; [reflexivity|]. congruence.
  - exists [(url, proxy_at (world b) 0)].
    eapply settle_inv; eauto; cbn [cycle_items cycle_pos sent].
    + cbn [app length]. lia.
    + rewrite Hsent. reflexivity.
    + apply next_request; assumption.
    + cbn [app length budget]. lia.
    + cbn [task_ok rev]. split; [exact Hok|]. exists url, (proxy_at (world b) 0).
      split; [exact Hurl|]. apply list_lookup_middle. rewrite length_rev. reflexivity.
Qed.

Lemma batch_step_inv us w0 b new ev b' :
  batch_inv us w0 b new ->
  step checked transport import_time max_retries ev b = Some b' ->
  exists l, batch_inv us w0 b' (l ++ new).
Proof.
  intros Hinv Hstep. unfold step in Hstep.
  destruct (raised b) as [e|] eqn:Hnone; [discriminate|].
  pose proof Hinv as [Hurls _ Hitems Hpos Hsent Hproxies _ Htasks _].
  destruct ev as [i|i|i].
  - (* the robots check has returned *)
    destruct (tasks b !! i) as [[| | | |]|] eqn:Hi; try discriminate.
    destruct (urls b !! i) as [url|] eqn:Hurl; [|discriminate]. rewrite Hurls in Hurl.
    destruct (checked i) as [[|]|e] eqn:Hok.
    + destruct (iterate import_time url (Z.to_nat max_retries) 1 (world b)) as [tk w'] eqn:Hiter.
      injection Hstep as <-. eapply iterate_inv; eauto.
    + injection Hstep as <-. exists []. eapply settle_inv; eauto; cbn [app budget]; try lia.
      cbn. split; [reflexivity|]. right; left. auto.
    + injection Hstep as <-. exists []. eapply settle_inv; eauto; cbn [app budget]; try lia.
      cbn. split; [reflexivity|]. left. exact Hok.
  - (* the request has been answered, or has raised *)
    destruct (tasks b !! i) as [[|rest backoff n| | |]|] eqn:Hi; try discriminate.
    destruct (urls b !! i) as [url|] eqn:Hurl; [|discriminate]. rewrite Hurls in Hurl.
    specialize (Htasks i _ Hi). cbn [task_ok] in Htasks.
    destruct Htasks as (Hok & url' & proxy & Hurl' & Hn).
    assert (url' = url) as -> by congruence.
    destruct (transport n) as [status text|msg] eqn:Hresp; injection Hstep as <-.
    + exists []. eapply settle_inv; eauto; cbn [app budget]; try lia.
      cbn. repeat (split; [assumption || reflexivity|]).
      exists n, status, proxy. auto.
    + exists []. eapply settle_inv; eauto; cbn [app budget cycle_items cycle_pos sent]; lia.
  - (* the sleep is over *)
    destruct (tasks b !! i) as [[| |rest backoff| |]|] eqn:Hi; try discriminate.
    destruct (urls b !! i) as [url|] eqn:Hurl; [|discriminate]. rewrite Hurls in Hurl.
    specialize (Htasks i _ Hi). cbn [task_ok] in Htasks.
    destruct (iterate import_time url rest (backoff * 2) (world b)) as [tk w'] eqn:Hiter.
    injection Hstep as <-. eapply iterate_inv; eauto.
Qed.

Lemma batch_run_inv us w0 es : forall b new b',
  batch_inv us w0 b new ->
  run checked transport import_time max_retries es b = Some b' ->
  exists l, batch_inv us w0 b' (l ++ new).
Proof.
  induction es as [|ev es IH]; intros b new b' Hinv Hrun.
  - injection Hrun as <-. exists []. exact Hinv.
  - cbn [run] in Hrun.
    destruct (step checked transport import_time max_retries ev b) as [b1|] eqn:Hstep;
      [|discriminate].
    destruct (batch_step_inv us w0 b new ev b1 Hinv Hstep) as (l1 & Hinv1).
    destruct (IH b1 _ b' Hinv1 Hrun) as (l & Hinv').
    exists (l ++ l1)%list. rewrite <- app_assoc. exact Hinv'.
Qed.

(** A fetch that is the only task of the loop: the loop of [fetch],
    event by event. *)
Lemma attempts_alone rest : forall url backoff w tk w1,
  iterate import_time url rest backoff w = (tk, w1) ->
  exists es b,
    run checked transport import_time max_retries es
        (mkBatch [url] [tk] w1 (match tk with Failed e => Some e | _ => None end))
      = Some b
    /\ match attempts transport import_time rest url backoff w with
       | (Ok (Some res), w') => tasks b = [Returned res] /\ raised b = None /\ world b = w'
       | (Ok None, w') => raised b = Some ScrapeResult.missing_content /\ world b = w'
       | (Raise e, w') => raised b = Some e /\ world b = w'
       end.
Proof.
  induction rest as [|rest IH]; intros url backoff w tk w1 Hiter.
  - injection Hiter as <- <-. exists []. eexists. split; [reflexivity|]. cbn. auto.
  - destruct (iterate_cases url (S rest) backoff w)
      as [([=] & _)|[(_ & Hempty & Heq)|(rest' & [= <-] & Hne & Heq)]];
      rewrite Heq in Hiter; injection Hiter as <- <-.
    + exists []. eexists. split; [reflexivity|].
      rewrite (attempts_empty_cycle transport import_time rest url backoff w Hempty).
      cbn. auto.
    + destruct (transport (length (sent w))) as [status text|msg] eqn:Hresp.
      * exists [Answered 0]. eexists. split.
        { cbn [run step raised tasks urls lookup list_lookup]. rewrite Hresp. reflexivity. }
        rewrite (attempt_answered transport import_time rest url backoff w status text
                   Hne Hresp).
        cbn. auto.
      * rewrite (attempt_failed transport import_time rest url backoff w Hne)
          by (exists msg; exact Hresp).
        set (w2 := mkWorld (cycle_items w) (S (cycle_pos w))
                           ((url, proxy_at w 0) :: sent w) (backoff :: slept w)).
        destruct (iterate import_time url rest (backoff * 2) w2) as [tk' w3] eqn:Hiter.
        destruct (IH url (backoff * 2)%Z w2 tk' w3 Hiter) as (es & b & Hrun & Hout).
        exists (Answered 0 :: Woke 0 :: es), b. split; [|exact Hout].
        cbn [run step raised tasks urls lookup list_lookup]. rewrite Hresp.
        cbn [settle raised tasks urls world step lookup list_lookup insert list_insert
             cycle_items cycle_pos sent slept].
        fold w2. rewrite Hiter. cbn [settle raised tasks urls insert list_insert].
        rewrite <- Hrun. reflexivity.
Qed.

(** A batch of one URL is [fetch] awaited alone: the same requests, the
    same delays, and its result as the only result. *)
Lemma batch_of_one (url user_agent : string) (w : World) :
  exists es b,
    run checked transport import_time max_retries es (create_tasks [url] w) = Some b
    /\ (scrape_urls b, world b)
       = match fetch (fun _ _ => checked 0) transport import_time url user_agent
                     max_retries w with
         | (Ok res, w') => (Some (Ok [res]), w')
         | (Raise e, w') => (Some (Raise e), w')
         end.
Proof.
  rewrite (fetch_eq (fun _ _ => checked 0) transport import_time url user_agent max_retries w).
  destruct (checked 0) as [[|]|e] eqn:Hok.
  - destruct (iterate import_time url (Z.to_nat max_retries) 1 w) as [tk w1] eqn:Hiter.
    destruct (attempts_alone (Z.to_nat max_retries) url 1%Z w tk w1 Hiter)
      as (es & b & Hrun & Hout).
    exists (Checked 0 :: es), b. split.
    + cbn [run step create_tasks raised tasks urls world map lookup list_lookup]. rewrite Hok, Hiter.
      cbn [settle raised tasks urls insert list_insert].
      rewrite <- Hrun. reflexivity.
    + unfold scrape_urls.
      destruct (attempts transport import_time (Z.to_nat max_retries) url 1 w)
        as [[[res|]|e] w'].
      * destruct Hout as (-> & -> & ->). reflexivity.
      * destruct Hout as (-> & ->). reflexivity.
      * destruct Hout as (-> & ->). reflexivity.
  - exists [Checked 0]. eexists. split.
    + cbn [run step create_tasks raised tasks urls world map lookup list_lookup]. rewrite Hok.
      reflexivity.
    + reflexivity.
  - exists [Checked 0]. eexists. split.
    + cbn [run step create_tasks raised tasks urls world map lookup list_lookup]. rewrite Hok.
      reflexivity.
    + reflexivity.
Qed.

(** X3. The fetches of a batch share the proxy cycle, and every attempt
    takes its next proxy: on every schedule of the batch, the requests go
    through the proxies of the cycle in turn -- the [k]-th request sent,
    by whichever fetch, through the [k]-th proxy after the position the
    cycle was at -- the cycle is advanced by the number of requests sent,
    and no more than [max_retries] requests per URL are sent. *)
Theorem batch_rotates_proxies (us : list string) (w : World) (es : list Event) (b : Batch) :
  run checked transport import_time max_retries es (create_tasks us w) = Some b ->
  exists new,
    sent (world b) = (new ++ sent w)%list
    /\ map snd (rev new) = map (proxy_at w) (seq 0 (length new))
    /\ cycle_pos (world b) = cycle_pos w + length new
    /\ cycle_items (world b) = cycle_items w
    /\ length new <= length us * Z.to_nat max_retries.
Proof.
  intros Hrun.
  destruct (batch_run_inv us w es _ [] b (batch_start_inv us w) Hrun) as (l & Hinv).
  rewrite app_nil_r in Hinv.
  destruct Hinv as [_ _ Hitems Hpos Hsent Hproxies Hbudget _ _].
  exists l. repeat (split; [assumption|]). lia.
Qed.

Lemma gather_lookup (ts : list Task) : forall results,
  gather ts = Some results ->
  length results = length ts
  /\ forall i res, results !! i = Some res -> ts !! i = Some (Returned res).
Proof.
  induction ts as [|t ts IH]; intros results Hg.
  - injection Hg as <-. split; [reflexivity|]. intros i res Hi.
    rewrite lookup_nil in Hi. discriminate.
  - cbn [gather] in Hg. destruct t as [| | |res0|]; try discriminate.
    destruct (gather ts) as [rs|]; [|discriminate]. injection Hg as <-.
    destruct (IH rs eq_refl) as [Hlen Hall]. split; [cbn; lia|].
    intros [|i] res Hi.
    + injection Hi as <-. reflexivity.
    + apply Hall. exact Hi.
Qed.

(** X30. [scrape_urls] gives all the results or none. On every schedule
    of the batch, when it returns, it returns one result per URL, in the
    order of the URLs, each with no error set and with the body of an
    answer to a request for its URL as content, and the robots check has
    allowed every URL. When it raises, it raises what left one of the
    fetches: the exception of a robots check, the [TypeError] of the
    incomplete [ScrapeResult(...)] of a disallowed URL or of a URL whose
    attempts all failed, or the [RuntimeError] of an empty proxy cycle;
    the pages fetched for the other URLs are lost with it. *)
Theorem scrape_urls_all_or_nothing (us : list string) (w : World) (es : list Event)
    (b : Batch) :
  run checked transport import_time max_retries es (create_tasks us w) = Some b ->
  match scrape_urls b with
  | Some (Ok results) =>
      length results = length us
      /\ (forall i, i < length us -> checked i = Ok true)
      /\ forall i res,
           results !! i = Some res ->
           us !! i = Some (ScrapeResult.url res)
           /\ ScrapeResult.error res = None
           /\ ScrapeResult.timestamp res = import_time
           /\ answered_by (rev (sent (world b))) res
  | Some (Raise e) => exists i, i < length us /\ may_leave w i e
  | None => True
  end.
Proof.
  intros Hrun.
  destruct (batch_run_inv us w es _ [] b (batch_start_inv us w) Hrun) as (l & Hinv).
  destruct Hinv as [_ Hlen _ _ _ _ _ Htasks Hraised].
  unfold scrape_urls. destruct (raised b) as [e|] eqn:Hr.
  { apply Hraised. reflexivity. }
  destruct (gather (tasks b)) as [results|] eqn:Hg; [|exact I]. cbn [option_map].
  destruct (gather_lookup _ _ Hg) as [Hlen' Hall].
  split; [congruence|]. split.
  - intros i Hi. destruct (lookup_lt_is_Some_2 results i) as [res Hres]; [lia|].
    specialize (Htasks i _ (Hall i res Hres)). cbn in Htasks. tauto.
  - intros i res Hres. specialize (Htasks i _ (Hall i res Hres)). cbn in Htasks.
    tauto.
Qed.

End ScrapeUrlsSpec.

(** *** A concrete batch *)

Definition two_urls : list string := ["https://example.org/a"; "https://example.org/b"].

(** The second fetch is checked first and its request raises; the first
    fetch is answered while the second sleeps; the second is answered at
    its second attempt. *)
Definition second_retries : list ScrapeUrls.Event :=
  [ScrapeUrls.Checked 1; ScrapeUrls.Checked 0; ScrapeUrls.Answered 1;
   ScrapeUrls.Answered 0; ScrapeUrls.Woke 1; ScrapeUrls.Answered 1].

(** X3 on a concrete input. Three requests over two proxies, in turn: the
    second fetch, the first fetch, the second fetch again. *)
Lemma batch_rotates_proxies_witness :
  exists b,
    ScrapeUrls.run (fun _ => Ok true) second_is_404 0 3 second_retries
      (ScrapeUrls.create_tasks two_urls two_proxy_world) = Some b
    /\ Scraper.sent (ScrapeUrls.world b)
       = [("https://example.org/b", "http://10.0.0.1:8080");
          ("https://example.org/a", "http://10.0.0.2:3128");
          ("https://example.org/b", "http://10.0.0.1:8080")]
    /\ Scraper.cycle_pos (ScrapeUrls.world b) = 3.
Proof.
  destruct (ScrapeUrls.run (fun _ => Ok true) second_is_404 0 3 second_retries
              (ScrapeUrls.create_tasks two_urls two_proxy_world)) as [b|] eqn:Hrun;
    [|vm_compute in Hrun; discriminate].
  destruct (batch_rotates_proxies (fun _ => Ok true) second_is_404 0 3 two_urls
              two_proxy_world second_retries b Hrun)
    as (new & Hsent & _ & Hpos & _).
  exists b. split; [reflexivity|].
  vm_compute in Hrun. injection Hrun as <-. split; [reflexivity|].
  rewrite Hpos. cbn [ScrapeUrls.world Scraper.sent two_proxy_world] in Hsent.
  rewrite app_nil_r in Hsent. rewrite <- Hsent. reflexivity.
Defined.

(** X30 on a concrete input. Both pages come back, in the order of the
    URLs, although the second fetch was the first to send a request. *)
Lemma scrape_urls_all_or_nothing_witness :
  exists b,
    ScrapeUrls.run (fun _ => Ok true) second_is_404 0 3 second_retries
      (ScrapeUrls.create_tasks two_urls two_proxy_world) = Some b
    /\ ScrapeUrls.scrape_urls b
       = Some (Ok [ScrapeResult.mk "https://example.org/a" "Not Found" None 0;
                   ScrapeResult.mk "https://example.org/b" "Not Found" None 0]).
Proof.
  destruct (ScrapeUrls.run (fun _ => Ok true) second_is_404 0 3 second_retries
              (ScrapeUrls.create_tasks two_urls two_proxy_world)) as [b|] eqn:Hrun;
    [|vm_compute in Hrun; discriminate].
  pose proof (scrape_urls_all_or_nothing (fun _ => Ok true) second_is_404 0 3 two_urls
                two_proxy_world second_retries b Hrun) as Hall.
  exists b. split; [reflexivity|].
  vm_compute in Hrun. injection Hrun as <-. reflexivity.
Defined.

(** ** scraper.py : the robots.txt verdicts *)

Section RobotsSpec.
Import Robots.
Variable Parser : Type.
Variable urlparse : string -> Res (string * string).
Variable read : nat -> string -> option Parser.
Variable can_fetch : Parser -> string -> string -> bool.

(** The verdict that an entry of the dictionary gives. *)
Definition ruling (entry : option (option Parser)) (user_agent url : string) : bool :=
  match entry with
  | Some (Some rp) => can_fetch rp user_agent url
  | _ => true
  end.

(** The site of a URL: the key of its entry in [_robot_parsers]. *)
Definition base_of (url : string) : option string :=
  match urlparse url with
  | Ok parsed => Some (fst parsed ++ "://" ++ snd parsed)
  | Raise _ => None
  end.

(** What a call does on a site it has not seen. *)
Lemma allowed_new url user_agent s base_url :
  base_of url = Some base_url ->
  _robot_parsers s !! base_url = None ->
  let rp := read (length (reads s)) (base_url ++ "/robots.txt") in
  allowed_by_robots Parser urlparse read can_fetch url user_agent s
    = (Ok (ruling (Some rp) user_agent url),
       mkState (<[base_url := rp]> (_robot_parsers s)) ((base_url ++ "/robots.txt") :: reads s)).
Proof.
  unfold base_of. intros Hbase Hnew. cbv zeta. unfold allowed_by_robots, bind at 1, lift.
  destruct (urlparse url) as [parsed|e]; [|discriminate]. injection Hbase as Hbase.
  rewrite Hbase. unfold bind at 1, gets. rewrite Hnew.
  unfold bind at 1, load. unfold bind at 1. cbn [_robot_parsers].
  rewrite lookup_insert_eq. unfold ruling. destruct (read _ _); reflexivity.
Qed.

(** A call for a site that has its entry reads nothing and answers from
    the entry. *)
Lemma allowed_cached url user_agent s base_url rp :
  base_of url = Some base_url ->
  _robot_parsers s !! base_url = Some rp ->
  allowed_by_robots Parser urlparse read can_fetch url user_agent s
    = (Ok (ruling (Some rp) user_agent url), s).
Proof.
  unfold base_of. intros Hbase Hentry. unfold allowed_by_robots, bind at 1, lift.
  destruct (urlparse url) as [parsed|e]; [|discriminate]. injection Hbase as Hbase.
  rewrite Hbase. unfold bind at 1, gets. rewrite Hentry.
  unfold bind at 1, ret. unfold bind at 1. rewrite Hentry.
  destruct rp; reflexivity.
Qed.

(** A thread that runs with no other thread about does what the function
    does when it is called. *)
Lemma thread_alone url user_agent s :
  exists es,
    run Parser urlparse read can_fetch es (mkPool s [Started url user_agent])
      = Some (mkPool (snd (allowed_by_robots Parser urlparse read can_fetch url user_agent s))
                     [Returned
                        (fst (allowed_by_robots Parser urlparse read can_fetch
                                url user_agent s))]).
Proof.
  destruct (base_of url) as [base_url|] eqn:Hbase.
  - destruct (_robot_parsers s !! base_url) as [rp|] eqn:Hentry.
    + exists [0; 0]. rewrite (allowed_cached url user_agent s base_url rp Hbase Hentry).
      unfold base_of in Hbase. cbn [run step calls shared lookup list_lookup].
      destruct (urlparse url) as [parsed|e]; [|discriminate]. injection Hbase as Hbase.
      rewrite Hbase, Hentry. cbn. rewrite Hentry. reflexivity.
    + exists [0; 0; 0]. rewrite (allowed_new url user_agent s base_url Hbase Hentry).
      unfold base_of in Hbase. cbn [run step calls shared lookup list_lookup].
      destruct (urlparse url) as [parsed|e]; [|discriminate]. injection Hbase as Hbase.
      rewrite Hbase, Hentry. cbn. rewrite lookup_insert_eq. reflexivity.
  - exists [0]. unfold base_of in Hbase. unfold allowed_by_robots, bind at 1, lift.
    cbn [run step calls shared lookup list_lookup].
    destruct (urlparse url) as [parsed|e]; [discriminate|]. reflexivity.
Qed.

(** *** Calls that overlap *)

Section Overlap.
(** One site, what is known of its entry, and the verdict that follows. *)
Variable base_url : string.
Variable entry_ok : option (option Parser) -> Prop.
Variable expected : string -> string -> bool.
Hypothesis ruling_expected :
  forall entry user_agent url, entry_ok entry -> ruling entry user_agent url = expected user_agent url.
Hypothesis load_ok :
  entry_ok None -> forall n, entry_ok (Some (read n (base_url ++ "/robots.txt"))).

(** How far a call that began as [Started url user_agent] has come. *)
Definition traces (url user_agent : string) (c : Call) : Prop :=
  match c with
  | Started u a => u = url /\ a = user_agent
  | Reading u a b _ | Loaded u a b => u = url /\ a = user_agent /\ base_of url = Some b
  | Returned r => base_of url = Some base_url -> r = Ok (expected user_agent url)
  end.

Record overlap_inv (p0 p : Pool Parser) : Prop := mk_overlap {
  inv_entry : entry_ok (_robot_parsers (shared p) !! base_url);
  inv_readers : forall i url user_agent n,
    calls p !! i = Some (Reading url user_agent base_url n) ->
    entry_ok (Some (read n (base_url ++ "/robots.txt")));
  inv_reads : exists new,
    reads (shared p) = (new ++ reads (shared p0))%list
    /\ Forall (fun u => exists b, u = b ++ "/robots.txt" /\ (b = base_url -> entry_ok None)) new;
  inv_calls : forall i url user_agent c,
    calls p0 !! i = Some (Started url user_agent) ->
    calls p !! i = Some c ->
    traces url user_agent c
}.

Lemma overlap_start p :
  entry_ok (_robot_parsers (shared p) !! base_url) ->
  (forall i url user_agent n,
     calls p !! i = Some (Reading url user_agent base_url n) ->
     entry_ok (Some (read n (base_url ++ "/robots.txt")))) ->
  overlap_inv p p.
Proof.
  intros Hentry Hreaders. split; [exact Hentry|exact Hreaders| |].
  - exists []. split; [reflexivity|constructor].
  - intros i url user_agent c H0 H1. rewrite H0 in H1. injection H1 as <-. cbn. auto.
Qed.

(** The calls after thread [i] has moved to [c']. *)
Lemma moved_calls (p0 : Pool Parser) (cs : list Call) i c c' :
  cs !! i = Some c ->
  (forall url user_agent, traces url user_agent c -> traces url user_agent c') ->
  (forall j url user_agent d,
     calls p0 !! j = Some (Started url user_agent) -> cs !! j = Some d ->
     traces url user_agent d) ->
  forall j url user_agent d,
    calls p0 !! j = Some (Started url user_agent) -> <[i := c']> cs !! j = Some d ->
    traces url user_agent d.
Proof.
  intros Hi Hmove Hcalls j url user_agent d H0 Hj.
  destruct (decide (i = j)) as [->|Hne].
  - rewrite list_lookup_insert_eq in Hj by (eapply lookup_lt_Some; exact Hi).
    injection Hj as <-. apply Hmove. eapply Hcalls; eauto.
  - rewrite list_lookup_insert_ne in Hj by exact Hne. eapply Hcalls; eauto.
Qed.

Lemma moved_readers (cs : list Call) i c c' :
  cs !! i = Some c ->
  (forall url user_agent n, c' = Reading url user_agent base_url n ->
     entry_ok (Some (read n (base_url ++ "/robots.txt")))) ->
  (forall j url user_agent n,
     cs !! j = Some (Reading url user_agent base_url n) ->
     entry_ok (Some (read n (base_url ++ "/robots.txt")))) ->
  forall j url user_agent n,
    <[i := c']> cs !! j = Some (Reading url user_agent base_url n) ->
    entry_ok (Some (read n (base_url ++ "/robots.txt"))).
Proof.
  intros Hi Hnew Hreaders j url user_agent n Hj.
  destruct (decide (i = j)) as [->|Hne].
  - rewrite list_lookup_insert_eq in Hj by (eapply lookup_lt_Some; exact Hi).
    injection Hj as ->. eapply Hnew. reflexivity.
  - rewrite list_lookup_insert_ne in Hj by exact Hne. eapply Hreaders; eauto.
Qed.

Lemma overlap_step p0 p i p' :
  overlap_inv p0 p ->
  step Parser urlparse read can_fetch i p = Some p' ->
  overlap_inv p0 p'.
Proof.
  intros [Hentry Hreaders Hreads Hcalls] Hstep. unfold step in Hstep.
  destruct (calls p !! i) as [[url ua|url ua b n|url ua b|r]|] eqn:Hi; try discriminate.
  - (* the membership test *)
    destruct (urlparse url) as [parsed|e] eqn:Hparse.
    + cbv zeta in Hstep. set (b := fst parsed ++ "://" ++ snd parsed) in *.
      assert (Hbase : forall u, u = url -> base_of u = Some b).
      { intros u ->. unfold base_of. rewrite Hparse. reflexivity. }
      destruct (_robot_parsers (shared p) !! b) as [seen|] eqn:Hseen;
        injection Hstep as <-; split; cbn [shared calls _robot_parsers reads].
      * exact Hentry.
      * eapply moved_readers; [exact Hi| |exact Hreaders]. intros; discriminate.
      * exact Hreads.
      * eapply moved_calls; [exact Hi| |exact Hcalls].
        intros u a [<- <-]. cbn. auto.
      * exact Hentry.
      * eapply moved_readers; [exact Hi| |exact Hreaders].
        intros u a n [= _ _ Hb _]. apply load_ok. rewrite Hb in Hseen.
        rewrite Hseen in Hentry. exact Hentry.
      * destruct Hreads as (new & Hnew & Hall). exists ((b ++ "/robots.txt") :: new).
        split; [rewrite Hnew; reflexivity|]. constructor; [|exact Hall].
        exists b. split; [reflexivity|]. intros Hb. rewrite Hb in Hseen.
        rewrite Hseen in Hentry. exact Hentry.
      * eapply moved_calls; [exact Hi| |exact Hcalls].
        intros u a [<- <-]. cbn. auto.
    + injection Hstep as <-. split; cbn [shared calls]; [exact Hentry| |exact Hreads|].
      * eapply moved_readers; [exact Hi| |exact Hreaders]. intros; discriminate.
      * eapply moved_calls; [exact Hi| |exact Hcalls].
        intros u a [<- <-]. cbn. unfold base_of. rewrite Hparse. discriminate.
  - (* the store that ends a load *)
    injection Hstep as <-. split; cbn [shared calls _robot_parsers reads].
    + destruct (decide (b = base_url)) as [->|Hne].
      * rewrite lookup_insert_eq. eapply Hreaders. exact Hi.
      * rewrite lookup_insert_ne by exact Hne. exact Hentry.
    + eapply moved_readers; [exact Hi| |exact Hreaders]. intros; discriminate.
    + exact Hreads.
    + eapply moved_calls; [exact Hi| |exact Hcalls]. intros u a H. exact H.
  - (* the lookup and the verdict *)
    injection Hstep as <-. split; cbn [shared calls]; [exact Hentry| |exact Hreads|].
    + eapply moved_readers; [exact Hi| |exact Hreaders]. intros; discriminate.
    + eapply moved_calls; [exact Hi| |exact Hcalls].
      intros u a (<- & <- & Hbase). cbn. intros Hsite.
      assert (b = base_url) as -> by congruence.
      f_equal. apply (ruling_expected _ ua url Hentry).
Qed.

Lemma overlap_run p0 es : forall p p',
  overlap_inv p0 p ->
  run Parser urlparse read can_fetch es p = Some p' ->
  overlap_inv p0 p'.
Proof.
  induction es as [|i es IH]; intros p p' Hinv Hrun.
  - injection Hrun as <-. exact Hinv.
  - cbn [run] in Hrun.
    destruct (step Parser urlparse read can_fetch i p) as [p1|] eqn:Hstep; [|discriminate].
    eapply IH; [|exact Hrun]. eapply overlap_step; eauto.
Qed.

End Overlap.

(** X6. Once a site has its entry, robots.txt of that site is never read
    again and the entry never changes, however the calls overlap: from a
    state where the site has an entry and no thread is in the middle of
    reading its robots.txt -- the state a first call leaves when it has
    returned -- every schedule of the threads keeps the entry, requests
    only the robots.txt of other sites, and gives to every call for a URL
    of the site the verdict of that entry. The rules never expire. *)
Theorem robots_read_once (base_url : string) (rp : option Parser) (es : list nat)
    (p p' : Pool Parser) :
  _robot_parsers (shared p) !! base_url = Some rp ->
  (forall i url user_agent n, calls p !! i <> Some (Reading url user_agent base_url n)) ->
  run Parser urlparse read can_fetch es p = Some p' ->
  _robot_parsers (shared p') !! base_url = Some rp
  /\ (exists new,
        reads (shared p') = (new ++ reads (shared p))%list
        /\ Forall (fun u => exists b, u = b ++ "/robots.txt" /\ b <> base_url) new)
  /\ forall i url user_agent r,
       calls p !! i = Some (Started url user_agent) ->
       base_of url = Some base_url ->
       calls p' !! i = Some (Returned r) ->
       r = Ok (ruling (Some rp) user_agent url).
Proof.
  intros Hentry Hnone Hrun.
  assert (Hinv : overlap_inv base_url (fun e => e = Some rp)
                   (fun ua url => ruling (Some rp) ua url) p p').
  { eapply overlap_run; [| |eapply overlap_start|exact Hrun].
    - intros e ua url ->. reflexivity.
    - discriminate.
    - exact Hentry.
    - intros i url ua n Hi. destruct (Hnone i url ua n Hi). }
  destruct Hinv as [Hentry' _ (new & Hnew & Hall) Hcalls].
  split; [exact Hentry'|]. split.
  - exists new. split; [exact Hnew|]. eapply Forall_impl; [exact Hall|].
    intros u (b & -> & Hb). exists b. split; [reflexivity|]. intros ->.
    specialize (Hb eq_refl). discriminate.
  - intros i url ua r H0 Hbase Hi. exact (Hcalls i url ua _ H0 Hi Hbase).
Qed.

(** X7. A robots.txt that cannot be read allows everything, however the
    calls overlap: when every read of the robots.txt of a site raises and
    the site has no parser yet, every call for a URL of the site answers
    [True], for every agent and on every schedule of the threads, and the
    site never gets a parser. *)
Theorem robots_unreadable_allows (base_url : string) (es : list nat) (p p' : Pool Parser) :
  (forall n, read n (base_url ++ "/robots.txt") = None) ->
  (_robot_parsers (shared p) !! base_url = None
   \/ _robot_parsers (shared p) !! base_url = Some None) ->
  run Parser urlparse read can_fetch es p = Some p' ->
  (_robot_parsers (shared p') !! base_url = None
   \/ _robot_parsers (shared p') !! base_url = Some None)
  /\ forall i url user_agent r,
       calls p !! i = Some (Started url user_agent) ->
       base_of url = Some base_url ->
       calls p' !! i = Some (Returned r) ->
       r = Ok true.
Proof.
  intros Hread Hentry Hrun.
  assert (Hinv : overlap_inv base_url (fun e => e = None \/ e = Some None)
                   (fun _ _ => true) p p').
  { eapply overlap_run; [| |eapply overlap_start|exact Hrun].
    - intros e ua url [->| ->]; reflexivity.
    - intros _ n. right. rewrite Hread. reflexivity.
    - exact Hentry.
    - intros i url ua n _. right. rewrite Hread. reflexivity. }
  destruct Hinv as [Hentry' _ _ Hcalls].
  split; [exact Hentry'|].
  intros i url ua r H0 Hbase Hi. exact (Hcalls i url ua _ H0 Hi Hbase).
Qed.

End RobotsSpec.

(** *** Concrete robots.txt *)

(** A parser is the list of the path prefixes it disallows; every URL is
    split into the scheme [https] and the host [example.org]. *)
Definition one_site (url : string) : Res (string * string) := Ok ("https", "example.org").

Definition disallows (rp : list string) (user_agent url : string) : bool :=
  negb (existsb (fun prefix => String.prefix prefix url) rp).

(** The first read gives the rules, every later read would give none. *)
Definition first_read (n : nat) (robots_url : string) : option (list string) :=
  match n with
  | O => Some ["https://example.org/private"]
  | _ => Some []
  end.

Definition no_read (n : nat) (robots_url : string) : option (list string) := None.

Definition nothing_seen : Robots.State (list string) := Robots.mkState ∅ [].

(** The state a first call for the site leaves once it has returned. *)
Definition rules_loaded : Robots.State (list string) :=
  snd (Robots.allowed_by_robots (list string) one_site first_read disallows
         "https://example.org/" "fast-web-search" nothing_seen).

(** Two calls for the site, not yet started. *)
Definition two_calls : list Robots.Call :=
  [Robots.Started "https://example.org/private/a" "fast-web-search";
   Robots.Started "https://example.org/b" "other-agent"].

(** Two first calls that overlap both read robots.txt, and the rules that
    the slower read leaves replace those of the faster: the site is read
    once only when its first call has returned before the next begins. *)
Lemma overlapping_first_calls_read_twice :
  exists p',
    Robots.run (list string) one_site first_read disallows [0; 1; 0; 1; 0; 1]
      (Robots.mkPool nothing_seen two_calls) = Some p'
    /\ Robots.reads (Robots.shared p')
       = ["https://example.org/robots.txt"; "https://example.org/robots.txt"]
    /\ Robots._robot_parsers (Robots.shared p') !! "https://example.org" = Some (Some [])
    /\ Robots.calls p' = [Robots.Returned (Ok true); Robots.Returned (Ok true)].
Proof.
  eexists. split; [vm_compute; reflexivity|]. cbn [Robots.shared Robots.reads Robots.calls].
  split; [reflexivity|]. split; [|reflexivity]. vm_compute. reflexivity.
Qed.

(** X6 on a concrete input. After a first call that has returned, two
    overlapping calls read nothing, and the rules read by the first call
    decide both. *)
Lemma robots_read_once_witness :
  Robots.run (list string) one_site first_read disallows [0; 1; 0; 1]
    (Robots.mkPool rules_loaded two_calls)
    = Some (Robots.mkPool rules_loaded
              [Robots.Returned (Ok false); Robots.Returned (Ok true)])
  /\ Robots._robot_parsers rules_loaded !! "https://example.org"
     = Some (Some ["https://example.org/private"])
  /\ Robots.reads rules_loaded = ["https://example.org/robots.txt"].
Proof.
  assert (Hrun : Robots.run (list string) one_site first_read disallows [0; 1; 0; 1]
                   (Robots.mkPool rules_loaded two_calls)
                 = Some (Robots.mkPool rules_loaded
                           [Robots.Returned (Ok false); Robots.Returned (Ok true)])).
  { vm_compute. reflexivity. }
  destruct (robots_read_once (list string) one_site first_read disallows
              "https://example.org" (Some ["https://example.org/private"])
              [0; 1; 0; 1] (Robots.mkPool rules_loaded two_calls)
              (Robots.mkPool rules_loaded
                 [Robots.Returned (Ok false); Robots.Returned (Ok true)]))
    as (Hentry & _ & _).
  - vm_compute. reflexivity.
  - intros [|[|i]] url user_agent n; discriminate.
  - exact Hrun.
  - split; [exact Hrun|]. split; [exact Hentry|]. reflexivity.
Defined.

(** The state two overlapping first calls leave when no read succeeds. *)
Definition nothing_read : Robots.State (list string) :=
  Robots.mkState (<["https://example.org" := None]> ∅)
    ["https://example.org/robots.txt"; "https://example.org/robots.txt"].

(** X7 on a concrete input. robots.txt cannot be read: two overlapping
    first calls both try, and the private page is allowed. *)
Lemma robots_unreadable_allows_witness :
  Robots.run (list string) one_site no_read disallows [0; 1; 0; 1; 0; 1]
    (Robots.mkPool nothing_seen two_calls)
    = Some (Robots.mkPool nothing_read
              [Robots.Returned (Ok true); Robots.Returned (Ok true)])
  /\ (Robots._robot_parsers nothing_read !! "https://example.org" = None
      \/ Robots._robot_parsers nothing_read !! "https://example.org" = Some None).
Proof.
  assert (Hrun : Robots.run (list string) one_site no_read disallows [0; 1; 0; 1; 0; 1]
                   (Robots.mkPool nothing_seen two_calls)
                 = Some (Robots.mkPool nothing_read
                           [Robots.Returned (Ok true); Robots.Returned (Ok true)])).
  { vm_compute. reflexivity. }
  destruct (robots_unreadable_allows (list string) one_site no_read disallows
              "https://example.org" [0; 1; 0; 1; 0; 1]
              (Robots.mkPool nothing_seen two_calls)
              (Robots.mkPool nothing_read
                 [Robots.Returned (Ok true); Robots.Returned (Ok true)])
              (fun _ => eq_refl) (or_introl eq_refl) Hrun) as [Hentry _].
  split; [exact Hrun|exact Hentry].
Defined.

(** ** scraper.py : more on the content cache *)

Section CacheUse.
Import Scraper WebScraper.
Variable clock : nat -> Z.
Variable transport : nat -> Response.
Variable get_text : string -> string.

(** X8. [use_cache=False] skips the reading of the cache, not the writing:
    with a connection permit free, the call sends its request even when a
    fresh entry stands, and a 200 answer replaces the entry, so that later
    cached calls see the new page. *)
Theorem uncached_call_overwrites (url : string) (proxy : option Proxy.t) (s : State)
    (html : string) :
  0 < semaphore (self s) ->
  transport (length (requests s)) = Responded 200 html ->
  exists s',
    get_page_content clock transport get_text url proxy false s
      = (Some (Ok (get_text html)), s')
    /\ requests s' = (url, option_map Proxy.proxy_url proxy) :: requests s
    /\ cache (self s')
       = <[url := (get_text html, clock (clock_reads s))]> (cache (self s)).
Proof.
  intros Hfree Hresp.
  rewrite (get_page_content_miss clock transport get_text url proxy false s s)
    by (apply cache_probe_absent; left; reflexivity).
  rewrite (miss_eq clock transport get_text url proxy s Hfree). cbv zeta.
  rewrite Hresp. cbn [Z.eqb Pos.eqb].
  eexists. split; [reflexivity|]. split; reflexivity.
Qed.

(** X9. After [clear_cache] nothing is served from the cache: the cache is
    empty, and a cached call for any URL, with a connection permit free,
    sends its request. *)
Theorem clear_cache_forgets (url : string) (proxy : option Proxy.t) (s : State) :
  0 < semaphore (self s) ->
  fst (clear_cache s) = Ok tt
  /\ cache (self (snd (clear_cache s))) = ∅
  /\ exists r s',
       get_page_content clock transport get_text url proxy true (snd (clear_cache s))
         = (Some r, s')
       /\ requests s' = (url, option_map Proxy.proxy_url proxy) :: requests s.
Proof.
  intros Hfree. split; [reflexivity|]. split; [reflexivity|].
  rewrite (get_page_content_miss clock transport get_text url proxy true
             (snd (clear_cache s)) (snd (clear_cache s)))
    by (apply cache_probe_absent; right; apply lookup_empty).
  rewrite (miss_eq clock transport get_text url proxy (snd (clear_cache s)) Hfree).
  cbv zeta. cbn [clear_cache modify snd with_cache requests].
  destruct (transport (length (requests s))) as [status html|msg].
  - destruct (status =? 200)%Z; eexists _, _; split; reflexivity.
  - eexists _, _; split; reflexivity.
Qed.

(** The state a call leaves, whatever it does: the requests, the cache
    and the rest of the object. *)
Lemma get_page_content_state url proxy use_cache s :
  let s' := snd (get_page_content clock transport get_text url proxy use_cache s) in
  cache_ttl (self s') = cache_ttl (self s)
  /\ max_connections (self s') = max_connections (self s)
  /\ semaphore (self s') = semaphore (self s)
  /\ (cache (self s') = cache (self s)
      \/ exists html,
           transport (length (requests s)) = Responded 200 html
           /\ 0 < semaphore (self s)
           /\ requests s' = (url, option_map Proxy.proxy_url proxy) :: requests s
           /\ exists t, cache (self s') = <[url := (get_text html, t)]> (cache (self s))).
Proof.
  cbv zeta.
  destruct (get_page_content_cases clock transport get_text url proxy use_cache s)
    as [(c & st & _ & _ & _ & _ & ->)|[(c & st & _ & _ & _ & ->)|(s0 & Hs0 & ->)]].
  - cbn. auto.
  - cbn. auto.
  - assert (Hself : self s0 = self s) by (destruct Hs0 as [->| ->]; reflexivity).
    assert (Hreq : requests s0 = requests s) by (destruct Hs0 as [->| ->]; reflexivity).
    destruct (semaphore (self s0)) as [|free] eqn:Hsem.
    + rewrite (miss_waits clock transport get_text _ _ _ Hsem). cbn. rewrite Hself. auto.
    + rewrite miss_eq by lia. cbv zeta. rewrite Hreq, Hself.
      rewrite Hself in Hsem.
      destruct (transport (length (requests s))) as [status html|msg]; [|cbn; auto].
      destruct (Z.eqb_spec status 200) as [->|Hne]; [|cbn; auto].
      cbn [snd self cache cache_ttl max_connections semaphore requests].
      split; [reflexivity|]. split; [reflexivity|]. split; [reflexivity|]. right.
      exists html. split; [reflexivity|]. split; [lia|]. split; [reflexivity|].
      eexists. reflexivity.
Qed.

(** X10. The cache only accumulates. Whatever a call does, it changes no
    entry but the one of its own URL, removes none -- an expired entry stays
    until a later fetch of its URL replaces it -- and leaves the TTL as it
    was. *)
Theorem cache_only_accumulates (url u : string) (proxy : option Proxy.t)
    (use_cache : bool) (s : State) :
  let s' := snd (get_page_content clock transport get_text url proxy use_cache s) in
  (u <> url -> cache (self s') !! u = cache (self s) !! u)
  /\ (is_Some (cache (self s) !! u) -> is_Some (cache (self s') !! u))
  /\ cache_ttl (self s') = cache_ttl (self s).
Proof.
  cbv zeta.
  destruct (get_page_content_state url proxy use_cache s)
    as (Httl & _ & _ & [->|(html & _ & _ & _ & t & ->)]).
  - auto.
  - split; [|split; [|exact Httl]].
    + intros Hne. apply lookup_insert_ne. congruence.
    + intros Hsome. destruct (decide (url = u)) as [->|Hne].
      * rewrite lookup_insert_eq. eauto.
      * rewrite lookup_insert_ne by exact Hne. exact Hsome.
Qed.

(** X11. With a TTL of zero (or below, down to what a [timedelta] can
    hold) the cache is written and never read: while the clock does not
    run backwards past the time an entry was stored at, every call sends
    its request, a connection permit being free. *)
Theorem zero_ttl_never_hits (url : string) (proxy : option Proxy.t)
    (use_cache : bool) (s : State) :
  (cache_ttl (self s) <= 0)%Z ->
  representable (cache_ttl (self s)) ->
  0 < semaphore (self s) ->
  (forall content stored_at,
     cache (self s) !! url = Some (content, stored_at) ->
     (stored_at <= clock (clock_reads s))%Z) ->
  exists r s',
    get_page_content clock transport get_text url proxy use_cache s = (Some r, s')
    /\ requests s' = (url, option_map Proxy.proxy_url proxy) :: requests s.
Proof.
  intros Httl Hrange Hfree Hpast.
  destruct (get_page_content_cases clock transport get_text url proxy use_cache s)
    as [(c & st & _ & Hentry & _ & Hfresh & _)|[(c & st & _ & _ & Hout & _)|(s0 & Hs0 & ->)]].
  - specialize (Hpast c st Hentry). lia.
  - contradiction.
  - assert (Hself : self s0 = self s) by (destruct Hs0 as [->| ->]; reflexivity).
    assert (Hreq : requests s0 = requests s) by (destruct Hs0 as [->| ->]; reflexivity).
    rewrite miss_eq by (rewrite Hself; exact Hfree). cbv zeta. rewrite Hreq.
    destruct (transport (length (requests s))) as [status html|msg].
    + destruct (status =? 200)%Z; eexists _, _; split; reflexivity.
    + eexists _, _; split; reflexivity.
Qed.

(** X12. One call, at most one request, and two kinds of error. A call
    either sends nothing or sends one request for its URL, with no retry.
    When it raises after its request, it raises [ClientError] with a
    message that starts with [Failed to fetch <url>: ] -- for a status other
    than 200 the message goes on with [HTTP <status>]. When it raises
    without a request, it raises the [OverflowError] of
    [timedelta(seconds=self.cache_ttl)], which is built outside the [try]:
    that happens exactly on a cached call for a URL that has an entry, with
    a TTL that a [timedelta] cannot hold. *)
Theorem get_page_content_errors (url : string) (proxy : option Proxy.t)
    (use_cache : bool) (s : State) :
  let call := get_page_content clock transport get_text url proxy use_cache s in
  (requests (snd call) = requests s
   \/ requests (snd call) = (url, option_map Proxy.proxy_url proxy) :: requests s)
  /\ (forall e, fst call = Some (Raise e) ->
        (e = OverflowError /\ requests (snd call) = requests s)
        \/ (requests (snd call) = (url, option_map Proxy.proxy_url proxy) :: requests s
            /\ exists reason,
                 e = ClientError ("Failed to fetch " ++ url ++ ": " ++ reason)
                 /\ forall status html,
                      transport (length (requests s)) = Responded status html ->
                      reason = "HTTP " ++ pretty status))
  /\ (fst call = Some (Raise OverflowError)
      <-> use_cache = true /\ is_Some (cache (self s) !! url)
          /\ ~ representable (cache_ttl (self s))).
Proof.
  cbv zeta.
  destruct (get_page_content_cases clock transport get_text url proxy use_cache s)
    as [(c & st & Huse & Hentry & Hrange & _ & ->)
       |[(c & st & Huse & Hentry & Hout & ->)|(s0 & Hs0 & Hcall)]].
  - cbn. split; [auto|]. split; [intros e [=]|].
    split; [intros [=]|]. intros (_ & _ & Hout). contradiction.
  - cbn. split; [auto|]. split; [intros e [= <-]; auto|].
    split; [|reflexivity]. intros _. rewrite Hentry. eauto.
  - assert (Hno : use_cache = true /\ is_Some (cache (self s) !! url)
                  /\ ~ representable (cache_ttl (self s)) ->
                  fst (get_page_content clock transport get_text url proxy use_cache s)
                    = Some (Raise OverflowError)).
    { intros (-> & [[c st] Hentry] & Hout). unfold get_page_content.
      rewrite (cache_probe_overflow clock url c st s Hentry Hout). reflexivity. }
    rewrite Hcall in *.
    assert (Hself : self s0 = self s) by (destruct Hs0 as [->| ->]; reflexivity).
    assert (Hreq : requests s0 = requests s) by (destruct Hs0 as [->| ->]; reflexivity).
    destruct (semaphore (self s0)) as [|free] eqn:Hsem.
    + rewrite (miss_waits clock transport get_text _ _ _ Hsem) in *. cbn [fst snd] in *.
      cbn [with_session requests]. rewrite Hreq. split; [auto|].
      split; [intros e [=]|]. split; [intros [=]|exact Hno].
    + rewrite miss_eq in * by lia. cbv zeta in *. rewrite Hreq in *.
      destruct (transport (length (requests s))) as [status html|msg].
      * destruct (status =? 200)%Z; cbn [fst snd requests] in *.
        -- split; [auto|]. split; [intros e [=]|]. split; [intros [=]|exact Hno].
        -- split; [auto|]. split.
           ++ intros e [= <-]. right. split; [reflexivity|]. eexists.
              split; [reflexivity|]. intros status' html' [= <- _]. reflexivity.
           ++ split; [intros [=]|exact Hno].
      * cbn [fst snd requests] in *. split; [auto|]. split.
        -- intros e [= <-]. right. split; [reflexivity|]. eexists.
           split; [reflexivity|]. intros status html [=].
        -- split; [intros [=]|exact Hno].
Qed.

(** X27. The semaphore of the scraper. A call gives back the permit it
    took, however it ends: the number of free permits is the same after
    it. With no permit free -- a scraper built with [max_connections=0] --
    a call that misses the cache waits at [async with self.semaphore] with
    its request not sent, while what the cache still holds is served as
    before: the semaphore guards the requests only. *)
Theorem semaphore_guards_requests (url : string) (proxy : option Proxy.t)
    (use_cache : bool) (s : State) :
  let call := get_page_content clock transport get_text url proxy use_cache s in
  semaphore (self (snd call)) = semaphore (self s)
  /\ (semaphore (self s) = 0 ->
      requests (snd call) = requests s
      /\ cache (self (snd call)) = cache (self s)
      /\ (fst call = None
          \/ fst call = Some (Raise OverflowError)
          \/ exists content stored_at,
               use_cache = true
               /\ cache (self s) !! url = Some (content, stored_at)
               /\ (clock (clock_reads s) - stored_at < cache_ttl (self s) * 1000000)%Z
               /\ fst call = Some (Ok content)))
  /\ (fst call = None -> semaphore (self s) = 0 /\ session (self (snd call)) = true).
Proof.
  cbv zeta. split.
  { apply (get_page_content_state url proxy use_cache s). }
  destruct (get_page_content_cases clock transport get_text url proxy use_cache s)
    as [(c & st & Huse & Hentry & Hrange & Hfresh & ->)
       |[(c & st & _ & _ & _ & ->)|(s0 & Hs0 & ->)]].
  - cbn. split; [|intros [=]]. intros _. split; [reflexivity|]. split; [reflexivity|].
    right; right. exists c, st. auto.
  - cbn. split; [|intros [=]]. auto.
  - assert (Hself : self s0 = self s) by (destruct Hs0 as [->| ->]; reflexivity).
    assert (Hreq : requests s0 = requests s) by (destruct Hs0 as [->| ->]; reflexivity).
    destruct (semaphore (self s0)) as [|free] eqn:Hsem.
    + rewrite (miss_waits clock transport get_text _ _ _ Hsem). cbn.
      rewrite Hreq, Hself. rewrite Hself in Hsem. auto.
    + rewrite Hself in Hsem. split; [intros H0; rewrite H0 in Hsem; discriminate|].
      rewrite miss_eq by (rewrite Hself; lia). cbv zeta.
      destruct (transport (length (requests s0))) as [status html|msg].
      * destruct (status =? 200)%Z; cbn; intros [=].
      * cbn; intros [=].
Qed.

End CacheUse.

(** *** Concrete scrapers *)

(** X8 on a concrete input. An uncached call a second after the first fetch:
    a second request, and the entry stamped anew. *)
Lemma uncached_call_overwrites_witness :
  exists s',
    WebScraper.get_page_content second_clock (fun _ => Scraper.Responded 200 "hello")
        id "https://example.org/" None false after_first_fetch = (Some (Ok "hello"), s')
    /\ WebScraper.requests s'
       = ("https://example.org/", None) :: WebScraper.requests after_first_fetch
    /\ WebScraper.cache (WebScraper.self s')
       = <["https://example.org/" := ("hello", 1000000%Z)]>
           (WebScraper.cache (WebScraper.self after_first_fetch)).
Proof.
  apply (uncached_call_overwrites second_clock (fun _ => Scraper.Responded 200 "hello")
           id "https://example.org/" None after_first_fetch "hello").
  - vm_compute. lia.
  - reflexivity.
Defined.

(** X9 on a concrete input. After [clear_cache] the page fetched a second
    ago is fetched again. *)
Lemma clear_cache_forgets_witness :
  exists r s',
    WebScraper.get_page_content second_clock (fun _ => Scraper.Responded 200 "hello")
        id "https://example.org/" None true (snd (WebScraper.clear_cache after_first_fetch))
      = (Some r, s')
    /\ WebScraper.requests s'
       = [("https://example.org/", None); ("https://example.org/", None)].
Proof.
  apply (clear_cache_forgets second_clock (fun _ => Scraper.Responded 200 "hello")
           id "https://example.org/" None after_first_fetch).
  vm_compute. lia.
Defined.

(** A scraper built with [cache_ttl=0], after a first fetch. *)
Definition no_ttl_after_fetch : WebScraper.State :=
  snd (WebScraper.get_page_content second_clock (fun _ => Scraper.Responded 200 "hello")
         id "https://example.org/" None true
         (WebScraper.mkState (WebScraper.__init__ 0 10) [] 0)).

(** X11 on a concrete input. The second call sends a second request. *)
Lemma zero_ttl_never_hits_witness :
  exists r s',
    WebScraper.get_page_content second_clock (fun _ => Scraper.Responded 200 "hello")
        id "https://example.org/" None true no_ttl_after_fetch = (Some r, s')
    /\ WebScraper.requests s'
       = [("https://example.org/", None); ("https://example.org/", None)].
Proof.
  apply (zero_ttl_never_hits second_clock (fun _ => Scraper.Responded 200 "hello")
           id "https://example.org/" None true no_ttl_after_fetch).
  - vm_compute. discriminate.
  - vm_compute. split; discriminate || reflexivity.
  - vm_compute. lia.
  - intros content stored_at Hentry. vm_compute in Hentry.
    injection Hentry as _ <-. vm_compute. discriminate.
Defined.

(** ** core.py : permits, rate limit and provider calls on every schedule *)

Section Schedules.
Import FastWebSearch.
Variable provider : nat -> ProviderOutcome.

(** X13. The semaphore holds on every schedule: at any point of a batch the
    searches inside [async with self.semaphore] and the free permits add up
    to [max_concurrent_searches], so at most that many run at once. *)
Theorem permits_conserved (t0 : Z) (k : nat) (r now : Z) (queries : list string)
    (es : list Event) (l : Loop) :
  run provider es (create_tasks (__init__ t0 k r) now queries) = Some l ->
  running l + semaphore (self l) = k /\ running l <= k.
Proof.
  intros Hrun.
  destruct (run_inv provider k r (length queries) es _ _
              (create_tasks_inv provider t0 k r now queries) Hrun) as [_ _ Hperm _ _].
  lia.
Qed.









(** Where every task stands when the rate limit is zero. *)
Definition never_called (l : Loop) : Prop :=
  rate_limit (self l) = 0%Z /\ admissions l = [] /\ finished l = []
  /\ forall i tk, tasks l !! i = Some tk -> tk = Pending \/ tk = Failed ZeroDivisionError.

Lemma never_called_step e l l' :
  never_called l -> step provider e l = Some l' -> never_called l'.
Proof.
  intros (Hrate & Hadm & Hfin & Htasks) Hstep.
  destruct e as [d|i|i|i]; cbn in Hstep.
  - injection Hstep as <-. repeat split; auto.
  - destruct (tasks l !! i) as [tk|] eqn:Hi; [|discriminate].
    destruct tk; try discriminate.
    destruct (semaphore (self l)); [discriminate|].
    rewrite Hrate in Hstep. cbn in Hstep. injection Hstep as <-.
    repeat split; auto. cbn. intros j tk Hj.
    apply lookup_insert_task in Hj as [[_ ->]|[_ Hj]]; eauto.
  - destruct (tasks l !! i) as [tk|] eqn:Hi; [|discriminate].
    destruct (Htasks i tk Hi) as [-> | ->]; discriminate.
  - destruct (tasks l !! i) as [tk|] eqn:Hi; [|discriminate].
    destruct (Htasks i tk Hi) as [-> | ->]; discriminate.
Qed.

Lemma never_called_run es : forall l l',
  never_called l -> run provider es l = Some l' -> never_called l'.
Proof.
  induction es as [|e es IH]; intros l l' Hinv Hrun; cbn in Hrun.
  - injection Hrun as <-. exact Hinv.
  - destruct (step provider e l) as [l1|] eqn:Hstep; [|discriminate].
    eapply IH; [|exact Hrun]. eapply never_called_step; eauto.
Qed.

(** [gather] over tasks that are pending or failed: the exception, once
    one has failed. *)
Lemma gather_failed (e : exn) (ts : list Task) :
  (forall i tk, ts !! i = Some tk -> tk = Pending \/ tk = Failed e) ->
  (exists i, ts !! i = Some (Failed e)) ->
  gather ts = Some (Raise e).
Proof.
  induction ts as [|tk ts IH]; intros Hall [i Hi].
  - rewrite lookup_nil in Hi. discriminate.
  - destruct (Hall 0 tk eq_refl) as [-> | ->]; [|reflexivity].
    destruct i as [|i]; [discriminate|]. cbn [gather]. rewrite IH; [reflexivity| |].
    + intros j tk Hj. apply (Hall (S j) tk Hj).
    + exists i. exact Hi.
Qed.

(** X15. A rate limit of zero fails every search before it reaches the
    provider: [1.0 / self.rate_limit] raises [ZeroDivisionError] in
    [_rate_limit], outside the [try] of [search]. On every schedule no
    search passes the gate or calls the provider, and as soon as one search
    has started [multi_search] raises [ZeroDivisionError]. *)
Theorem zero_rate_limit_raises (t0 : Z) (k : nat) (now : Z) (queries : list string)
    (es : list Event) (l : Loop) :
  run provider es (create_tasks (__init__ t0 k 0) now queries) = Some l ->
  admissions l = []
  /\ finished l = []
  /\ (forall i tk, tasks l !! i = Some tk -> tk = Pending \/ tk = Failed ZeroDivisionError)
  /\ ((exists i, tasks l !! i = Some (Failed ZeroDivisionError)) ->
      multi_search queries l = Some (Raise ZeroDivisionError)).
Proof.
  intros Hrun.
  destruct (never_called_run es (create_tasks (__init__ t0 k 0) now queries) l)
    as (_ & Hadm & Hfin & Htasks); [|exact Hrun|].
  { repeat split; auto. cbn. intros i tk Hi. rewrite list_lookup_fmap in Hi.
    destruct (queries !! i); cbn in Hi; [|discriminate]. left. congruence. }
  repeat split; auto. intros Hfailed. unfold multi_search.
  rewrite (gather_failed ZeroDivisionError (tasks l) Htasks Hfailed). reflexivity.
Qed.

(** X16. Without a permit nothing moves: built with [max_concurrent_searches
    = 0], a batch of at least one query stays as it was created on every
    schedule, and [multi_search] never returns. *)
Theorem no_permit_no_result (t0 r now : Z) (queries : list string)
    (es : list Event) (l : Loop) :
  queries <> [] ->
  run provider es (create_tasks (__init__ t0 0 r) now queries) = Some l ->
  tasks l = map (fun _ => Pending) queries
  /\ multi_search queries l = None.
Proof.
  intros Hne Hrun.
  assert (Hinv : semaphore (self l) = 0 /\ tasks l = map (fun _ => Pending) queries).
  { revert Hrun. generalize (eq_refl : semaphore (self (create_tasks (__init__ t0 0 r) now queries)) = 0).
    generalize (eq_refl : tasks (create_tasks (__init__ t0 0 r) now queries)
                          = map (fun _ => Pending) queries).
    generalize (create_tasks (__init__ t0 0 r) now queries).
    induction es as [|e es IH]; intros l0 Htasks Hsem Hrun; cbn in Hrun.
    - injection Hrun as <-. auto.
    - destruct (step provider e l0) as [l1|] eqn:Hstep; [|discriminate].
      assert (Hpending : forall i tk, tasks l0 !! i = Some tk -> tk = Pending).
      { intros i tk Hi. rewrite Htasks, list_lookup_fmap in Hi.
        destruct (queries !! i); cbn in Hi; congruence. }
      apply (IH l1); [| |exact Hrun]; destruct e as [d|i|i|i]; cbn in Hstep;
        try (injection Hstep as <-; assumption);
        destruct (tasks l0 !! i) as [tk|] eqn:Hi; try discriminate;
        rewrite (Hpending i tk Hi), ?Hsem in Hstep; discriminate. }
  destruct Hinv as [_ Htasks]. split; [exact Htasks|].
  unfold multi_search. rewrite Htasks.
  destruct queries as [|q qs]; [congruence|]. cbn [map gather].
  destruct (gather (map (fun _ => Pending) qs)) as [[results|e]|] eqn:Hrest; try reflexivity.
  exfalso. clear -Hrest. induction qs as [|q' qs IH]; [discriminate|].
  cbn [map gather] in Hrest.
  destruct (gather (map (fun _ => Pending) qs)) as [[results|e']|]; try discriminate.
  apply IH. congruence.
Qed.

(** The tasks that called the provider, and nothing twice. *)
Record calls_inv (l : Loop) : Prop := mk_calls {
  calls_nodup : NoDup (finished l);
  calls_done : forall i, i ∈ finished l <-> exists results, tasks l !! i = Some (Done results)
}.

Lemma calls_step e l l' :
  calls_inv l -> step provider e l = Some l' -> calls_inv l'.
Proof.
  intros [Hnodup Hdone] Hstep.
  destruct e as [d|i|i|i]; cbn in Hstep.
  - injection Hstep as <-. split; auto.
  - destruct (tasks l !! i) as [tk|] eqn:Hi; [|discriminate].
    destruct tk; try discriminate.
    destruct (semaphore (self l)); [discriminate|].
    assert (Hother : forall new, (forall results, new <> Done results) ->
              forall j, (exists results, <[i := new]> (tasks l) !! j = Some (Done results))
                        <-> exists results, tasks l !! j = Some (Done results)).
    { intros new Hnew j. split; intros [results Hj].
      - apply lookup_insert_task in Hj as [[_ Hj]|[_ Hj]]; [|eauto].
        exfalso. apply (Hnew results). congruence.
      - exists results. rewrite list_lookup_insert_ne; [exact Hj|]. congruence. }
    destruct (rate_limit (self l) =? 0)%Z; [|destruct (Qlt_bool _ _)];
      injection Hstep as <-; split; cbn; auto;
      intros j; rewrite Hdone; symmetry; apply Hother; discriminate.
  - destruct (tasks l !! i) as [tk|] eqn:Hi; [|discriminate].
    destruct tk; try discriminate.
    destruct (Qle_bool _ _); [|discriminate]. injection Hstep as <-.
    split; cbn; auto. intros j. rewrite Hdone. split; intros [results Hj].
    + exists results. rewrite list_lookup_insert_ne; [exact Hj|]. congruence.
    + apply lookup_insert_task in Hj as [[_ Hj]|[_ Hj]]; [discriminate|eauto].
  - destruct (tasks l !! i) as [tk|] eqn:Hi; [|discriminate].
    destruct tk; try discriminate.
    rewrite search_try_ok in Hstep. injection Hstep as <-.
    assert (Hnew : i ∉ finished l).
    { rewrite Hdone. intros [results Hj]. congruence. }
    split; cbn.
    + apply NoDup_cons. split; assumption.
    + intros j. rewrite elem_of_cons, Hdone. split.
      * intros [->|[results Hj]].
        -- eexists. apply list_lookup_insert_eq. eapply lookup_lt_Some. exact Hi.
        -- exists results. rewrite list_lookup_insert_ne; [exact Hj|]. congruence.
      * intros [results Hj].
        apply lookup_insert_task in Hj as [[-> _]|[_ Hj]]; [auto|eauto].
Qed.

Lemma calls_run es : forall l l',
  calls_inv l -> run provider es l = Some l' -> calls_inv l'.
Proof.
  induction es as [|e es IH]; intros l l' Hinv Hrun; cbn in Hrun.
  - injection Hrun as <-. exact Hinv.
  - destruct (step provider e l) as [l1|] eqn:Hstep; [|discriminate].
    eapply IH; [|exact Hrun]. eapply calls_step; eauto.
Qed.

(** X17. One provider call per query. In a batch run to completion with a
    non-zero rate limit, the provider has been called once for each position
    of the query list -- a query given twice is searched twice -- and never
    a second time for any. *)
Theorem each_query_searched_once (t0 : Z) (k : nat) (r now : Z) (queries : list string)
    (es : list Event) (l : Loop) :
  r <> 0%Z ->
  run provider es (create_tasks (__init__ t0 k r) now queries) = Some l ->
  complete l ->
  finished l ≡ₚ seq 0 (length queries).
Proof.
  intros Hr Hrun Hcomplete.
  destruct (run_inv provider k r (length queries) es _ _
              (create_tasks_inv provider t0 k r now queries) Hrun)
    as [Hlen _ _ _ Hfailed].
  destruct (calls_run es (create_tasks (__init__ t0 k r) now queries) l) as [Hnodup Hdone];
    [|exact Hrun|].
  { split; cbn; [constructor|]. intros i. split; [intros Hi; inversion Hi|].
    intros [results Hi]. rewrite list_lookup_fmap in Hi.
    destruct (queries !! i); discriminate. }
  apply NoDup_Permutation; [exact Hnodup|apply NoDup_ListNoDup, seq_NoDup|].
  intros i. rewrite Hdone, elem_of_seq. split.
  - intros [results Hi]. apply lookup_lt_Some in Hi. lia.
  - intros [_ Hi]. destruct (lookup_lt_is_Some_2 (tasks l) i) as [tk Htk]; [lia|].
    pose proof (complete_lookup l i tk Hcomplete Htk) as Hsettled.
    destruct tk; try discriminate; [eauto|].
    exfalso. apply Hr. eapply Hfailed. exact Htk.
Qed.

End Schedules.

(** *** Concrete schedules *)

(** X13 on a concrete input. The two tasks of the batch ["a"; "b"] inside
    the semaphore, both asleep in [_rate_limit]: two permits taken, three
    free. *)
Lemma permits_conserved_witness :
  FastWebSearch.running (batch_of a_returns [FastWebSearch.Enter 0; FastWebSearch.Enter 1])
    + FastWebSearch.semaphore
        (FastWebSearch.self
           (batch_of a_returns [FastWebSearch.Enter 0; FastWebSearch.Enter 1])) = 5
  /\ FastWebSearch.running (batch_of a_returns [FastWebSearch.Enter 0; FastWebSearch.Enter 1])
     <= 5.
Proof.
  apply (permits_conserved a_returns 0 5 10 0 ["a"; "b"]
           [FastWebSearch.Enter 0; FastWebSearch.Enter 1]).
  vm_compute. reflexivity.
Defined.





(** A searcher built with [rate_limit=0], after its first task has started. *)
Definition zero_rate_batch : FastWebSearch.Loop :=
  default (FastWebSearch.create_tasks (FastWebSearch.__init__ 0 5 0) 0 ["a"; "b"])
    (FastWebSearch.run a_returns [FastWebSearch.Enter 0]
       (FastWebSearch.create_tasks (FastWebSearch.__init__ 0 5 0) 0 ["a"; "b"])).

(** X15 on a concrete input. No admission, no provider call, and
    [ZeroDivisionError] for the batch. *)
Lemma zero_rate_limit_raises_witness :
  FastWebSearch.admissions zero_rate_batch = []
  /\ FastWebSearch.finished zero_rate_batch = []
  /\ FastWebSearch.multi_search ["a"; "b"] zero_rate_batch = Some (Raise ZeroDivisionError).
Proof.
  destruct (zero_rate_limit_raises a_returns 0 5 0 ["a"; "b"] [FastWebSearch.Enter 0]
              zero_rate_batch) as (Hadm & Hfin & _ & Hraise).
  - vm_compute. reflexivity.
  - split; [exact Hadm|]. split; [exact Hfin|]. apply Hraise. exists 0. reflexivity.
Defined.

(** A searcher built with [max_concurrent_searches=0], a second later. *)
Definition blocked_batch : FastWebSearch.Loop :=
  default (FastWebSearch.create_tasks (FastWebSearch.__init__ 0 0 10) 0 ["a"; "b"])
    (FastWebSearch.run a_returns [FastWebSearch.Tick 1000000]
       (FastWebSearch.create_tasks (FastWebSearch.__init__ 0 0 10) 0 ["a"; "b"])).

(** X16 on a concrete input. Both tasks are still pending and the batch has
    no result. *)
Lemma no_permit_no_result_witness :
  FastWebSearch.tasks blocked_batch = [FastWebSearch.Pending; FastWebSearch.Pending]
  /\ FastWebSearch.multi_search ["a"; "b"] blocked_batch = None.
Proof.
  apply (no_permit_no_result a_returns 0 10 0 ["a"; "b"] [FastWebSearch.Tick 1000000]).
  - discriminate.
  - vm_compute. reflexivity.
Defined.

(** X17 on a concrete input. The batch of the two equal queries: two
    provider calls. *)
Lemma each_query_searched_once_witness :
  FastWebSearch.finished after_duplicates ≡ₚ [0; 1].
Proof.
  apply (each_query_searched_once duplicate_provider 0 5 10 0 ["a"; "a"]
           first_finishes_last after_duplicates).
  - discriminate.
  - vm_compute. reflexivity.
  - vm_compute. reflexivity.
Defined.

(** ** proxies.py : construction, unknown proxies, repeated failures *)

Section ManagerEdges.
Import Scraper ProxyManager.
Variable tp_hash : option (Proxy.t -> Z).
Variable clock : nat -> Z.
Variable probe : nat -> Response.

Implicit Types (s : State) (p q : ref) (st : Stats).

Lemma find_entry_lt h hk k (d : list Entry) i :
  find_entry h hk k d = Some i -> i < length d.
Proof.
  revert i. induction d as [|e d IH]; intros i Hfind; cbn in Hfind; [discriminate|].
  destruct (_ && _).
  - injection Hfind as <-. cbn. lia.
  - destruct (find_entry h hk k d) as [j|]; [|discriminate].
    injection Hfind as <-. cbn. specialize (IH j eq_refl). lia.
Qed.

Lemma find_entry_app h hk k (d : list Entry) e :
  find_entry h hk k (d ++ [e])
    = match find_entry h hk k d with
      | Some i => Some i
      | None => if (entry_hash e =? hk)%Z && same h (entry_key e) k
                then Some (length d) else None
      end.
Proof.
  induction d as [|e' d IH]; cbn.
  - destruct (_ && _); reflexivity.
  - destruct ((entry_hash e' =? hk)%Z && same h (entry_key e') k); [reflexivity|].
    rewrite IH. destruct (find_entry h hk k d); [reflexivity|].
    destruct ((entry_hash e =? hk)%Z && same h (entry_key e) k); reflexivity.
Qed.

Lemma same_refl h p : same h p p = true.
Proof. unfold same. rewrite Nat.eqb_refl. reflexivity. Qed.

(** The dictionary while [__init__] fills it: every value is the fresh
    statistics. *)
Definition all_fresh (d : list Entry) : Prop :=
  forall i e, d !! i = Some e -> entry_value e = fresh_stats.

Lemma init_stats_spec (f : Proxy.t -> Z) (ps : list ref) : forall s,
  all_fresh (proxy_stats (self s)) ->
  exists d,
    init_stats (Some f) ps s = (Ok tt, with_stats s d)
    /\ all_fresh d
    /\ length d <= length (proxy_stats (self s)) + length ps
    /\ (forall p i, find_entry (heap s) (f (heap s p)) p (proxy_stats (self s)) = Some i ->
                    find_entry (heap s) (f (heap s p)) p d = Some i)
    /\ (forall p, p ∈ ps -> exists i, find_entry (heap s) (f (heap s p)) p d = Some i).
Proof.
  induction ps as [|p ps IH]; intros s Hfresh.
  - exists (proxy_stats (self s)). split; [destruct s as [h [] pr c]; reflexivity|].
    split; [exact Hfresh|]. split; [cbn; lia|]. split; [auto|].
    intros p Hp. inversion Hp.
  - cbn [init_stats]. unfold bind at 1, setitem, bind at 1, hash.
    destruct (find_entry (heap s) (f (heap s p)) p (proxy_stats (self s))) as [i|] eqn:Hfind.
    + (* an equal proxy is a key already: its entry is reset *)
      unfold put_stats, modify.
      set (d1 := alter (set_value fresh_stats) i (proxy_stats (self s))).
      assert (Hshape1 : map (fun e => (entry_hash e, entry_key e)) d1
                        = map (fun e => (entry_hash e, entry_key e)) (proxy_stats (self s))).
      { apply shape_alter. }
      destruct (IH (with_stats s d1)) as (d & Hrun & Hd & Hlen & Hkeep & Hall).
      { cbn. intros j e Hj. subst d1.
        destruct (decide (i = j)) as [->|Hne].
        - rewrite list_lookup_alter_eq in Hj.
          destruct (proxy_stats (self s) !! j); [|discriminate].
          injection Hj as <-. reflexivity.
        - rewrite list_lookup_alter_ne in Hj by exact Hne. eapply Hfresh. exact Hj. }
      exists d. split; [rewrite Hrun; reflexivity|]. split; [exact Hd|].
      cbn [with_stats with_self self proxy_stats heap] in Hlen, Hkeep, Hall.
      split.
      { subst d1. rewrite length_alter in Hlen. cbn. lia. }
      split.
      * intros q j Hq. apply Hkeep.
        rewrite (find_entry_shape _ _ _ _ _ Hshape1). exact Hq.
      * intros q Hq. apply elem_of_cons in Hq as [->|Hq]; [|apply Hall; exact Hq].
        exists i. apply Hkeep. rewrite (find_entry_shape _ _ _ _ _ Hshape1). exact Hfind.
    + (* a new key: its entry is appended *)
      set (d1 := (proxy_stats (self s) ++ [mkEntry (f (heap s p)) p fresh_stats])%list).
      destruct (IH (with_stats s d1)) as (d & Hrun & Hd & Hlen & Hkeep & Hall).
      { cbn. intros j e Hj. subst d1. apply lookup_app_Some in Hj as [Hj|[_ Hj]].
        - eapply Hfresh. exact Hj.
        - apply list_lookup_singleton_Some in Hj as [_ <-]. reflexivity. }
      exists d. split; [rewrite Hrun; reflexivity|]. split; [exact Hd|].
      cbn [with_stats with_self self proxy_stats heap] in Hlen, Hkeep, Hall.
      split.
      { subst d1. rewrite length_app in Hlen. cbn in Hlen |- *. lia. }
      split.
      * intros q j Hq. apply Hkeep. subst d1. rewrite find_entry_app, Hq. reflexivity.
      * intros q Hq. apply elem_of_cons in Hq as [->|Hq]; [|apply Hall; exact Hq].
        exists (length (proxy_stats (self s))). apply Hkeep. subst d1.
        rewrite find_entry_app, Hfind. cbn [entry_hash entry_key].
        rewrite Z.eqb_refl, same_refl. reflexivity.
Qed.

(** Whatever the proxy class, the constructor leaves no statistics but
    fresh ones. *)
Lemma init_all_fresh (slot : option (Proxy.t -> Z)) (h : ref -> Proxy.t)
    (ps : list ref) (timeout : Q) :
  all_fresh (proxy_stats (self (snd (__init__ slot h ps timeout)))).
Proof.
  assert (Hnil : all_fresh []).
  { intros i e Hi. rewrite lookup_nil in Hi. discriminate. }
  unfold __init__. destruct slot as [f|].
  - destruct (init_stats_spec f ps (mkState h (mk ps ps timeout []) [] 0))
      as (d & Hrun & Hfresh & _); [exact Hnil|].
    rewrite Hrun. exact Hfresh.
  - destruct ps as [|p ps]; exact Hnil.
Qed.

(** X18. With a hashable proxy class the constructor registers every proxy
    it is given: it returns, the working set is the whole list, nothing has
    been probed, and each proxy of the list has its statistics entry, with
    both counters at zero and no time recorded. Proxies that are equal share
    an entry, so the dictionary may be shorter than the list. *)
Theorem init_registers_every_proxy (f : Proxy.t -> Z) (h : ref -> Proxy.t)
    (ps : list ref) (timeout : Q) :
  exists s,
    __init__ (Some f) h ps timeout = (Ok tt, s)
    /\ heap s = h
    /\ proxies (self s) = ps
    /\ working_proxies (self s) = ps
    /\ probes s = []
    /\ length (proxy_stats (self s)) <= length ps
    /\ forall p, p ∈ ps -> exists i, registered (Some f) s p i fresh_stats.
Proof.
  unfold __init__.
  destruct (init_stats_spec f ps (mkState h (mk ps ps timeout []) [] 0))
    as (d & Hrun & Hfresh & Hlen & _ & Hall).
  { intros i e Hi. cbn in Hi. rewrite lookup_nil in Hi. discriminate. }
  eexists. split; [exact Hrun|]. cbn. repeat split; auto.
  intros p Hp. destruct (Hall p Hp) as [i Hfind]. cbn in Hfind.
  exists i. unfold registered, getitem, bind, hash. cbn. rewrite Hfind.
  destruct (lookup_lt_is_Some_2 d i (find_entry_lt _ _ _ _ _ Hfind)) as [e He].
  rewrite He, (Hfresh i e He). reflexivity.
Qed.

(** *** Proxies the manager was not built with *)

(** [self.proxy_stats[p]] raises [KeyError]. *)
Definition unregistered s p : Prop := getitem tp_hash p s = (Raise KeyError, s).

(** X19. The statistics of a proxy the manager does not know cannot be
    updated: [mark_proxy_failed] and [mark_proxy_success] raise [KeyError]
    and change nothing; [verify_proxy] probes the proxy and then raises
    [KeyError] too, whether the probe was answered 200 or raised -- only a
    probe answered with another status, which touches no statistics, lets it
    return [False]. *)
Theorem unregistered_proxy_raises s p :
  unregistered s p ->
  mark_proxy_failed tp_hash p s = (Raise KeyError, s)
  /\ mark_proxy_success tp_hash p s = (Raise KeyError, s)
  /\ match probe (length (probes s)) with
     | Responded status _ =>
         fst (verify_proxy tp_hash clock probe p s)
           = if (status =? 200)%Z then Raise KeyError else Ok false
     | TransportRaised _ => fst (verify_proxy tp_hash clock probe p s) = Raise KeyError
     end.
Proof.
  intros Hun. split; [|split].
  - unfold mark_proxy_failed, bind at 1. rewrite Hun. reflexivity.
  - unfold mark_proxy_success, bind at 1. rewrite Hun. reflexivity.
  - assert (Hext : forall s1, heap s1 = heap s -> proxy_stats (self s1) = proxy_stats (self s) ->
                              getitem tp_hash p s1 = (Raise KeyError, s1)).
    { intros s1 Hheap Hstats. revert Hun. unfold unregistered, getitem, bind, hash.
      destruct tp_hash as [f|]; [|discriminate]. rewrite Hheap, Hstats.
      destruct (find_entry _ _ _ _) as [i|]; [|reflexivity].
      destruct (_ !! i); [discriminate|reflexivity]. }
    destruct (probe (length (probes s))) as [status text|msg] eqn:Hprobe.
    + destruct (Z.eqb_spec status 200) as [->|Hne].
      * unfold verify_proxy, bind at 1, gets.
        unfold bind at 1. unfold try_except, bind at 1, now. unfold bind at 1, session_get.
        cbn [probes]. rewrite Hprobe. cbn [Z.eqb Pos.eqb].
        unfold bind at 1. cbn [clock_reads]. unfold bind at 1.
        rewrite Hext by reflexivity. unfold bind at 1. rewrite Hext by reflexivity.
        reflexivity.
      * rewrite (verify_proxy_other_status tp_hash clock probe s p status text Hprobe Hne).
        reflexivity.
    + unfold verify_proxy, bind at 1, gets.
      unfold bind at 1. unfold try_except, bind at 1, now. unfold bind at 1, session_get.
      cbn [probes]. rewrite Hprobe.
      unfold bind at 1. rewrite Hext by reflexivity. reflexivity.
Qed.

(** *** A failure reported for an evicted proxy *)

(** X20. [mark_proxy_failed] counts before it removes. For a registered
    proxy that is no longer in the working set and whose ratio with the new
    failure is below one half, the call raises [ValueError] from
    [working_proxies.remove(proxy)] -- after it has added the failure to the
    statistics. *)
Theorem failure_after_eviction_raises s p i st :
  registered tp_hash s p i st ->
  contains (heap s) (working_proxies (self s)) p = false ->
  (success_ratio (one_more_failure st) < 1 # 2)%Q ->
  exists s',
    mark_proxy_failed tp_hash p s = (Raise ValueError, s')
    /\ registered tp_hash s' p i (one_more_failure st)
    /\ working_proxies (self s') = working_proxies (self s).
Proof.
  intros Hreg Hout Hlow.
  pose proof (registered_after_put tp_hash s p i st i (one_more_failure st) Hreg) as Hreg'.
  rewrite decide_True in Hreg' by reflexivity.
  rewrite (mark_proxy_failed_eq tp_hash s p i st Hreg). cbv zeta.
  apply Qlt_bool_iff in Hlow. rewrite Hlow.
  assert (Hnone : remove_first (heap s) p (working_proxies (self s)) = None).
  { revert Hout. unfold contains. generalize (working_proxies (self s)).
    intros ws. induction ws as [|y ws IH]; [reflexivity|]. cbn.
    destruct (same (heap s) y p); [discriminate|]. cbn. intros H. rewrite (IH H). reflexivity. }
  rewrite Hnone. eexists. split; [reflexivity|]. split; [exact Hreg'|]. reflexivity.
Qed.

End ManagerEdges.

(** *** Concrete edge cases *)

(** X19 on a concrete input. A proxy at an address the one-proxy manager was
    not given. *)
Lemma unregistered_proxy_raises_witness :
  ProxyManager.mark_proxy_failed identity_hash 1 one_proxy_manager
    = (Raise KeyError, one_proxy_manager)
  /\ ProxyManager.mark_proxy_success identity_hash 1 one_proxy_manager
     = (Raise KeyError, one_proxy_manager)
  /\ fst (ProxyManager.verify_proxy identity_hash millisecond_clock
            (fun _ => Scraper.Responded 200 "") 1 one_proxy_manager) = Raise KeyError.
Proof.
  apply (unregistered_proxy_raises identity_hash millisecond_clock
           (fun _ => Scraper.Responded 200 "") one_proxy_manager 1).
  reflexivity.
Defined.

(** The one proxy after its first failure: evicted, with one failure counted. *)
Definition evicted_once : ProxyManager.State :=
  snd (ProxyManager.mark_proxy_failed identity_hash 0 one_proxy_manager).

(** X20 on a concrete input. The second failure in a row: [ValueError], and
    two failures counted. *)
Lemma failure_after_eviction_raises_witness :
  exists s',
    ProxyManager.mark_proxy_failed identity_hash 0 evicted_once = (Raise ValueError, s')
    /\ registered identity_hash s' 0 0 (ProxyManager.mkStats 0 2 0 None None)
    /\ ProxyManager.working_proxies (ProxyManager.self s') = [].
Proof.
  apply (failure_after_eviction_raises identity_hash evicted_once 0 0
           (ProxyManager.mkStats 0 1 0 None None)).
  - reflexivity.
  - reflexivity.
  - reflexivity.
Defined.

(** ** proxies.py : what the calls leave untouched *)

Section ManagerFrame.
Import Scraper ProxyManager.
Variable tp_hash : option (Proxy.t -> Z).
Variable clock : nat -> Z.
Variable probe : nat -> Response.

Implicit Types (s : State) (p q : ref) (st : Stats).

(** [c] leaves, returning or raising, a state related by [R] to the one
    it started from. *)
Definition keeps (R : State -> State -> Prop) {A} (c : M State A) : Prop :=
  forall s, R s (snd (c s)).

Section Keeps.
Context (R : State -> State -> Prop) `{!PreOrder R}.

Lemma keeps_ret {A} (a : A) : keeps R (ret a).
Proof. intros s. reflexivity. Qed.

Lemma keeps_raise {A} e : keeps R (@raise State A e).
Proof. intros s. reflexivity. Qed.

Lemma keeps_lift {A} (r : Res A) : keeps R (lift r).
Proof. intros s. reflexivity. Qed.

Lemma keeps_gets {A} (f : State -> A) : keeps R (gets f).
Proof. intros s. reflexivity. Qed.

Lemma keeps_getitem p : keeps R (getitem tp_hash p).
Proof. intros s. rewrite getitem_state. reflexivity. Qed.

Lemma keeps_bind {A B} (c : M State A) (k : A -> M State B) :
  keeps R c -> (forall a, keeps R (k a)) -> keeps R (bind c k).
Proof.
  intros Hc Hk s. unfold bind. specialize (Hc s).
  destruct (c s) as [[a|e] s1]; cbn in Hc |- *; [|exact Hc].
  etransitivity; [exact Hc|apply Hk].
Qed.

Lemma keeps_try {A} (c : M State A) (h : exn -> M State A) :
  keeps R c -> (forall e, keeps R (h e)) -> keeps R (try_except c h).
Proof.
  intros Hc Hh s. unfold try_except. specialize (Hc s).
  destruct (c s) as [[a|e] s1]; cbn in Hc |- *; [exact Hc|].
  etransitivity; [exact Hc|apply Hh].
Qed.

Lemma keeps_catch {A} (c : M State A) : keeps R c -> keeps R (catch c).
Proof.
  intros Hc s. unfold catch. specialize (Hc s). destruct (c s) as [r s1]. exact Hc.
Qed.

(** A lookup followed by a computation on what it found. *)
Lemma keeps_getitem_bind {A} p (k : nat * Stats -> M State A) :
  (forall s i e, proxy_stats (self s) !! i = Some e ->
                 R s (snd (k (i, entry_value e) s))) ->
  keeps R (bind (getitem tp_hash p) k).
Proof.
  intros Hk s. unfold bind, getitem at 1, bind, hash.
  destruct tp_hash as [f|]; [|reflexivity].
  destruct (find_entry _ _ _ _) as [i|]; [|reflexivity].
  destruct (proxy_stats (self s) !! i) as [e|] eqn:He; [|reflexivity].
  apply Hk. exact He.
Qed.

End Keeps.

(** The fields of a [Proxy] other than [last_used]. *)
Definition fixed_fields (x : Proxy.t)
    : string * Z * string * option string * option string * Q :=
  (Proxy.host x, Proxy.port x, Proxy.protocol x, Proxy.username x, Proxy.password x,
   Proxy.success_rate x).

(** The keys of the statistics dictionary with the ["last_used"] value of
    each entry. *)
Definition layout (d : list Entry) : list (Z * ref * option Z) :=
  map (fun e => (entry_hash e, entry_key e, last_used (entry_value e))) d.

(** What no call changes. *)
Record frame (s s' : State) : Prop := mk_frame {
  frame_proxies : proxies (self s') = proxies (self s);
  frame_timeout : verify_timeout (self s') = verify_timeout (self s);
  frame_layout : layout (proxy_stats (self s')) = layout (proxy_stats (self s));
  frame_heap : forall r, fixed_fields (heap s' r) = fixed_fields (heap s r)
}.

#[local] Instance frame_preorder : PreOrder frame.
Proof.
  split.
  - intros s. split; reflexivity.
  - intros s1 s2 s3 [Hp Ht Hl Hh] [Hp' Ht' Hl' Hh'].
    split; [congruence|congruence|congruence|].
    intros r. rewrite Hh'. apply Hh.
Qed.

Lemma layout_alter (d : list Entry) i e v :
  d !! i = Some e ->
  last_used v = last_used (entry_value e) ->
  layout (alter (set_value v) i d) = layout d.
Proof.
  unfold layout. revert i. induction d as [|e' d IH]; intros [|i] Hi Hv; cbn in *; auto.
  - injection Hi as ->. rewrite Hv. reflexivity.
  - f_equal. apply IH; assumption.
Qed.

(** A store that keeps the ["last_used"] value of the entry it writes. *)
Lemma frame_put s s1 i e v :
  proxy_stats (self s) !! i = Some e ->
  last_used v = last_used (entry_value e) ->
  heap s1 = heap s -> self s1 = self s ->
  frame s (snd (put_stats i v s1)).
Proof.
  intros Hi Hv Hheap Hself. unfold put_stats, modify. cbn. split; cbn; rewrite ?Hself, ?Hheap; auto.
  eapply layout_alter; eauto.
Qed.

Lemma frame_now : keeps frame (now clock).
Proof. intros s. split; reflexivity. Qed.

Lemma frame_session_get p u : keeps frame (session_get probe p u).
Proof. intros s. unfold session_get. destruct (probe _); split; reflexivity. Qed.

Lemma frame_set_last_used p t : keeps frame (set_last_used p t).
Proof.
  intros s. split; try reflexivity. intros r. cbn.
  destruct (Nat.eqb r p); reflexivity.
Qed.

Lemma frame_with_working (f : State -> list ref) :
  keeps frame (modify (fun s => with_working s (f s))).
Proof. intros s. split; reflexivity. Qed.

Lemma frame_verify_proxy p : keeps frame (verify_proxy tp_hash clock probe p).
Proof.
  unfold verify_proxy.
  apply keeps_bind; [apply _|apply keeps_gets; apply _|]. intros x.
  apply keeps_bind; [apply _| |intros [b|]; apply keeps_ret; apply _].
  apply keeps_try; [apply _| |].
  - apply keeps_bind; [apply _|apply frame_now|]. intros start_time.
    apply keeps_bind; [apply _|apply frame_session_get|]. intros status.
    destruct (status =? 200)%Z; [|apply keeps_ret; apply _].
    apply keeps_bind; [apply _|apply frame_now|]. intros end_time.
    apply keeps_getitem_bind; [apply _|]. intros s i e He.
    cbn [fst snd]. unfold bind at 1, now. unfold bind at 1.
    match goal with |- frame s (snd (match put_stats ?i ?v ?s1 with _ => _ end)) =>
      pose proof (frame_put s s1 i e v He eq_refl eq_refl eq_refl) as Hput;
      destruct (put_stats i v s1) as [[[]|err] s2] end; exact Hput.
  - intros err. apply keeps_getitem_bind; [apply _|]. intros s i e He.
    cbn [fst snd]. unfold bind at 1.
    match goal with |- frame s (snd (match put_stats ?i ?v ?s1 with _ => _ end)) =>
      pose proof (frame_put s s1 i e v He eq_refl eq_refl eq_refl) as Hput;
      destruct (put_stats i v s1) as [[[]|err'] s2] end; exact Hput.
Qed.

Lemma frame_mark_proxy_success p : keeps frame (mark_proxy_success tp_hash p).
Proof.
  unfold mark_proxy_success. apply keeps_getitem_bind; [apply _|]. intros s i e He.
  cbn [fst snd]. eapply frame_put; eauto.
Qed.

Lemma frame_mark_proxy_failed p : keeps frame (mark_proxy_failed tp_hash p).
Proof.
  unfold mark_proxy_failed. apply keeps_getitem_bind; [apply _|]. intros s i e He.
  cbn [fst snd]. unfold bind at 1.
  match goal with |- frame s (snd (match put_stats ?i ?v ?s1 with _ => _ end)) =>
    pose proof (frame_put s s1 i e v He eq_refl eq_refl eq_refl) as Hput;
    destruct (put_stats i v s1) as [[[]|err] s2] end; [|exact Hput].
  etransitivity; [exact Hput|]. cbn [snd].
  unfold bind, lift. destruct (truediv _ _) as [ratio|err]; [|reflexivity].
  destruct (Qlt_bool ratio (1 # 2)); [|reflexivity].
  destruct (remove_first _ _ _); split; reflexivity.
Qed.

Lemma frame_keyed ps : keeps frame (keyed tp_hash ps).
Proof.
  induction ps as [|p ps IH]; cbn [keyed]; [apply keeps_ret; apply _|].
  apply keeps_bind; [apply _| |].
  - unfold sort_key. apply keeps_bind; [apply _|apply keeps_getitem; apply _|]. intros e.
    apply keeps_bind; [apply _|apply keeps_lift; apply _|]. intros ratio.
    apply keeps_ret; apply _.
  - intros k. apply keeps_bind; [apply _|exact IH|]. intros rest. apply keeps_ret; apply _.
Qed.

Lemma frame_try_best cs : keeps frame (try_best tp_hash clock probe cs).
Proof.
  induction cs as [|p cs IH]; cbn [try_best]; [apply keeps_ret; apply _|].
  apply keeps_bind; [apply _|apply frame_verify_proxy|]. intros [|]; [|exact IH].
  apply keeps_bind; [apply _|apply frame_now|]. intros t.
  apply keeps_bind; [apply _|apply frame_set_last_used|]. intros _.
  apply keeps_ret; apply _.
Qed.

Lemma frame_gather_verify ps : keeps frame (gather_verify tp_hash clock probe ps).
Proof.
  induction ps as [|p ps IH]; cbn [gather_verify]; [apply keeps_ret; apply _|].
  apply keeps_bind; [apply _|apply keeps_catch, frame_verify_proxy; apply _|]. intros r.
  apply keeps_bind; [apply _|exact IH|]. intros rs. apply keeps_ret; apply _.
Qed.

Lemma frame_get_proxy : keeps frame (get_proxy tp_hash clock probe).
Proof.
  unfold get_proxy. apply keeps_bind; [apply _|apply keeps_gets; apply _|]. intros [|w ws].
  { apply keeps_ret; apply _. }
  apply keeps_bind; [apply _|apply frame_keyed|]. intros ks.
  apply keeps_bind; [apply _|apply frame_try_best|]. intros [p|]; [apply keeps_ret; apply _|].
  apply keeps_bind; [apply _|apply keeps_gets; apply _|]. intros ws1.
  apply keeps_bind; [apply _|apply frame_gather_verify|]. intros results.
  apply keeps_bind; [apply _|apply keeps_gets; apply _|]. intros ws2.
  apply keeps_bind; [apply _|apply (frame_with_working (fun _ => verified ws2 results))|].
  intros _.
  apply keeps_bind; [apply _|apply keeps_gets; apply _|]. intros [|p ws3].
  { apply keeps_ret; apply _. }
  apply keeps_bind; [apply _|apply frame_now|]. intros t.
  apply keeps_bind; [apply _|apply frame_set_last_used|]. intros _.
  apply keeps_ret; apply _.
Qed.

Lemma frame_perform s c : frame s (perform tp_hash clock probe s c).
Proof.
  destruct c; cbn [perform].
  - apply frame_verify_proxy.
  - apply frame_get_proxy.
  - apply frame_mark_proxy_failed.
  - apply frame_mark_proxy_success.
Qed.

Lemma frame_calls (calls : list Call) : forall s,
  frame s (fold_left (perform tp_hash clock probe) calls s).
Proof.
  induction calls as [|c calls IH]; intros s; cbn [fold_left]; [reflexivity|].
  etransitivity; [apply frame_perform|apply IH].
Qed.

(** X21. The manager writes one field of a [Proxy], [last_used]. Whatever
    the calls made on it, the list [self.proxies] and the timeout are what
    the constructor stored, and every [Proxy] object has the host, port,
    protocol, credentials and [success_rate] it had: [success_rate] is never
    updated from the statistics. *)
Theorem proxy_fields_never_written (calls : list Call) (s : State) :
  let s' := fold_left (perform tp_hash clock probe) calls s in
  proxies (self s') = proxies (self s)
  /\ verify_timeout (self s') = verify_timeout (self s)
  /\ forall r,
       Proxy.identity (heap s' r) = Proxy.identity (heap s r)
       /\ Proxy.username (heap s' r) = Proxy.username (heap s r)
       /\ Proxy.password (heap s' r) = Proxy.password (heap s r)
       /\ Proxy.success_rate (heap s' r) = Proxy.success_rate (heap s r).
Proof.
  cbv zeta. destruct (frame_calls calls s) as [Hp Ht _ Hh].
  split; [exact Hp|]. split; [exact Ht|]. intros r. specialize (Hh r).
  unfold fixed_fields in Hh. unfold Proxy.identity. injection Hh as -> -> -> -> -> ->.
  auto.
Qed.

(** X22. The ["last_used"] key of the statistics is never written. On a
    manager built by the constructor, whatever the calls made on it, the
    statistics dictionary keeps the keys it was built with and every entry
    still has ["last_used"] at [None]: [get_proxy] stamps the [Proxy]
    object, not the statistics. *)
Theorem stats_last_used_stays_none (h : ref -> Proxy.t) (ps : list ref) (timeout : Q)
    (calls : list Call) :
  let s0 := snd (__init__ tp_hash h ps timeout) in
  let s' := fold_left (perform tp_hash clock probe) calls s0 in
  map entry_key (proxy_stats (self s')) = map entry_key (proxy_stats (self s0))
  /\ forall i e, proxy_stats (self s') !! i = Some e -> last_used (entry_value e) = None.
Proof.
  intros s0 s'.
  destruct (frame_calls calls s0) as [_ _ Hl _]. fold s' in Hl.
  pose proof (init_all_fresh tp_hash h ps timeout) as Hfresh. fold s0 in Hfresh.
  split.
  - apply (f_equal (map (fun x => snd (fst x)))) in Hl. unfold layout in Hl.
    rewrite !map_map in Hl. exact Hl.
  - intros i e Hi.
    assert (Hi' : layout (proxy_stats (self s')) !! i
                  = Some (entry_hash e, entry_key e, last_used (entry_value e))).
    { unfold layout. rewrite list_lookup_fmap, Hi. reflexivity. }
    rewrite Hl in Hi'. unfold layout in Hi'. rewrite list_lookup_fmap in Hi'.
    destruct (proxy_stats (self s0) !! i) as [e0|] eqn:He0; [|discriminate].
    cbn in Hi'. injection Hi' as _ _ <-. rewrite (Hfresh i e0 He0). reflexivity.
Qed.

End ManagerFrame.

(** ** proxies.py : what [get_proxy] probes and hands out *)

Section GetProxyEffects.
Import Scraper ProxyManager.
Variable tp_hash : option (Proxy.t -> Z).
Variable clock : nat -> Z.
Variable probe : nat -> Response.

Implicit Types (s : State) (p q : ref) (st : Stats).


(** [get_proxy] step by step. *)
Lemma get_proxy_eq s :
  get_proxy tp_hash clock probe s
    = match working_proxies (self s) with
      | [] => (Ok None, s)
      | _ :: _ =>
          match keyed tp_hash (working_proxies (self s)) s with
          | (Raise e, s1) => (Raise e, s1)
          | (Ok ks, s1) =>
              match try_best tp_hash clock probe (take 3 (map snd (sorted_desc ks))) s1 with
              | (Raise e, s2) => (Raise e, s2)
              | (Ok (Some p), s2) => (Ok (Some p), s2)
              | (Ok None, s2) =>
                  match gather_verify tp_hash clock probe (working_proxies (self s2)) s2 with
                  | (Raise e, s3) => (Raise e, s3)
                  | (Ok results, s3) =>
                      match verified (working_proxies (self s3)) results with
                      | [] => (Ok None, with_working s3 [])
                      | p :: kept =>
                          (Ok (Some p),
                           snd (set_last_used p (clock (clock_reads s3))
                                  (snd (now clock (with_working s3 (p :: kept))))))
                      end
                  end
              end
          end
      end.
Proof.
  unfold get_proxy, bind at 1, gets.
  destruct (working_proxies (self s)) as [|w ws]; [reflexivity|].
  unfold bind at 1. destruct (keyed tp_hash (w :: ws) s) as [[ks|e] s1]; [|reflexivity].
  unfold bind at 1.
  destruct (try_best tp_hash clock probe _ s1) as [[[p|]|e] s2]; try reflexivity.
  unfold bind at 1. unfold bind at 1.
  destruct (gather_verify tp_hash clock probe _ s2) as [[results|e] s3]; [|reflexivity].
  unfold bind at 1. unfold bind at 1, modify. unfold bind at 1.
  cbn [self working_proxies with_working with_self].
  destruct (verified (working_proxies (self s3)) results) as [|p kept]; reflexivity.
Qed.

(** A lookup leaves the state as it is, whatever it returns. *)
Lemma getitem_same p s r s' : getitem tp_hash p s = (r, s') -> s' = s.
Proof. intros H. rewrite <- (getitem_state tp_hash p s), H. reflexivity. Qed.

(** One verification is one probe, of this proxy; it returns [True] only
    when the probe was answered 200, and moves neither the working set
    nor the heap. *)
Lemma verify_proxy_effect p s :
  exists r s',
    verify_proxy tp_hash clock probe p s = (r, s')
    /\ probes s' = p :: probes s
    /\ working_proxies (self s') = working_proxies (self s)
    /\ heap s' = heap s
    /\ (r = Ok true -> probe_ok (probe (length (probes s))) = true).
Proof.
  destruct (verify_proxy tp_hash clock probe p s) as [r s'] eqn:Hcall.
  exists r, s'. split; [reflexivity|]. revert Hcall.
  unfold verify_proxy, bind at 1, gets.
  unfold bind at 1. unfold try_except, bind at 1, now. unfold bind at 1, session_get.
  cbn [probes].
  destruct (probe (length (probes s))) as [status text|msg] eqn:Hprobe.
  - destruct (Z.eqb_spec status 200) as [->|Hne].
    + cbn [Z.eqb Pos.eqb probe_ok].
      unfold bind at 1. cbn [clock_reads]. unfold bind at 1.
      match goal with |- context [getitem tp_hash p ?s1] =>
        destruct (getitem tp_hash p s1) as [r0 s2] eqn:Hget;
        apply getitem_same in Hget; subst s2; destruct r0 as [[i st]|e] end.
      * cbn [fst snd]. unfold bind at 1. cbn. intros [= <- <-]. cbn. auto.
      * unfold bind at 1.
        match goal with |- context [getitem tp_hash p ?s1] =>
          destruct (getitem tp_hash p s1) as [r0 s2] eqn:Hget;
          apply getitem_same in Hget; subst s2; destruct r0 as [[i st]|e'] end;
          cbn; intros [= <- <-]; cbn; auto.
    + cbn. intros [= <- <-]. cbn.
      split; [reflexivity|]. split; [reflexivity|]. split; [reflexivity|]. discriminate.
  - unfold bind at 1.
    match goal with |- context [getitem tp_hash p ?s1] =>
      destruct (getitem tp_hash p s1) as [r0 s2] eqn:Hget;
      apply getitem_same in Hget; subst s2; destruct r0 as [[i st]|e] end;
      cbn; intros [= <- <-]; cbn;
      (split; [reflexivity|]; split; [reflexivity|]; split; [reflexivity|]; discriminate).
Qed.

(** The ranking reads the statistics and nothing else, and pairs each
    proxy with its key. *)
Lemma keyed_ok ps : forall s r s',
  keyed tp_hash ps s = (r, s') ->
  s' = s /\ forall ks, r = Ok ks -> map snd ks = ps.
Proof.
  induction ps as [|p ps IH]; intros s r s' Hrun; cbn [keyed] in Hrun.
  - injection Hrun as <- <-. split; [reflexivity|]. intros ks [= <-]. reflexivity.
  - unfold bind at 1, sort_key, bind at 1 in Hrun.
    destruct (getitem tp_hash p s) as [r0 s0] eqn:Hget.
    apply getitem_same in Hget. subst s0. destruct r0 as [[i st]|e].
    2: { injection Hrun as <- <-. split; [reflexivity|]. discriminate. }
    cbn [fst snd] in Hrun. unfold bind at 1, lift in Hrun.
    destruct (truediv _ _) as [ratio|e].
    2: { injection Hrun as <- <-. split; [reflexivity|]. discriminate. }
    unfold ret at 1 in Hrun. unfold bind at 1 in Hrun.
    destruct (keyed tp_hash ps s) as [r1 s1] eqn:Hrest.
    destruct (IH s r1 s1 Hrest) as [-> Hks]. destruct r1 as [rest|e].
    + injection Hrun as <- <-. split; [reflexivity|]. intros ks [= <-].
      cbn. rewrite (Hks rest eq_refl). reflexivity.
    + injection Hrun as <- <-. split; [reflexivity|]. discriminate.
Qed.

(** The loop over the candidates probes a prefix of them, in order; the
    proxy it returns is the last it probed, its probe was answered 200,
    and its [last_used] is the time read after that. *)
Lemma try_best_effect cs : forall s,
  exists r s' n,
    try_best tp_hash clock probe cs s = (r, s')
    /\ n <= length cs
    /\ probes s' = (rev (take n cs) ++ probes s)%list
    /\ working_proxies (self s') = working_proxies (self s)
    /\ forall p, r = Ok (Some p) ->
         0 < n /\ cs !! (n - 1) = Some p
         /\ probe_ok (probe (length (probes s) + (n - 1))) = true
         /\ Proxy.last_used (heap s' p) = Some (clock (pred (clock_reads s'))).
Proof.
  induction cs as [|c cs IH]; intros s.
  - exists (Ok None), s, 0. cbn. split; [reflexivity|]. split; [lia|].
    split; [reflexivity|]. split; [reflexivity|]. intros p [=].
  - cbn [try_best]. unfold bind at 1.
    destruct (verify_proxy_effect c s) as (r0 & s1 & Hverify & Hlog & Hws & Hheap & Hok).
    rewrite Hverify. destruct r0 as [[|]|e].
    + (* verified *)
      eexists _, _, 1. split; [reflexivity|]. split; [cbn; lia|].
      cbn. split; [rewrite Hlog; reflexivity|]. split; [exact Hws|].
      intros p [= <-]. rewrite Nat.add_0_r, Nat.eqb_refl. cbn. auto.
    + (* not verified: on to the rest *)
      destruct (IH s1) as (r & s' & n & Hrun & Hn & Hlog' & Hws' & Hret).
      exists r, s', (S n). split; [exact Hrun|]. split; [cbn; lia|].
      split; [rewrite Hlog', Hlog; cbn; rewrite <- app_assoc; reflexivity|].
      split; [congruence|].
      intros p Hp. destruct (Hret p Hp) as (Hpos & Hat & Hgood & Hused).
      rewrite Hlog in Hgood. cbn [length] in Hgood.
      split; [lia|]. split.
      { replace (S n - 1) with (S (n - 1)) by lia. exact Hat. }
      split; [|exact Hused].
      replace (length (probes s) + (S n - 1)) with (S (length (probes s)) + (n - 1)) by lia.
      exact Hgood.
    + (* the verification raised *)
      eexists _, _, 1. split; [reflexivity|]. split; [cbn; lia|].
      cbn. split; [rewrite Hlog; reflexivity|]. split; [exact Hws|]. discriminate.
Qed.

(** The re-verification probes every proxy of the list, in order, and
    never raises; a result is [True] only when the probe of its position
    was answered 200. *)
Lemma gather_verify_effect ps : forall s,
  exists results s',
    gather_verify tp_hash clock probe ps s = (Ok results, s')
    /\ length results = length ps
    /\ probes s' = (rev ps ++ probes s)%list
    /\ working_proxies (self s') = working_proxies (self s)
    /\ forall j, results !! j = Some (Ok true) ->
                 probe_ok (probe (length (probes s) + j)) = true.
Proof.
  induction ps as [|p ps IH]; intros s.
  - exists [], s. cbn. split; [reflexivity|]. split; [reflexivity|].
    split; [reflexivity|]. split; [reflexivity|].
    intros j Hj. rewrite lookup_nil in Hj. discriminate.
  - cbn [gather_verify]. unfold bind at 1, catch.
    destruct (verify_proxy_effect p s) as (r & s1 & Hverify & Hlog & Hws & _ & Hok).
    rewrite Hverify.
    destruct (IH s1) as (results & s' & Hrun & Hlen & Hlog' & Hws' & Hres).
    unfold bind at 1. rewrite Hrun.
    exists (r :: results), s'. cbn.
    split; [reflexivity|]. split; [lia|].
    split; [rewrite Hlog', Hlog, <- app_assoc; reflexivity|]. split; [congruence|].
    intros [|j] Hj; cbn in Hj.
    + injection Hj as ->. rewrite Nat.add_0_r. apply Hok. reflexivity.
    + specialize (Hres j Hj). rewrite Hlog in Hres. cbn [length] in Hres.
      replace (length (probes s) + S j) with (S (length (probes s)) + j) by lia. exact Hres.
Qed.




(** X24. [get_proxy] probes working proxies only, and not many: with [n]
    proxies in the working set a call makes at most [3 + n] probes, each of
    a proxy of the working set, and none when the set is empty. *)
Theorem get_proxy_probe_bound s :
  exists probed,
    probes (snd (get_proxy tp_hash clock probe s)) = (rev probed ++ probes s)%list
    /\ length probed <= 3 + length (working_proxies (self s))
    /\ (forall q, q ∈ probed -> q ∈ working_proxies (self s))
    /\ (working_proxies (self s) = [] -> probed = []).
Proof.
  rewrite get_proxy_eq.
  destruct (working_proxies (self s)) as [|w ws] eqn:Hws.
  { exists []. cbn. split; [reflexivity|]. split; [lia|].
    split; [intros q Hq; inversion Hq|reflexivity]. }
  destruct (keyed tp_hash (w :: ws) s) as [r s1] eqn:Hkeyed.
  destruct (keyed_ok _ _ _ _ Hkeyed) as [-> Hks].
  destruct r as [ks|e].
  2: { exists []. cbn. split; [reflexivity|]. split; [lia|].
       split; [intros q Hq; inversion Hq|reflexivity]. }
  specialize (Hks ks eq_refl).
  set (top := take 3 (map snd (sorted_desc ks))).
  assert (Htop : forall q, q ∈ top -> q ∈ w :: ws).
  { intros q Hq. rewrite <- Hks. apply ranked_in_working. exact Hq. }
  assert (Hlen3 : length top <= 3).
  { subst top. rewrite length_take. lia. }
  destruct (try_best_effect top s) as (r2 & s2 & n & Hbest & Hn & Hlog1 & Hws1 & _).
  rewrite Hbest.
  assert (Hfirst : forall q, q ∈ take n top -> q ∈ w :: ws).
  { intros q Hq. apply Htop. eapply subseteq_take. exact Hq. }
  assert (Hlenn : length (take n top) <= 3).
  { rewrite length_take. lia. }
  destruct r2 as [[q|]|e].
  - exists (take n top). cbn [snd]. split; [exact Hlog1|]. split; [lia|].
    split; [exact Hfirst|discriminate].
  - destruct (gather_verify_effect (working_proxies (self s2)) s2)
      as (results & s3 & Hrun & Hlen & Hlog2 & Hws2 & _).
    rewrite Hrun. rewrite Hws1, Hws in Hlog2.
    exists (take n top ++ w :: ws)%list.
    assert (Hlog : probes s3 = (rev (take n top ++ w :: ws) ++ probes s)%list).
    { rewrite Hlog2, Hlog1, rev_app_distr, <- app_assoc. reflexivity. }
    split.
    { destruct (verified _ results); cbn; exact Hlog. }
    split; [rewrite length_app; cbn [length] in *; lia|].
    split; [|discriminate].
    intros q Hq. apply elem_of_app in Hq as [Hq|Hq]; [apply Hfirst; exact Hq|exact Hq].
  - exists (take n top). cbn [snd]. split; [exact Hlog1|]. split; [lia|].
    split; [exact Hfirst|discriminate].
Qed.

(** X25. An exhausted pool stays exhausted. When [get_proxy] returns [None]
    the working set is empty, and from then on, whatever calls are made in
    between, [get_proxy] returns [None] again without a probe: the proxies
    in [self.proxies] are never tried again. *)
Theorem exhausted_pool_stays_exhausted s s1 (calls : list Call) :
  get_proxy tp_hash clock probe s = (Ok None, s1) ->
  working_proxies (self s1) = []
  /\ let s2 := fold_left (perform tp_hash clock probe) calls s1 in
     get_proxy tp_hash clock probe s2 = (Ok None, s2).
Proof.
  intros Hcall.
  assert (Hempty : working_proxies (self s1) = []).
  { revert Hcall. rewrite get_proxy_eq.
    destruct (working_proxies (self s)) as [|w ws] eqn:Hws; [intros [= <-]; exact Hws|].
    destruct (keyed tp_hash (w :: ws) s) as [[ks|e] s0]; [|discriminate].
    destruct (try_best tp_hash clock probe _ s0) as [[[q|]|e] s2]; try discriminate.
    destruct (gather_verify tp_hash clock probe _ s2) as [[results|e] s3]; [|discriminate].
    destruct (verified _ results); [|discriminate].
    intros [= <-]. reflexivity. }
  split; [exact Hempty|]. cbv zeta.
  assert (Hstill : working_proxies (self (fold_left (perform tp_hash clock probe) calls s1))
                   = []).
  { destruct (working_proxies (self (fold_left (perform tp_hash clock probe) calls s1)))
      as [|q qs] eqn:Hq; [reflexivity|]. exfalso.
    apply (no_readmission tp_hash clock probe calls s1 q).
    - rewrite Hempty. intros Hin. inversion Hin.
    - rewrite Hq. left. }
  rewrite get_proxy_eq, Hstill. reflexivity.
Qed.

End GetProxyEffects.

(** ** proxies.py : re-verification and the average response time *)

Section Reverification.
Import Scraper ProxyManager.
Variable tp_hash : option (Proxy.t -> Z).
Variable clock : nat -> Z.
Variable probe : nat -> Response.

Implicit Types (s : State) (p q : ref) (st : Stats).



End Reverification.

(** *** Concrete pools *)


(** X25 on a concrete input. The one proxy never answers: the pool is
    exhausted by the first [get_proxy], and a success reported afterwards
    does not bring it back. *)
Lemma exhausted_pool_stays_exhausted_witness :
  ProxyManager.working_proxies
    (ProxyManager.self
       (snd (ProxyManager.get_proxy identity_hash millisecond_clock no_answer
               one_proxy_manager))) = []
  /\ fst (ProxyManager.get_proxy identity_hash millisecond_clock no_answer
            (fold_left (perform identity_hash millisecond_clock no_answer)
               [MarkProxySuccess 0; MarkProxySuccess 0]
               (snd (ProxyManager.get_proxy identity_hash millisecond_clock no_answer
                       one_proxy_manager))))
     = Ok None.
Proof.
  destruct (exhausted_pool_stays_exhausted identity_hash millisecond_clock no_answer
              one_proxy_manager
              (snd (ProxyManager.get_proxy identity_hash millisecond_clock no_answer
                      one_proxy_manager))
              [MarkProxySuccess 0; MarkProxySuccess 0]) as [Hempty Hagain].
  - vm_compute. reflexivity.
  - split; [exact Hempty|]. cbv zeta in Hagain. rewrite Hagain. reflexivity.
Defined.



(** ** search_engines.py : what a Brave search returns and raises *)

Section BraveSpec.
Import BraveSearchEngine.
Variable clock : nat -> Z.
Variable api : nat -> Reply.

(** The items of the response that [search] turns into results. *)
Definition is_object (v : JSON) : bool :=
  match v with
  | JObject _ => true
  | _ => false
  end.

(** The value of [key] in an item, [default] when the key is missing. *)
Definition item_field (key : string) (default : JSON) (item : JSON) : JSON :=
  match item with
  | JObject members =>
      match Dict.get key members with
      | Some x => x
      | None => default
      end
  | _ => default
  end.

Lemma build_spec (items : list JSON) : forall n,
  let objects := filter (fun v => is_object v = true) items in
  let results := fst (build clock n items) in
  snd (build clock n items) = n + length objects
  /\ map title results = map (item_field "title" (JString "")) objects
  /\ map BraveSearchEngine.url results = map (item_field "url" (JString "")) objects
  /\ map snippet results = map (item_field "description" (JString "")) objects
  /\ map timestamp results = map clock (seq n (length objects))
  /\ Forall (fun r => source r = "brave") results.
Proof.
  induction items as [|item items IH]; intros n; cbv zeta.
  - cbn. rewrite Nat.add_0_r. repeat split; auto.
  - rewrite filter_cons.
    destruct item as [| b | z | x | str | arr | members]; cbn [is_object build];
      try (rewrite decide_False by discriminate; apply IH).
    rewrite decide_True by reflexivity.
    destruct (IH (S n)) as (Hn & Ht & Hu & Hs & Hc & Hsrc). cbv zeta in *.
    destruct (build clock (S n) items) as [results n'] eqn:Hbuild. cbn [fst snd] in *.
    cbn [length map seq item_field]. rewrite Ht, Hu, Hs, Hc, Hn.
    split; [lia|]. repeat split; auto.
Qed.

(** X28. Every failure of a search is a [ClientError]. Whatever the API
    answers -- a raise of the transport, a status other than 200, a body
    that is no JSON, a JSON body of an unexpected shape -- [search] sends
    one request, with the API key as its token and [max_results] as its
    [count], and either returns a list or raises [ClientError] with a
    message that starts with [Failed to search with Brave: ]. *)
Theorem brave_search_raises_client_error (query : string) (max_results : Z)
    (proxy : option Proxy.t) (s : State) :
  let call := search clock api query max_results proxy s in
  requests (snd call)
    = mkRequest (base_url (self s)) (api_key (self s)) query max_results
        (option_map Proxy.proxy_url proxy) :: requests s
  /\ _session (self (snd call)) = Open
  /\ forall e, fst call = Raise e ->
       exists reason, e = ClientError ("Failed to search with Brave: " ++ reason).
Proof.
  cbv zeta. unfold search, bind, session, modify, with_session.
  cbn [requests clock_reads self _session api_key base_url].
  destruct (api (length (requests s))) as [msg|status json text].
  { cbn. repeat split. intros e [= <-]. eauto. }
  destruct (status =? 200)%Z.
  - destruct json as [data|err].
    + destruct (results_of clock data (clock_reads s)) as [t|[results n]].
      * cbn. repeat split. intros e [= <-]. eauto.
      * cbn. repeat split. intros e [=].
    + cbn. repeat split. intros e [= <-]. eauto.
  - destruct text as [error_text|err]; cbn; repeat split; intros e [= <-]; eauto.
Qed.

(** X29. The results follow the response, not [max_results]. For a 200
    response whose ["web"]["results"] is a list, [search] returns one result
    for each item of the list that is a dictionary, in order, however many
    they are: nothing is cut to [max_results], and an item that is no
    dictionary is skipped without an error. Each result takes its title, URL
    and snippet from the keys ["title"], ["url"] and ["description"] of its
    item, the empty string standing for a missing key, and has the source
    ["brave"]. *)
Theorem brave_results_follow_response (query : string) (max_results : Z)
    (proxy : option Proxy.t) (s : State) (text : Res string)
    (data web : list (string * JSON)) (items : list JSON) :
  api (length (requests s)) = Responded 200 (Ok (JObject data)) text ->
  Dict.get "web" data = Some (JObject web) ->
  Dict.get "results" web = Some (JArray items) ->
  let objects := filter (fun v => is_object v = true) items in
  exists results s',
    search clock api query max_results proxy s = (Ok results, s')
    /\ length results = length objects
    /\ map title results = map (item_field "title" (JString "")) objects
    /\ map BraveSearchEngine.url results = map (item_field "url" (JString "")) objects
    /\ map snippet results = map (item_field "description" (JString "")) objects
    /\ Forall (fun r => source r = "brave") results.
Proof.
  intros Hapi Hweb Hresults. cbv zeta.
  destruct (build_spec items (clock_reads s)) as (Hn & Ht & Hu & Hs & Hc & Hsrc).
  cbv zeta in *.
  unfold search, bind, session, modify, with_session.
  cbn [requests clock_reads self _session api_key base_url].
  rewrite Hapi. cbn [Z.eqb Pos.eqb]. unfold results_of, get. rewrite Hweb, Hresults.
  destruct items as [|item items'] eqn:Hitems.
  - cbn. eexists. eexists. split; [reflexivity|]. cbn. repeat split; auto.
  - cbn [truth length Nat.eqb negb iterate]. rewrite <- Hitems in *.
    destruct (build clock (clock_reads s) items) as [results n] eqn:Hbuild.
    cbn [fst snd] in *. eexists. eexists. split; [reflexivity|].
    split; [|auto].
    apply (f_equal length) in Ht. rewrite !length_map in Ht. exact Ht.
Qed.

End BraveSpec.

(** *** A concrete response *)

Definition item_a : BraveSearchEngine.JSON :=
  BraveSearchEngine.JObject [("title", BraveSearchEngine.JString "A");
                             ("url", BraveSearchEngine.JString "https://a.example")].

Definition item_b : BraveSearchEngine.JSON :=
  BraveSearchEngine.JObject [("description", BraveSearchEngine.JString "about B")].

(** Three items, the second of them a string. *)
Definition three_items : list BraveSearchEngine.JSON :=
  [item_a; BraveSearchEngine.JString "noise"; item_b].

Definition three_item_reply (n : nat) : BraveSearchEngine.Reply :=
  BraveSearchEngine.Responded 200
    (Ok (BraveSearchEngine.JObject
           [("web", BraveSearchEngine.JObject
                      [("results", BraveSearchEngine.JArray three_items)])]))
    (Ok "").

Definition new_engine : BraveSearchEngine.State :=
  BraveSearchEngine.mkState (BraveSearchEngine.__init__ "key") [] 0.

(** X29 on a concrete input. With [max_results=1] the two dictionaries still
    give two results. *)
Lemma brave_results_follow_response_witness :
  exists results s',
    BraveSearchEngine.search second_clock three_item_reply "python" 1 None new_engine
      = (Ok results, s')
    /\ length results = 2
    /\ map BraveSearchEngine.title results
       = [BraveSearchEngine.JString "A"; BraveSearchEngine.JString ""]
    /\ map BraveSearchEngine.snippet results
       = [BraveSearchEngine.JString ""; BraveSearchEngine.JString "about B"].
Proof.
  destruct (brave_results_follow_response second_clock three_item_reply "python" 1 None
              new_engine (Ok "")
              [("web", BraveSearchEngine.JObject
                         [("results", BraveSearchEngine.JArray three_items)])]
              [("results", BraveSearchEngine.JArray three_items)]
              three_items)
    as (results & s' & Hcall & Hlen & Htitle & _ & Hsnippet & _);
    try reflexivity.
  exists results, s'. auto.
Defined.
